(** * A traced MD5: the engine of md5algorithm (the module ./md5)

    The JavaScript module computes the MD5 digest of a text or hex input and
    records every intermediate state as an event.  This file embeds the module
    function by function and proves the properties its specification states.

    Conventions of the embedding.
    - A JavaScript string is the list of its UTF-16 code units ([list Z]).
    - A JavaScript number that holds an integer is a [Z]; the 32-bit
      conversions [ToInt32] and [ToUint32] that the bitwise operators apply
      are written out.
    - An array is a list; reading an array of numbers out of range and using
      the result in a bitwise operator gives 0, hence [nth _ _ 0].
    - A call either returns, throws an [Error] with a message, or leaves the
      model ([Stuck]: a loop of the model ran out of fuel, or a byte would be
      NaN).  The theorems show that [Stuck] never happens. *)

From Stdlib Require Import ZArith List String Ascii Bool Lia Arith.
Import ListNotations.
Local Open Scope Z_scope.

(** ** Outcomes of a call *)

Inductive outcome (A : Type) : Type :=
| Returned (a : A)
| Thrown (message : string)
| Stuck.
Arguments Returned {A} a.
Arguments Thrown {A} message.
Arguments Stuck {A}.

Definition bind {A B : Type} (m : outcome A) (k : A -> outcome B) : outcome B :=
  match m with
  | Returned a => k a
  | Thrown msg => Thrown msg
  | Stuck => Stuck
  end.

Notation "x <- m ;; k" := (bind m (fun x => k))
  (at level 61, m at next level, right associativity).

(** ** JavaScript's 32-bit integer operators *)

Module JS.

Definition two32 : Z := 4294967296.

(** [x >>> 0] *)
Definition toUint32 (x : Z) : Z := x mod two32.

(** the conversion applied to each operand of [&], [|], [^], [~], [<<] *)
Definition toInt32 (x : Z) : Z :=
  let u := x mod two32 in
  if u <? 2147483648 then u else u - two32.

Definition and (x y : Z) : Z := toInt32 (Z.land (toInt32 x) (toInt32 y)).
Definition or (x y : Z) : Z := toInt32 (Z.lor (toInt32 x) (toInt32 y)).
Definition xor (x y : Z) : Z := toInt32 (Z.lxor (toInt32 x) (toInt32 y)).
Definition not (x : Z) : Z := toInt32 (Z.lnot (toInt32 x)).

(** [x << n]: the shift count is taken modulo 32 *)
Definition shl (x n : Z) : Z := toInt32 (Z.shiftl (toInt32 x) (n mod 32)).

(** [x >>> n] *)
Definition shru (x n : Z) : Z := Z.shiftr (toUint32 x) (n mod 32).

End JS.

(** ** JavaScript strings *)

(** The code units of an ASCII literal. *)
Definition codeUnits (s : string) : list Z :=
  map (fun c => Z.of_nat (nat_of_ascii c)) (list_ascii_of_string s).

(** [\s] of a regular expression: WhiteSpace and LineTerminator. *)
Definition isWhiteSpace (c : Z) : bool :=
  ((9 <=? c) && (c <=? 13)) || (c =? 32) || (c =? 160) || (c =? 5760)
  || ((8192 <=? c) && (c <=? 8202)) || (c =? 8232) || (c =? 8233)
  || (c =? 8239) || (c =? 8287) || (c =? 12288) || (c =? 65279).

(** [value.replace(/\s+/g, '')] *)
Definition stripWhiteSpace (value : list Z) : list Z :=
  filter (fun c => negb (isWhiteSpace c)) value.

(** [String.prototype.toLowerCase], unit by unit.  The ASCII capitals move to
    the small letters.  Two code units outside ASCII lower-case into ASCII:
    U+0130 becomes "i" followed by U+0307, and U+212A (KELVIN SIGN) becomes
    "k".  Every other code unit lower-cases to one code unit outside ASCII
    (itself when it has no lower-case form); the model leaves it as it is,
    which is all that [parseHexInput] observes: it counts the units of the
    result and tests them against [0-9a-f]. *)
Definition toLowerCaseUnit (c : Z) : list Z :=
  if (65 <=? c) && (c <=? 90) then [c + 32]
  else if c =? 304 then [105; 775]
  else if c =? 8490 then [107]
  else [c].

Definition toLowerCase (s : list Z) : list Z := flat_map toLowerCaseUnit s.

(** The class [0-9a-f] that the test [/[^0-9a-f]/] looks outside of. *)
Definition isLowerHexDigit (c : Z) : bool :=
  ((48 <=? c) && (c <=? 57)) || ((97 <=? c) && (c <=? 102)).

(** The value of a digit in radix 16, as [parseInt] reads it. *)
Definition hexDigitValue (c : Z) : option Z :=
  if (48 <=? c) && (c <=? 57) then Some (c - 48)
  else if (97 <=? c) && (c <=? 102) then Some (c - 87)
  else if (65 <=? c) && (c <=? 70) then Some (c - 55)
  else None.

(** [parseInt(s, 16)] on a string without sign, prefix or leading white
    space: the value of the longest prefix of digits, NaN ([None]) when that
    prefix is empty. *)
Fixpoint parseDigits16 (acc : Z) (s : list Z) : Z :=
  match s with
  | [] => acc
  | c :: rest =>
      match hexDigitValue c with
      | Some d => parseDigits16 (16 * acc + d) rest
      | None => acc
      end
  end.

Definition parseInt16 (s : list Z) : option Z :=
  match s with
  | [] => None
  | c :: _ =>
      match hexDigitValue c with
      | Some _ => Some (parseDigits16 0 s)
      | None => None
      end
  end.

(** [new TextEncoder().encode(value)]: UTF-8, a surrogate pair encoded as one
    code point, a lone surrogate replaced by U+FFFD (EF BF BD). *)
Definition isHighSurrogate (c : Z) : bool := (55296 <=? c) && (c <=? 56319).
Definition isLowSurrogate (c : Z) : bool := (56320 <=? c) && (c <=? 57343).

Definition utf8CodePoint (cp : Z) : list Z :=
  if cp <? 128 then [cp]
  else if cp <? 2048 then [192 + cp / 64; 128 + cp mod 64]
  else if cp <? 65536 then
    [224 + cp / 4096; 128 + (cp / 64) mod 64; 128 + cp mod 64]
  else
    [240 + cp / 262144; 128 + (cp / 4096) mod 64;
     128 + (cp / 64) mod 64; 128 + cp mod 64].

Fixpoint textEncode (s : list Z) : list Z :=
  match s with
  | [] => []
  | c :: rest =>
      if isHighSurrogate c then
        match rest with
        | lo :: rest' =>
            if isLowSurrogate lo
            then utf8CodePoint (65536 + (c - 55296) * 1024 + (lo - 56320))
                   ++ textEncode rest'
            else utf8CodePoint 65533 ++ textEncode rest
        | [] => utf8CodePoint 65533
        end
      else if isLowSurrogate c then utf8CodePoint 65533 ++ textEncode rest
      else utf8CodePoint c ++ textEncode rest
  end.

(** [n.toString(16)] for a non-negative integer, and [padStart]. *)
Definition hexDigit (d : Z) : ascii :=
  nth (Z.to_nat d) (list_ascii_of_string "0123456789abcdef") "0"%char.

Fixpoint toString16_digits (fuel : nat) (n : Z) (acc : string) : string :=
  match fuel with
  | O => acc
  | S fuel' =>
      let acc' := String (hexDigit (n mod 16)) acc in
      if n <? 16 then acc' else toString16_digits fuel' (n / 16) acc'
  end.

(** [Z.log2 n + 1] binary digits bound the number of hexadecimal ones. *)
Definition toString16 (n : Z) : string :=
  toString16_digits (S (Z.to_nat (Z.log2 n))) n EmptyString.

Fixpoint repeatChar (n : nat) (c : ascii) : string :=
  match n with
  | O => EmptyString
  | S n' => String c (repeatChar n' c)
  end.

Definition padStart (target : nat) (c : ascii) (s : string) : string :=
  (repeatChar (target - String.length s) c ++ s)%string.

(** [parts.join('')] *)
Definition join (parts : list string) : string :=
  fold_right String.append EmptyString parts.

(** ** The module's tables *)

Definition INITIAL_HASH : list Z :=
  [0x67452301; 0xefcdab89; 0x98badcfe; 0x10325476].

Definition SHIFT_AMOUNTS : list Z :=
  [7; 12; 17; 22; 7; 12; 17; 22; 7; 12; 17; 22; 7; 12; 17; 22;
   5; 9; 14; 20; 5; 9; 14; 20; 5; 9; 14; 20; 5; 9; 14; 20;
   4; 11; 16; 23; 4; 11; 16; 23; 4; 11; 16; 23; 4; 11; 16; 23;
   6; 10; 15; 21; 6; 10; 15; 21; 6; 10; 15; 21; 6; 10; 15; 21].

(** [TABLE_K[i] = Math.floor(Math.abs(Math.sin(i + 1)) * 0x100000000) >>> 0].
    The module computes the table in floating point when it is loaded; the
    embedding holds the 64 values that the expression evaluates to (the
    table of RFC 1321). *)
Definition TABLE_K : list Z :=
  [0xd76aa478; 0xe8c7b756; 0x242070db; 0xc1bdceee;
   0xf57c0faf; 0x4787c62a; 0xa8304613; 0xfd469501;
   0x698098d8; 0x8b44f7af; 0xffff5bb1; 0x895cd7be;
   0x6b901122; 0xfd987193; 0xa679438e; 0x49b40821;
   0xf61e2562; 0xc040b340; 0x265e5a51; 0xe9b6c7aa;
   0xd62f105d; 0x02441453; 0xd8a1e681; 0xe7d3fbc8;
   0x21e1cde6; 0xc33707d6; 0xf4d50d87; 0x455a14ed;
   0xa9e3e905; 0xfcefa3f8; 0x676f02d9; 0x8d2a4c8a;
   0xfffa3942; 0x8771f681; 0x6d9d6122; 0xfde5380c;
   0xa4beea44; 0x4bdecfa9; 0xf6bb4b60; 0xbebfbc70;
   0x289b7ec6; 0xeaa127fa; 0xd4ef3085; 0x04881d05;
   0xd9d4d039; 0xe6db99e5; 0x1fa27cf8; 0xc4ac5665;
   0xf4292244; 0x432aff97; 0xab9423a7; 0xfc93a039;
   0x655b59c3; 0x8f0ccc92; 0xffeff47d; 0x85845dd1;
   0x6fa87e4f; 0xfe2ce6e0; 0xa3014314; 0x4e0811a1;
   0xf7537e82; 0xbd3af235; 0x2ad7d2bb; 0xeb86d391].

(** The function names 'F', 'G', 'H', 'I' that key the formula tables. *)
Module Fn.
Inductive t : Type := F | G | H | I.
End Fn.

Definition ROUND_FORMULAS (fn : Fn.t) : string :=
  match fn with
  | Fn.F => "(B & C) | (~B & D)"
  | Fn.G => "(D & B) | (~D & C)"
  | Fn.H => "B ^ C ^ D"
  | Fn.I => "C ^ (B | ~D)"
  end.

Definition INDEX_FORMULAS (fn : Fn.t) : string :=
  match fn with
  | Fn.F => "g = i"
  | Fn.G => "g = (5i + 1) mod 16"
  | Fn.H => "g = (3i + 5) mod 16"
  | Fn.I => "g = (7i) mod 16"
  end.

(** ** Words and bytes *)

Definition leftRotate (value amount : Z) : Z :=
  JS.toUint32 (JS.or (JS.shl value amount) (JS.shru value (32 - amount))).

Definition bytesToWordLittleEndian (bytes : list Z) (offset : nat) : Z :=
  JS.toUint32
    (JS.or (JS.or (JS.or (nth offset bytes 0)
                         (JS.shl (nth (offset + 1) bytes 0) 8))
                  (JS.shl (nth (offset + 2) bytes 0) 16))
           (JS.shl (nth (offset + 3) bytes 0) 24)).

Definition wordToHexLittleEndian (word : Z) : string :=
  let value := JS.toUint32 word in
  join (map (fun byte => padStart 2 "0"%char (toString16 byte))
            [JS.and value 255;
             JS.and (JS.shru value 8) 255;
             JS.and (JS.shru value 16) 255;
             JS.and (JS.shru value 24) 255]).

Definition digestFromState (state : list Z) : string :=
  join (map wordToHexLittleEndian state).

(** ** Reading the input *)

(** The loop [for (index = 0; index < clean.length; index += 2)] of
    [parseHexInput]: each slice of two units goes through [parseInt]. *)
Fixpoint parseHexPairs (clean : list Z) : outcome (list Z) :=
  match clean with
  | [] => Returned []
  | c1 :: c2 :: rest =>
      match parseInt16 [c1; c2] with
      | Some byte => bytes <- parseHexPairs rest ;; Returned (byte :: bytes)
      | None => Stuck
      end
  | [c1] =>
      match parseInt16 [c1] with
      | Some byte => Returned [byte]
      | None => Stuck
      end
  end.

Definition parseHexInput (value : list Z) : outcome (list Z) :=
  let clean := toLowerCase (stripWhiteSpace value) in
  if (List.length clean =? 0)%nat then Returned []
  else if negb (Nat.even (List.length clean))
  then Thrown "Hex input must contain an even number of digits."
  else if existsb (fun c => negb (isLowerHexDigit c)) clean
  then Thrown "Hex input can only contain 0-9 and a-f."
  else parseHexPairs clean.

Definition parseInputBytes (value : list Z) (inputType : string)
  : outcome (list Z) :=
  if String.eqb inputType "hex" then parseHexInput value
  else Returned (textEncode value).

(** ** Padding *)

(** [while (padded.length % 64 !== 56) padded.push(0)].  The loop pushes at
    most 63 zeros; [padBytes] runs it with fuel 64. *)
Fixpoint padZeros (fuel : nat) (padded : list Z) : outcome (list Z) :=
  if Z.of_nat (List.length padded) mod 64 =? 56 then Returned padded
  else match fuel with
       | O => Stuck
       | S fuel' => padZeros fuel' (padded ++ [0])
       end.

(** [Number((bitLength >> (offset * 8n)) & 0xffn)] for [offset] = 0 .. 7 *)
Definition lengthBytes (bitLength : Z) : list Z :=
  map (fun offset => Z.land (Z.shiftr bitLength (offset * 8)) 255)
      [0; 1; 2; 3; 4; 5; 6; 7].

Definition padBytes (bytes : list Z) : outcome (list Z) :=
  let bitLength := Z.of_nat (List.length bytes) * 8 in
  padded <- padZeros 64 (bytes ++ [128]) ;;
  Returned (padded ++ lengthBytes bitLength).

(** ** Chunks *)

Module Chunk.
Record t : Type := mk {
  index : Z;
  bytes : list Z;
  words : list Z
}.
End Chunk.

(** [bytes.slice(start, stop)] *)
Definition slice (bytes : list Z) (start stop : nat) : list Z :=
  firstn (stop - start) (skipn start bytes).

(** One iteration of the loop of [chunkBytes], at [offset = 64 * k]. *)
Definition chunkAt (bytes : list Z) (k : nat) : Chunk.t :=
  let offset := (64 * k)%nat in
  let block := slice bytes offset (offset + 64) in
  Chunk.mk (Z.of_nat offset / 64) block
    (map (fun wordIndex => bytesToWordLittleEndian block (wordIndex * 4))
         (seq 0 16)).

(** [for (offset = 0; offset < bytes.length; offset += 64)]: the loop runs
    for the offsets 0, 64, ... below the length, that is
    ceil(length / 64) times. *)
Definition chunkBytes (bytes : list Z) : list Chunk.t :=
  map (chunkAt bytes) (seq 0 ((List.length bytes + 63) / 64)%nat).

(** ** Events and traces *)

Module Preprocess.
Record t : Type := mk {
  inputType : string;
  inputLengthBytes : Z;
  inputLengthBits : Z;
  paddedLengthBytes : Z;
  paddedLengthBits : Z;
  addedBytes : Z;
  chunkCount : Z;
  digestPreview : string
}.
End Preprocess.

Module ChunkStart.
Record t : Type := mk {
  chunkIndex : Z;
  chunkWords : list Z;
  hashBefore : list Z;
  registersBefore : list Z;
  digestPreview : string
}.
End ChunkStart.

Module Round.
Record t : Type := mk {
  chunkIndex : Z;
  roundIndex : Z;
  stepWithinChunk : Z;
  functionName : Fn.t;
  functionFormula : string;
  indexFormula : string;
  g : Z;
  shift : Z;
  constant : Z;
  messageWord : Z;
  functionResult : Z;
  sum : Z;
  rotated : Z;
  registersBefore : list Z;
  registersAfter : list Z;
  digestPreview : string
}.
End Round.

Module ChunkEnd.
Record t : Type := mk {
  chunkIndex : Z;
  hashBefore : list Z;
  registersBeforeAdd : list Z;
  hashAfter : list Z;
  digestAfterChunk : string;
  digestPreview : string
}.
End ChunkEnd.

Module Done.
Record t : Type := mk {
  hash : list Z;
  digest : string;
  chunkCount : Z;
  digestPreview : string
}.
End Done.

(** The [type] tag of an event is its constructor: 'preprocess',
    'chunk-start', 'round', 'chunk-end', 'done'. *)
Inductive Event : Type :=
| EvPreprocess (e : Preprocess.t)
| EvChunkStart (e : ChunkStart.t)
| EvRound (e : Round.t)
| EvChunkEnd (e : ChunkEnd.t)
| EvDone (e : Done.t).

Module Trace.
Record t : Type := mk {
  inputType : string;
  inputBytes : list Z;
  paddedBytes : list Z;
  chunks : list Chunk.t;
  events : list Event;
  digest : string;
  constants : list Z;
  shifts : list Z;
  initialHash : list Z
}.
End Trace.

(** The working registers [a], [b], [c], [d] of [buildMd5Trace]. *)
Definition Registers : Type := (Z * Z * Z * Z)%type.

(** ** The round engine *)

(** The branch of round [i]: the function's name, [f] and [g]. *)
Definition selectRound (i bBefore cBefore dBefore : Z) : Fn.t * Z * Z :=
  if i <? 16 then
    (Fn.F, JS.or (JS.and bBefore cBefore) (JS.and (JS.not bBefore) dBefore), i)
  else if i <? 32 then
    (Fn.G, JS.or (JS.and dBefore bBefore) (JS.and (JS.not dBefore) cBefore),
     (5 * i + 1) mod 16)
  else if i <? 48 then
    (Fn.H, JS.xor (JS.xor bBefore cBefore) dBefore, (3 * i + 5) mod 16)
  else
    (Fn.I, JS.xor cBefore (JS.or bBefore (JS.not dBefore)), (7 * i) mod 16).

(** The body of the loop [for (i = 0; i < 64; i += 1)]: the event it pushes
    and the registers it leaves.  The reads [TABLE_K[i]], [SHIFT_AMOUNTS[i]]
    and [chunk.words[g]] are in range, since [i < 64] and [g < 16]. *)
Definition roundStep (chunk : Chunk.t) (hashBefore : list Z) (i : Z)
    (regs : Registers) : Round.t * Registers :=
  let '(a, b, c, d) := regs in
  let aBefore := JS.toUint32 a in
  let bBefore := JS.toUint32 b in
  let cBefore := JS.toUint32 c in
  let dBefore := JS.toUint32 d in
  let '(functionName, f, g) := selectRound i bBefore cBefore dBefore in
  let functionResult := JS.toUint32 f in
  let sum :=
    JS.toUint32 (aBefore + functionResult + nth (Z.to_nat i) TABLE_K 0
                 + nth (Z.to_nat g) (Chunk.words chunk) 0) in
  let rotated := leftRotate sum (nth (Z.to_nat i) SHIFT_AMOUNTS 0) in
  let nextB := JS.toUint32 (bBefore + rotated) in
  let a := dBefore in
  let d := cBefore in
  let c := bBefore in
  let b := nextB in
  let previewHash :=
    [JS.toUint32 (nth 0 hashBefore 0 + a);
     JS.toUint32 (nth 1 hashBefore 0 + b);
     JS.toUint32 (nth 2 hashBefore 0 + c);
     JS.toUint32 (nth 3 hashBefore 0 + d)] in
  (Round.mk (Chunk.index chunk) i (i + 1) functionName
     (ROUND_FORMULAS functionName) (INDEX_FORMULAS functionName) g
     (nth (Z.to_nat i) SHIFT_AMOUNTS 0) (nth (Z.to_nat i) TABLE_K 0)
     (nth (Z.to_nat g) (Chunk.words chunk) 0)
     functionResult sum rotated
     [aBefore; bBefore; cBefore; dBefore] [a; b; c; d]
     (digestFromState previewHash),
   (a, b, c, d)).

(** [count] iterations of the round loop, from round [i] on: the 'round'
    events pushed, in order, and the registers at the end. *)
Fixpoint roundLoop (count : nat) (chunk : Chunk.t) (hashBefore : list Z)
    (i : Z) (regs : Registers) : list Round.t * Registers :=
  match count with
  | O => ([], regs)
  | S count' =>
      let '(ev, regs') := roundStep chunk hashBefore i regs in
      let '(evs, final) := roundLoop count' chunk hashBefore (i + 1) regs' in
      (ev :: evs, final)
  end.

(** The body of [for (const chunk of chunks)]: the events it pushes and the
    new value of [hash]. *)
Definition processChunk (hash : list Z) (chunk : Chunk.t)
  : list Event * list Z :=
  let hashBefore := hash in
  let '(a, b, c, d) :=
    (nth 0 hash 0, nth 1 hash 0, nth 2 hash 0, nth 3 hash 0) in
  let start :=
    ChunkStart.mk (Chunk.index chunk) (Chunk.words chunk) hashBefore
      [a; b; c; d] (digestFromState hashBefore) in
  let '(rounds, (a, b, c, d)) := roundLoop 64 chunk hashBefore 0 (a, b, c, d) in
  let hash' :=
    [JS.toUint32 (nth 0 hash 0 + a);
     JS.toUint32 (nth 1 hash 0 + b);
     JS.toUint32 (nth 2 hash 0 + c);
     JS.toUint32 (nth 3 hash 0 + d)] in
  (EvChunkStart start :: map EvRound rounds
     ++ [EvChunkEnd
           (ChunkEnd.mk (Chunk.index chunk) hashBefore
              [JS.toUint32 a; JS.toUint32 b; JS.toUint32 c; JS.toUint32 d]
              hash' (digestFromState hash') (digestFromState hash'))],
   hash').

Fixpoint chunkLoop (chunks : list Chunk.t) (hash : list Z)
  : list Event * list Z :=
  match chunks with
  | [] => ([], hash)
  | chunk :: rest =>
      let '(evs, hash') := processChunk hash chunk in
      let '(evs', final) := chunkLoop rest hash' in
      (evs ++ evs', final)
  end.

Definition buildMd5Trace (inputValue : list Z) (inputType : string)
  : outcome Trace.t :=
  inputBytes <- parseInputBytes inputValue inputType ;;
  paddedBytes <- padBytes inputBytes ;;
  let chunks := chunkBytes paddedBytes in
  let first :=
    Preprocess.mk inputType
      (Z.of_nat (List.length inputBytes))
      (Z.of_nat (List.length inputBytes) * 8)
      (Z.of_nat (List.length paddedBytes))
      (Z.of_nat (List.length paddedBytes) * 8)
      (Z.of_nat (List.length paddedBytes) - Z.of_nat (List.length inputBytes))
      (Z.of_nat (List.length chunks))
      (digestFromState INITIAL_HASH) in
  let '(chunkEvents, hash) := chunkLoop chunks INITIAL_HASH in
  let digest := digestFromState hash in
  let events :=
    EvPreprocess first :: chunkEvents
      ++ [EvDone (Done.mk hash digest (Z.of_nat (List.length chunks)) digest)] in
  Returned
    (Trace.mk inputType inputBytes paddedBytes chunks events digest
       TABLE_K SHIFT_AMOUNTS INITIAL_HASH).

(** A field of the trace of a call that returned. *)
Definition returned {A : Type} (field : Trace.t -> A) (r : outcome Trace.t)
  : option A :=
  match r with
  | Returned t => Some (field t)
  | _ => None
  end.

(** The trace [t] with another recorded input type: the [inputType] of the
    trace and of its 'preprocess' event. *)
Definition eventWithInputType (inputType : string) (ev : Event) : Event :=
  match ev with
  | EvPreprocess p =>
      EvPreprocess
        (Preprocess.mk inputType (Preprocess.inputLengthBytes p)
           (Preprocess.inputLengthBits p) (Preprocess.paddedLengthBytes p)
           (Preprocess.paddedLengthBits p) (Preprocess.addedBytes p)
           (Preprocess.chunkCount p) (Preprocess.digestPreview p))
  | _ => ev
  end.

Definition withInputType (inputType : string) (t : Trace.t) : Trace.t :=
  Trace.mk inputType (Trace.inputBytes t) (Trace.paddedBytes t)
    (Trace.chunks t) (map (eventWithInputType inputType) (Trace.events t))
    (Trace.digest t) (Trace.constants t) (Trace.shifts t) (Trace.initialHash t).

(** ** The specification's formulas

    Second definitions, written after the words of the specification, against
    which the functions of the module are compared. *)

Module Spec.

Definition uint32 (x : Z) : Prop := 0 <= x < 4294967296.

(** unsigned 32-bit operators *)
Definition add32 (x y : Z) : Z := (x + y) mod 2 ^ 32.
Definition not32 (x : Z) : Z := 2 ^ 32 - 1 - x.

(** circular left shift of a 32-bit value *)
Definition leftRotate32 (x s : Z) : Z :=
  Z.lor (Z.shiftl x s mod 2 ^ 32) (Z.shiftr x (32 - s)).

(** 1. the round family, by the range of [i] *)
Definition family (i : Z) : Fn.t :=
  if i <? 16 then Fn.F else if i <? 32 then Fn.G
  else if i <? 48 then Fn.H else Fn.I.

(** 2. the boolean function and the index of the message word *)
Definition f (fn : Fn.t) (b c d : Z) : Z :=
  match fn with
  | Fn.F => Z.lor (Z.land b c) (Z.land (not32 b) d)
  | Fn.G => Z.lor (Z.land d b) (Z.land (not32 d) c)
  | Fn.H => Z.lxor (Z.lxor b c) d
  | Fn.I => Z.lxor c (Z.lor b (not32 d))
  end.

Definition g (fn : Fn.t) (i : Z) : Z :=
  match fn with
  | Fn.F => i
  | Fn.G => (5 * i + 1) mod 16
  | Fn.H => (3 * i + 5) mod 16
  | Fn.I => (7 * i) mod 16
  end.

(** 3. to 5. the sum, the rotation and the new registers *)
Definition sum (K M : list Z) (i : Z) (regs : Registers) : Z :=
  let '(a, b, c, d) := regs in
  let fn := family i in
  (a + f fn b c d + nth (Z.to_nat i) K 0 + nth (Z.to_nat (g fn i)) M 0)
    mod 2 ^ 32.

Definition rotated (K S M : list Z) (i : Z) (regs : Registers) : Z :=
  leftRotate32 (sum K M i regs) (nth (Z.to_nat i) S 0).

Definition round (K S M : list Z) (i : Z) (regs : Registers) : Registers :=
  let '(a, b, c, d) := regs in
  (d, (b + rotated K S M i regs) mod 2 ^ 32, b, c).

(** rounds [i], [i + 1], ... , [count] of them *)
Fixpoint rounds (K S M : list Z) (count : nat) (i : Z) (regs : Registers)
  : Registers :=
  match count with
  | O => regs
  | S count' => rounds K S M count' (i + 1) (round K S M i regs)
  end.

(** the fold: the registers added to the hash state, position by position *)
Definition fold (state : list Z) (regs : Registers) : list Z :=
  let '(a, b, c, d) := regs in
  [(nth 0 state 0 + a) mod 2 ^ 32; (nth 1 state 0 + b) mod 2 ^ 32;
   (nth 2 state 0 + c) mod 2 ^ 32; (nth 3 state 0 + d) mod 2 ^ 32].

Definition registersOf (l : list Z) : Registers :=
  (nth 0 l 0, nth 1 l 0, nth 2 l 0, nth 3 l 0).

(** the hash state after a chunk with words [M] *)
Definition compress (K S M state : list Z) : list Z :=
  fold state (rounds K S M 64 0 (registersOf state)).

(** the digest format: a word as 4 bytes little-endian, a byte as 2
    lower-case hexadecimal digits *)
Definition littleEndian4 (w : Z) : list Z :=
  [w mod 256; (w / 256) mod 256; (w / 65536) mod 256; (w / 16777216) mod 256].

Definition hexByte (byte : Z) : string :=
  String (hexDigit (byte / 16)) (String (hexDigit (byte mod 16)) EmptyString).

Definition formatDigest (state : list Z) : string :=
  join (map (fun w => join (map hexByte (littleEndian4 w))) state).

Definition isLowerHexChar (c : ascii) : bool :=
  existsb (Ascii.eqb c) (list_ascii_of_string "0123456789abcdef").

Definition allLowerHex (s : string) : bool :=
  forallb isLowerHexChar (list_ascii_of_string s).

(** the length framing: a 64-bit value as 8 bytes little-endian *)
Definition littleEndian8 (v : Z) : list Z :=
  map (fun k => (v / 256 ^ k) mod 256) [0; 1; 2; 3; 4; 5; 6; 7].

(** the hex-mode input is rejected: after white space is removed, the
    number of units is odd or a unit is outside [0-9a-fA-F] *)
Definition isHexDigit (c : Z) : bool :=
  ((48 <=? c) && (c <=? 57)) || ((97 <=? c) && (c <=? 102))
  || ((65 <=? c) && (c <=? 70)).

Definition invalidHex (value : list Z) : bool :=
  let digits := stripWhiteSpace value in
  Nat.odd (List.length digits) || existsb (fun c => negb (isHexDigit c)) digits.

End Spec.

(** Registers and hash states hold unsigned 32-bit values. *)
Definition uint32Registers (regs : Registers) : Prop :=
  let '(a, b, c, d) := regs in
  Spec.uint32 a /\ Spec.uint32 b /\ Spec.uint32 c /\ Spec.uint32 d.

(** A hash state: 4 unsigned 32-bit words. *)
Definition hashState (state : list Z) : Prop :=
  List.length state = 4%nat /\ Forall Spec.uint32 state.

(** What the specification says of round [i], started with the registers
    [(a, b, c, d)] on a chunk with the words [M], about a 'round' event. *)
Definition roundFollowsSpec (M : list Z) (i a b c d : Z) (r : Round.t) : Prop :=
  Round.functionName r = Spec.family i
  /\ Round.functionResult r = Spec.f (Spec.family i) b c d
  /\ Round.g r = Spec.g (Spec.family i) i
  /\ Round.constant r = nth (Z.to_nat i) TABLE_K 0
  /\ Round.shift r = nth (Z.to_nat i) SHIFT_AMOUNTS 0
  /\ Round.messageWord r = nth (Z.to_nat (Round.g r)) M 0
  /\ Round.sum r
     = (a + Round.functionResult r + Round.constant r + Round.messageWord r)
         mod 2 ^ 32
  /\ Round.rotated r = Spec.leftRotate32 (Round.sum r) (Round.shift r)
  /\ Round.registersAfter r = [d; (b + Round.rotated r) mod 2 ^ 32; b; c].

(** ** The shape of the event list *)

(** The events of one chunk: its 'chunk-start', its 'round' events and its
    'chunk-end'. *)
Definition Block : Type := (ChunkStart.t * list Round.t * ChunkEnd.t)%type.

Definition blockEvents (block : Block) : list Event :=
  let '(s, rounds, e) := block in
  EvChunkStart s :: map EvRound rounds ++ [EvChunkEnd e].

(** [block] holds the events that the loop body pushes for [chunk]. *)
Definition blockFor (chunk : Chunk.t) (block : Block) : Prop :=
  exists hash, hashState hash /\ fst (processChunk hash chunk) = blockEvents block.

(** ** The other exports of the module *)

Definition toHex32 (value : Z) : string :=
  padStart 8 "0"%char (toString16 (JS.toUint32 value)).

Definition formatWord (value : Z) : string := ("0x" ++ toHex32 value)%string.

(** ** The helpers of the page (App.jsx)

    The page holds integers in its numbers (steps, indices, lengths), so
    [Math.min] and [Math.max] are [Z.min] and [Z.max].  A value that may be
    [null] or [undefined] is an [option]. *)

Definition clamp (value min max : Z) : Z := Z.min max (Z.max min value).

(** [parts.join(sep)] *)
Fixpoint joinWith (sep : string) (parts : list string) : string :=
  match parts with
  | [] => EmptyString
  | [part] => part
  | part :: rest => (part ++ sep ++ joinWith sep rest)%string
  end.

(** [formatBytes(bytes, maxBytes)], called on arrays only. *)
Definition formatBytes (bytes : list Z) (maxBytes : nat) : string :=
  if (List.length bytes =? 0)%nat then "(empty)"%string
  else
    let view :=
      map (fun value => padStart 2 "0"%char (toString16 value))
          (firstn maxBytes bytes) in
    let suffix :=
      if (maxBytes <? List.length bytes)%nat then " ..."%string
      else EmptyString in
    (joinWith " " view ++ suffix)%string.

(** The properties of an event object that the page reads; an event type
    without the property gives [undefined]. *)
Definition eventDigestPreview (ev : Event) : option string :=
  match ev with
  | EvPreprocess e => Some (Preprocess.digestPreview e)
  | EvChunkStart e => Some (ChunkStart.digestPreview e)
  | EvRound e => Some (Round.digestPreview e)
  | EvChunkEnd e => Some (ChunkEnd.digestPreview e)
  | EvDone e => Some (Done.digestPreview e)
  end.

Definition eventDigestAfterChunk (ev : Event) : option string :=
  match ev with
  | EvChunkEnd e => Some (ChunkEnd.digestAfterChunk e)
  | _ => None
  end.

Definition eventDigest (ev : Event) : option string :=
  match ev with
  | EvDone e => Some (Done.digest e)
  | _ => None
  end.

Definition eventChunkIndex (ev : Event) : option Z :=
  match ev with
  | EvChunkStart e => Some (ChunkStart.chunkIndex e)
  | EvRound e => Some (Round.chunkIndex e)
  | EvChunkEnd e => Some (ChunkEnd.chunkIndex e)
  | _ => None
  end.

(** [x ?? y] *)
Definition orElse {A : Type} (x : option A) (y : A) : A :=
  match x with
  | Some v => v
  | None => y
  end.

Definition getCurrentDigest (event : option Event) (trace : option Trace.t)
  : string :=
  match trace with
  | None => EmptyString
  | Some t =>
      match event with
      | None => Trace.digest t
      | Some ev =>
          orElse (eventDigestPreview ev)
            (orElse (eventDigestAfterChunk ev)
               (orElse (eventDigest ev) (Trace.digest t)))
      end
  end.

Definition resolveChunkIndex (event : option Event) (trace : option Trace.t)
  : Z :=
  match trace with
  | None => 0
  | Some t =>
      let count := Z.of_nat (List.length (Trace.chunks t)) in
      if count =? 0 then 0
      else
        match event with
        | None => 0
        | Some ev =>
            match eventChunkIndex ev with
            | Some chunkIndex => clamp chunkIndex 0 (count - 1)
            | None =>
                match ev with
                | EvDone _ => count - 1
                | _ => 0
                end
            end
        end
  end.

(** The values that [App] derives from its state [step] and from the trace:
    [maxStep], [currentStep] and [event]. *)
Definition maxStep (trace : option Trace.t) : Z :=
  match trace with
  | Some t => Z.of_nat (List.length (Trace.events t)) - 1
  | None => 0
  end.

Definition currentStep (step : Z) (trace : option Trace.t) : Z :=
  clamp step 0 (maxStep trace).

(** [array[i]] for an integer [i]: [undefined] out of range. *)
Definition at_index {A : Type} (l : list A) (i : Z) : option A :=
  if i <? 0 then None else nth_error l (Z.to_nat i).

Definition currentEvent (step : Z) (trace : option Trace.t) : option Event :=
  match trace with
  | Some t => at_index (Trace.events t) (currentStep step trace)
  | None => None
  end.

(** The rows of [roundWindow]: the rounds from two before to two after the
    current one, cut to 0 .. 63. *)
Module WindowRow.
Record t : Type := mk {
  index : Z;
  shift : option Z;
  constant : option Z
}.
End WindowRow.

Definition roundWindow (event : option Event) (trace : option Trace.t)
  : list WindowRow.t :=
  match event, trace with
  | Some (EvRound r), Some t =>
      let start := Z.max 0 (Round.roundIndex r - 2) in
      let stop := Z.min 63 (Round.roundIndex r + 2) in
      map (fun k =>
             let i := start + Z.of_nat k in
             WindowRow.mk i (at_index (Trace.shifts t) i)
               (at_index (Trace.constants t) i))
          (seq 0 (Z.to_nat (stop - start + 1)))
  | _, _ => []
  end.

(** The updater of the autoplay timer: [(current) => Math.min(current + 1,
    maxStep)]. *)
Definition nextStep (trace : option Trace.t) (current : Z) : Z :=
  Z.min (current + 1) (maxStep trace).

(** ** Reference definitions for the added properties *)

Module Ref.

(** [k] hexadecimal digits of [n], most significant first, before [acc]. *)
Fixpoint hexDigits (k : nat) (n : Z) (acc : string) : string :=
  match k with
  | O => acc
  | S k' => hexDigits k' (n / 16) (String (hexDigit (n mod 16)) acc)
  end.

(** MD5 of the chunks, by the specification's compression function. *)
Definition md5Step (state : list Z) (chunk : Chunk.t) : list Z :=
  Spec.compress TABLE_K SHIFT_AMOUNTS (Chunk.words chunk) state.

Definition md5State (chunks : list Chunk.t) : list Z :=
  fold_left md5Step chunks INITIAL_HASH.

(** An 8-bit value, and a UTF-16 code unit. *)
Definition byte (b : Z) : Prop := 0 <= b < 256.
Definition codeUnit (c : Z) : Prop := 0 <= c < 65536.

(** The registers as the array [[a, b, c, d]]. *)
Definition registersList (regs : Registers) : list Z :=
  let '(a, b, c, d) := regs in [a; b; c; d].

(** [blocks] are the events of [chunks], each chunk processed from the hash
    state that the one before it left, the first from [hash]. *)
Inductive chained : list Z -> list Chunk.t -> list Block -> Prop :=
| chained_nil (hash : list Z) : chained hash [] []
| chained_cons (hash hash' : list Z) (chunk : Chunk.t) (chunks : list Chunk.t)
    (block : Block) (blocks : list Block) :
    processChunk hash chunk = (blockEvents block, hash') ->
    chained hash' chunks blocks ->
    chained hash (chunk :: chunks) (block :: blocks).

End Ref.

(** * Properties *)

(** ** The 32-bit operators compute on the low 32 bits *)

Section Bits32.

Lemma two32_pow : JS.two32 = 2 ^ 32.
Proof. reflexivity. Qed.

Lemma toUint32_range x : Spec.uint32 (JS.toUint32 x).
Proof.
  unfold Spec.uint32, JS.toUint32, JS.two32.
  pose proof (Z.mod_pos_bound x 4294967296). lia.
Qed.

Lemma toUint32_small x : Spec.uint32 x -> JS.toUint32 x = x.
Proof. unfold Spec.uint32, JS.toUint32, JS.two32. intros. apply Z.mod_small. lia. Qed.

Lemma testbit_toUint32 x i :
  0 <= i < 32 -> Z.testbit (JS.toUint32 x) i = Z.testbit x i.
Proof.
  intros Hi. unfold JS.toUint32. rewrite two32_pow.
  apply Z.mod_pow2_bits_low. lia.
Qed.

Lemma toUint32_high x i : 32 <= i -> Z.testbit (JS.toUint32 x) i = false.
Proof.
  intros Hi. unfold JS.toUint32. rewrite two32_pow.
  apply Z.mod_pow2_bits_high. lia.
Qed.

Lemma toUint32_toInt32 x : JS.toUint32 (JS.toInt32 x) = JS.toUint32 x.
Proof.
  unfold JS.toInt32, JS.toUint32.
  destruct (x mod JS.two32 <? 2147483648).
  - apply Z.mod_mod. discriminate.
  - replace (x mod JS.two32 - JS.two32) with (x mod JS.two32 + (-1) * JS.two32) by ring.
    rewrite Z.mod_add by discriminate. apply Z.mod_mod. discriminate.
Qed.

Lemma testbit_toInt32 x i :
  0 <= i < 32 -> Z.testbit (JS.toInt32 x) i = Z.testbit x i.
Proof.
  intros Hi. rewrite <- (testbit_toUint32 (JS.toInt32 x)) by assumption.
  rewrite toUint32_toInt32. apply testbit_toUint32. assumption.
Qed.

(** A 32-bit value is determined by its low 32 bits. *)
Lemma toUint32_bits x y :
  Spec.uint32 y ->
  (forall i, 0 <= i < 32 -> Z.testbit x i = Z.testbit y i) ->
  JS.toUint32 x = y.
Proof.
  intros Hy Hbits. rewrite <- (toUint32_small y) by assumption.
  apply Z.bits_inj'. intros i Hi.
  destruct (Z_lt_ge_dec i 32).
  - rewrite !testbit_toUint32 by lia. apply Hbits. lia.
  - rewrite !toUint32_high by lia. reflexivity.
Qed.

Lemma uint32_high x i : Spec.uint32 x -> 32 <= i -> Z.testbit x i = false.
Proof.
  intros Hx Hi. rewrite <- (toUint32_small x) by assumption.
  apply toUint32_high. assumption.
Qed.

Lemma uint32_of_bits x :
  0 <= x -> (forall i, 32 <= i -> Z.testbit x i = false) -> Spec.uint32 x.
Proof.
  intros Hx Hbits. unfold Spec.uint32. split; [assumption|].
  destruct (Z_lt_ge_dec x 4294967296) as [|Hge]; [assumption|exfalso].
  assert (Hlog : 32 <= Z.log2 x) by (apply (Z.log2_le_mono 4294967296 x); lia).
  pose proof (Z.bit_log2 x ltac:(lia)) as Hb.
  rewrite Hbits in Hb by assumption. discriminate.
Qed.

Lemma testbit_not32 x i :
  0 <= i < 32 -> Z.testbit (Spec.not32 x) i = negb (Z.testbit x i).
Proof.
  intros Hi. unfold Spec.not32.
  replace (2 ^ 32 - 1 - x) with (Z.lnot x + 1 * 2 ^ 32)
    by (unfold Z.lnot; lia).
  rewrite <- (Z.mod_pow2_bits_low _ 32) by lia.
  rewrite Z.mod_add by discriminate.
  rewrite Z.mod_pow2_bits_low by lia.
  apply Z.lnot_spec. lia.
Qed.

Lemma not32_range x : Spec.uint32 x -> Spec.uint32 (Spec.not32 x).
Proof. unfold Spec.uint32, Spec.not32. lia. Qed.

Lemma land_range x y : Spec.uint32 x -> Spec.uint32 y -> Spec.uint32 (Z.land x y).
Proof.
  intros Hx Hy. apply uint32_of_bits.
  - apply Z.land_nonneg. left. apply Hx.
  - intros i Hi. rewrite Z.land_spec, (uint32_high x) by assumption. reflexivity.
Qed.

Lemma lor_range x y : Spec.uint32 x -> Spec.uint32 y -> Spec.uint32 (Z.lor x y).
Proof.
  intros Hx Hy. apply uint32_of_bits.
  - apply Z.lor_nonneg. split; [apply Hx|apply Hy].
  - intros i Hi.
    rewrite Z.lor_spec, (uint32_high x), (uint32_high y) by assumption.
    reflexivity.
Qed.

Lemma lxor_range x y : Spec.uint32 x -> Spec.uint32 y -> Spec.uint32 (Z.lxor x y).
Proof.
  intros Hx Hy. apply uint32_of_bits.
  - apply Z.lxor_nonneg. split; intros _; [apply Hy|apply Hx].
  - intros i Hi.
    rewrite Z.lxor_spec, (uint32_high x), (uint32_high y) by assumption.
    reflexivity.
Qed.

End Bits32.

(** Rewrites the bits of the JavaScript operators into Boolean operations on
    the bits of their operands; [i] is a bit position below 32. *)
Ltac js_bits :=
  unfold JS.or, JS.and, JS.xor, JS.not;
  repeat (first
    [ rewrite testbit_toInt32 by lia
    | rewrite testbit_toUint32 by lia
    | rewrite testbit_not32 by lia
    | rewrite Z.lor_spec | rewrite Z.land_spec | rewrite Z.lxor_spec
    | rewrite Z.lnot_spec by lia ]).

Section RoundFunctions.

Variables b c d : Z.
Hypothesis Hb : Spec.uint32 b.
Hypothesis Hc : Spec.uint32 c.
Hypothesis Hd : Spec.uint32 d.

Lemma js_F :
  JS.toUint32 (JS.or (JS.and b c) (JS.and (JS.not b) d)) = Spec.f Fn.F b c d.
Proof.
  apply toUint32_bits.
  - apply lor_range; apply land_range; auto using not32_range.
  - intros i Hi. simpl. js_bits. reflexivity.
Qed.

Lemma js_G :
  JS.toUint32 (JS.or (JS.and d b) (JS.and (JS.not d) c)) = Spec.f Fn.G b c d.
Proof.
  apply toUint32_bits.
  - apply lor_range; apply land_range; auto using not32_range.
  - intros i Hi. simpl. js_bits. reflexivity.
Qed.

Lemma js_H : JS.toUint32 (JS.xor (JS.xor b c) d) = Spec.f Fn.H b c d.
Proof.
  apply toUint32_bits.
  - apply lxor_range; [apply lxor_range|]; assumption.
  - intros i Hi. simpl. js_bits. reflexivity.
Qed.

Lemma js_I : JS.toUint32 (JS.xor c (JS.or b (JS.not d))) = Spec.f Fn.I b c d.
Proof.
  apply toUint32_bits.
  - apply lxor_range; [|apply lor_range]; auto using not32_range.
  - intros i Hi. simpl. js_bits. reflexivity.
Qed.

End RoundFunctions.

(** ** Rotation *)

Lemma shiftr_range x n : Spec.uint32 x -> 0 <= n -> Spec.uint32 (Z.shiftr x n).
Proof.
  intros Hx Hn. unfold Spec.uint32 in *. rewrite Z.shiftr_div_pow2 by assumption.
  assert (0 < 2 ^ n) by (apply Z.pow_pos_nonneg; lia).
  split.
  - apply Z.div_pos; lia.
  - apply Z.le_lt_trans with x; [|lia].
    apply Z.div_le_upper_bound; nia.
Qed.

Lemma leftRotate_spec value amount :
  Spec.uint32 value -> 0 < amount < 32 ->
  leftRotate value amount = Spec.leftRotate32 value amount.
Proof.
  intros Hv Hs. unfold leftRotate, Spec.leftRotate32.
  assert (Hm1 : amount mod 32 = amount) by (apply Z.mod_small; lia).
  assert (Hm2 : (32 - amount) mod 32 = 32 - amount) by (apply Z.mod_small; lia).
  apply toUint32_bits.
  - apply lor_range.
    + change (2 ^ 32) with JS.two32. apply (toUint32_range (Z.shiftl value amount)).
    + apply shiftr_range; [assumption|lia].
  - intros i Hi. unfold JS.shl, JS.shru. rewrite Hm1, Hm2.
    js_bits. rewrite (toUint32_small value) by assumption.
    rewrite Z.mod_pow2_bits_low by lia.
    rewrite !Z.shiftl_spec by lia.
    f_equal.
    destruct (Z_lt_ge_dec i amount).
    + rewrite !Z.testbit_neg_r by lia. reflexivity.
    + apply testbit_toInt32. lia.
Qed.

(** ** The tables *)

Lemma nth_forallb (P : Z -> bool) (l : list Z) (n : nat) :
  forallb P l = true -> (n < List.length l)%nat -> P (nth n l 0) = true.
Proof.
  intros Hall Hn. rewrite forallb_forall in Hall. apply Hall, nth_In, Hn.
Qed.

Lemma SHIFT_AMOUNTS_range i :
  0 <= i < 64 -> 0 < nth (Z.to_nat i) SHIFT_AMOUNTS 0 < 32.
Proof.
  intros Hi.
  assert (Hall : forallb (fun s => (0 <? s) && (s <? 32)) SHIFT_AMOUNTS = true)
    by reflexivity.
  apply (nth_forallb _ _ (Z.to_nat i)) in Hall; [|simpl; lia].
  apply andb_prop in Hall. destruct Hall as [H1 H2].
  apply Z.ltb_lt in H1, H2. lia.
Qed.

(** ** One round, against the specification's formulas *)

Lemma selectRound_spec i b c d :
  Spec.uint32 b -> Spec.uint32 c -> Spec.uint32 d ->
  let '(fn, f, g) := selectRound i b c d in
  fn = Spec.family i /\ JS.toUint32 f = Spec.f fn b c d /\ g = Spec.g fn i.
Proof.
  intros Hb Hc Hd. unfold selectRound, Spec.family.
  destruct (i <? 16); [|destruct (i <? 32); [|destruct (i <? 48)]];
    (split; [reflexivity|split; [|reflexivity]]);
    auto using js_F, js_G, js_H, js_I.
Qed.

(** A round works on the registers taken as unsigned 32-bit values
    ([a >>> 0] and so on) and records what the specification says. *)
Lemma roundStep_formulas chunk hashBefore i regs :
  0 <= i < 64 ->
  let r := fst (roundStep chunk hashBefore i regs) in
  exists a b c d,
    Round.registersBefore r = [a; b; c; d]
    /\ (let '(a0, b0, c0, d0) := regs in
        a = JS.toUint32 a0 /\ b = JS.toUint32 b0
        /\ c = JS.toUint32 c0 /\ d = JS.toUint32 d0)
    /\ roundFollowsSpec (Chunk.words chunk) i a b c d r
    /\ snd (roundStep chunk hashBefore i regs)
       = (d, (b + Round.rotated r) mod 2 ^ 32, b, c).
Proof.
  intros Hi. destruct regs as [[[a0 b0] c0] d0].
  unfold roundStep, roundFollowsSpec.
  pose proof (selectRound_spec i (JS.toUint32 b0) (JS.toUint32 c0)
                (JS.toUint32 d0) (toUint32_range b0) (toUint32_range c0)
                (toUint32_range d0)) as Hsel.
  destruct (selectRound i (JS.toUint32 b0) (JS.toUint32 c0) (JS.toUint32 d0))
    as [[fn f] g].
  destruct Hsel as (Hfn & Hf & Hg). subst fn g. rewrite Hf.
  cbn [fst snd Round.functionName Round.functionResult Round.g Round.sum
       Round.rotated Round.constant Round.shift Round.messageWord
       Round.registersAfter Round.registersBefore].
  change (2 ^ 32) with JS.two32.
  fold (JS.toUint32
          (JS.toUint32 a0
           + Spec.f (Spec.family i) (JS.toUint32 b0) (JS.toUint32 c0)
               (JS.toUint32 d0)
           + nth (Z.to_nat i) TABLE_K 0
           + nth (Z.to_nat (Spec.g (Spec.family i) i)) (Chunk.words chunk) 0)).
  rewrite leftRotate_spec
    by (auto using toUint32_range, SHIFT_AMOUNTS_range).
  exists (JS.toUint32 a0), (JS.toUint32 b0), (JS.toUint32 c0), (JS.toUint32 d0).
  split; [reflexivity|]. split; [repeat split; reflexivity|].
  split; [|reflexivity].
  do 8 (split; [reflexivity|]). reflexivity.
Qed.

(** ** The 64 rounds and the fold *)

Lemma mod32_range x : Spec.uint32 (x mod 2 ^ 32).
Proof. exact (toUint32_range x). Qed.

Lemma round_range K S M i regs :
  uint32Registers regs -> uint32Registers (Spec.round K S M i regs).
Proof.
  destruct regs as [[[a b] c] d]. intros (Ha & Hb & Hc & Hd).
  unfold Spec.round, uint32Registers. auto using mod32_range.
Qed.

Lemma rounds_range K S M count : forall i regs,
  uint32Registers regs -> uint32Registers (Spec.rounds K S M count i regs).
Proof.
  induction count as [|count IH]; intros i regs Hregs; simpl.
  - assumption.
  - apply IH, round_range, Hregs.
Qed.

Lemma roundStep_round chunk hashBefore i regs :
  uint32Registers regs -> 0 <= i < 64 ->
  snd (roundStep chunk hashBefore i regs)
  = Spec.round TABLE_K SHIFT_AMOUNTS (Chunk.words chunk) i regs.
Proof.
  intros Hregs Hi.
  destruct (roundStep_formulas chunk hashBefore i regs Hi)
    as (a & b & c & d & _ & Hnorm & Hspec & Hnext).
  destruct regs as [[[a0 b0] c0] d0]. destruct Hregs as (Ha & Hb & Hc & Hd).
  rewrite !toUint32_small in Hnorm by assumption.
  destruct Hnorm as (-> & -> & -> & ->).
  destruct Hspec as (_ & Hf & Hg & Hk & Hs & Hm & Hsum & Hrot & _).
  rewrite Hnext, Hrot, Hsum, Hm, Hg, Hf, Hk, Hs. reflexivity.
Qed.

Lemma roundLoop_rounds chunk hashBefore count : forall i regs,
  uint32Registers regs -> 0 <= i -> i + Z.of_nat count <= 64 ->
  snd (roundLoop count chunk hashBefore i regs)
  = Spec.rounds TABLE_K SHIFT_AMOUNTS (Chunk.words chunk) count i regs.
Proof.
  induction count as [|count IH]; intros i regs Hregs Hi Hbound.
  - reflexivity.
  - cbn [roundLoop Spec.rounds].
    pose proof (roundStep_round chunk hashBefore i regs Hregs ltac:(lia)) as Hstep.
    destruct (roundStep chunk hashBefore i regs) as [ev regs'].
    cbn [snd] in Hstep. subst regs'.
    specialize (IH (i + 1)
      (Spec.round TABLE_K SHIFT_AMOUNTS (Chunk.words chunk) i regs)
      (round_range _ _ _ _ _ Hregs) ltac:(lia) ltac:(lia)).
    destruct (roundLoop count chunk hashBefore (i + 1) _) as [evs final].
    exact IH.
Qed.

Lemma hashState_registers state :
  hashState state -> uint32Registers (Spec.registersOf state).
Proof.
  intros [Hlen Hall].
  destruct state as [|h0 [|h1 [|h2 [|h3 [|]]]]]; try discriminate.
  repeat match goal with
         | H : Forall _ (_ :: _) |- _ => inversion_clear H
         end.
  cbv [Spec.registersOf uint32Registers nth]. auto.
Qed.

Lemma fold_hashState state regs : hashState (Spec.fold state regs).
Proof.
  destruct regs as [[[a b] c] d]. split; [reflexivity|].
  unfold Spec.fold. repeat constructor; apply mod32_range.
Qed.

Lemma INITIAL_HASH_hashState : hashState INITIAL_HASH.
Proof.
  split; [reflexivity|]. repeat constructor; cbv; intuition discriminate.
Qed.

Lemma processChunk_compress hash chunk :
  hashState hash ->
  snd (processChunk hash chunk)
  = Spec.compress TABLE_K SHIFT_AMOUNTS (Chunk.words chunk) hash.
Proof.
  intros Hhash. unfold processChunk, Spec.compress.
  pose proof (roundLoop_rounds chunk hash 64 0 (Spec.registersOf hash)
                (hashState_registers hash Hhash) ltac:(lia) ltac:(lia)) as Hloop.
  unfold Spec.registersOf in *.
  destruct (roundLoop 64 chunk hash 0 _) as [rounds [[[a b] c] d]].
  cbn [snd] in *. rewrite <- Hloop. reflexivity.
Qed.

(** ** Padding *)

Lemma padZeros_returns fuel : forall padded,
  (56 - Z.of_nat (List.length padded)) mod 64 <= Z.of_nat fuel ->
  padZeros fuel padded
  = Returned
      (padded ++ repeat 0 (Z.to_nat ((56 - Z.of_nat (List.length padded)) mod 64))).
Proof.
  induction fuel as [|fuel IH]; intros padded Hfuel.
  - unfold padZeros.
    destruct (Z.eqb_spec (Z.of_nat (List.length padded) mod 64) 56) as [Heq|Hne].
    + replace ((56 - Z.of_nat (List.length padded)) mod 64) with 0
        by (revert Heq; Z.div_mod_to_equations; lia).
      simpl. rewrite app_nil_r. reflexivity.
    + exfalso. revert Hfuel Hne. Z.div_mod_to_equations. lia.
  - cbn [padZeros].
    destruct (Z.eqb_spec (Z.of_nat (List.length padded) mod 64) 56) as [Heq|Hne].
    + replace ((56 - Z.of_nat (List.length padded)) mod 64) with 0
        by (revert Heq; Z.div_mod_to_equations; lia).
      simpl. rewrite app_nil_r. reflexivity.
    + assert (Hlen : Z.of_nat (List.length (padded ++ [0]))
                     = Z.of_nat (List.length padded) + 1)
        by (rewrite length_app; simpl; lia).
      assert (Hstep : (56 - Z.of_nat (List.length padded)) mod 64
                      = (56 - Z.of_nat (List.length (padded ++ [0]))) mod 64 + 1)
        by (rewrite Hlen; revert Hne; Z.div_mod_to_equations; lia).
      rewrite IH by lia. rewrite Hstep.
      assert (Hnn : 0 <= (56 - Z.of_nat (List.length (padded ++ [0]))) mod 64)
        by (apply Z.mod_pos_bound; lia).
      rewrite Z2Nat.inj_add by lia. rewrite Nat.add_comm.
      cbn [Z.to_nat Pos.to_nat Pos.iter_op Nat.add repeat].
      rewrite <- app_assoc. reflexivity.
Qed.

Lemma lengthBytes_littleEndian8 bitLength :
  0 <= bitLength ->
  lengthBytes bitLength = Spec.littleEndian8 (bitLength mod 2 ^ 64).
Proof.
  intros Hnn. unfold lengthBytes, Spec.littleEndian8.
  apply map_ext_in. intros k Hk.
  assert (Hrange : 0 <= k <= 7) by (simpl in Hk; lia).
  change 255 with (Z.ones 8). rewrite Z.land_ones by lia.
  rewrite Z.shiftr_div_pow2 by lia.
  replace (256 ^ k) with (2 ^ (k * 8))
    by (rewrite Z.mul_comm, Z.pow_mul_r by lia; reflexivity).
  rewrite <- !Z.shiftr_div_pow2 by lia.
  change 256 with (2 ^ 8).
  apply Z.bits_inj'. intros i Hi.
  destruct (Z_lt_ge_dec i 8).
  - rewrite !Z.mod_pow2_bits_low, !Z.shiftr_spec by lia.
    rewrite Z.mod_pow2_bits_low by lia. reflexivity.
  - rewrite !Z.mod_pow2_bits_high by lia. reflexivity.
Qed.

Lemma padBytes_returns bytes :
  padBytes bytes
  = Returned
      (bytes ++ [128]
         ++ repeat 0 (Z.to_nat ((55 - Z.of_nat (List.length bytes)) mod 64))
         ++ Spec.littleEndian8 ((8 * Z.of_nat (List.length bytes)) mod 2 ^ 64)).
Proof.
  unfold padBytes.
  assert (Hlen : Z.of_nat (List.length (bytes ++ [128]))
                 = Z.of_nat (List.length bytes) + 1)
    by (rewrite length_app; simpl; lia).
  rewrite padZeros_returns.
  - cbn [bind]. rewrite Hlen.
    replace (56 - (Z.of_nat (List.length bytes) + 1))
      with (55 - Z.of_nat (List.length bytes)) by lia.
    rewrite lengthBytes_littleEndian8 by lia.
    rewrite (Z.mul_comm 8). rewrite <- !app_assoc. reflexivity.
  - pose proof (Z.mod_pos_bound (56 - Z.of_nat (List.length (bytes ++ [128]))) 64).
    change (Z.of_nat 64) with 64. lia.
Qed.

(** ** The digest format *)

Lemma padStart_toString16_all :
  forallb (fun byte =>
             String.eqb (padStart 2 "0"%char (toString16 byte)) (Spec.hexByte byte))
          (map Z.of_nat (seq 0 256)) = true.
Proof. vm_compute. reflexivity. Qed.

Lemma padStart_toString16 byte :
  0 <= byte < 256 ->
  padStart 2 "0"%char (toString16 byte) = Spec.hexByte byte.
Proof.
  intros Hbyte. apply String.eqb_eq.
  pose proof padStart_toString16_all as Hall. rewrite forallb_forall in Hall.
  apply Hall. rewrite <- (Z2Nat.id byte) by lia.
  apply in_map, in_seq. lia.
Qed.

Lemma toInt32_small x : 0 <= x < 2147483648 -> JS.toInt32 x = x.
Proof.
  intros Hx. unfold JS.toInt32, JS.two32.
  rewrite Z.mod_small by lia.
  destruct (Z.ltb_spec x 2147483648); lia.
Qed.

Lemma js_and_255 x : JS.and x 255 = x mod 256.
Proof.
  unfold JS.and. rewrite (toInt32_small 255) by lia.
  change 255 with (Z.ones 8). rewrite Z.land_ones by lia.
  change (2 ^ 8) with 256.
  rewrite toInt32_small by (pose proof (Z.mod_pos_bound (JS.toInt32 x) 256); lia).
  change 256 with (2 ^ 8).
  apply Z.bits_inj'. intros i Hi.
  destruct (Z_lt_ge_dec i 8).
  - rewrite !Z.mod_pow2_bits_low by lia. apply testbit_toInt32. lia.
  - rewrite !Z.mod_pow2_bits_high by lia. reflexivity.
Qed.

Lemma byte_of_uint32 word n :
  0 <= n <= 24 ->
  Z.shiftr (JS.toUint32 word) n mod 2 ^ 8 = (word / 2 ^ n) mod 2 ^ 8.
Proof.
  intros Hn. rewrite <- (Z.shiftr_div_pow2 word) by lia.
  apply Z.bits_inj'. intros i Hi.
  destruct (Z_lt_ge_dec i 8).
  - rewrite !Z.mod_pow2_bits_low, !Z.shiftr_spec by lia.
    apply testbit_toUint32. lia.
  - rewrite !Z.mod_pow2_bits_high by lia. reflexivity.
Qed.

Lemma wordToHexLittleEndian_format word :
  wordToHexLittleEndian word = join (map Spec.hexByte (Spec.littleEndian4 word)).
Proof.
  unfold wordToHexLittleEndian, Spec.littleEndian4.
  rewrite !js_and_255. unfold JS.shru.
  rewrite (toUint32_small (JS.toUint32 word)) by apply toUint32_range.
  change (8 mod 32) with 8. change (16 mod 32) with 16. change (24 mod 32) with 24.
  pose proof (byte_of_uint32 word 0 ltac:(lia)) as H0.
  pose proof (byte_of_uint32 word 8 ltac:(lia)) as H1.
  pose proof (byte_of_uint32 word 16 ltac:(lia)) as H2.
  pose proof (byte_of_uint32 word 24 ltac:(lia)) as H3.
  rewrite Z.shiftr_0_r in H0. change (2 ^ 0) with 1 in H0. rewrite Z.div_1_r in H0.
  change (2 ^ 8) with 256 in *. change (2 ^ 16) with 65536 in *.
  change (2 ^ 24) with 16777216 in *.
  rewrite H0, H1, H2, H3.
  cbn [map]. rewrite !padStart_toString16 by (apply Z.mod_pos_bound; lia).
  reflexivity.
Qed.

Lemma digestFromState_format state :
  digestFromState state = Spec.formatDigest state.
Proof.
  unfold digestFromState, Spec.formatDigest. f_equal.
  apply map_ext. intros word. apply wordToHexLittleEndian_format.
Qed.

Lemma hexDigit_lower d : Spec.isLowerHexChar (hexDigit d) = true.
Proof.
  unfold hexDigit.
  generalize (Z.to_nat d). intros n.
  do 16 (destruct n as [|n]; [reflexivity|]).
  destruct n; reflexivity.
Qed.

(** ** The round loop, round by round *)

Lemma roundLoop_S chunk hashBefore count i regs :
  roundLoop (S count) chunk hashBefore i regs
  = (fst (roundStep chunk hashBefore i regs)
       :: fst (roundLoop count chunk hashBefore (i + 1)
                 (snd (roundStep chunk hashBefore i regs))),
     snd (roundLoop count chunk hashBefore (i + 1)
            (snd (roundStep chunk hashBefore i regs)))).
Proof.
  cbn [roundLoop].
  destruct (roundStep chunk hashBefore i regs) as [ev regs'].
  cbn [fst snd].
  destruct (roundLoop count chunk hashBefore (i + 1) regs') as [evs final].
  reflexivity.
Qed.

Lemma roundLoop_length chunk hashBefore count : forall i regs,
  List.length (fst (roundLoop count chunk hashBefore i regs)) = count.
Proof.
  induction count as [|count IH]; intros i regs.
  - reflexivity.
  - rewrite roundLoop_S. cbn [fst List.length]. rewrite IH. reflexivity.
Qed.

(** The registers after [j + 1] rounds are those that round [i + j] leaves. *)
Lemma roundLoop_succ chunk hashBefore j : forall i regs,
  snd (roundLoop (S j) chunk hashBefore i regs)
  = snd (roundStep chunk hashBefore (i + Z.of_nat j)
           (snd (roundLoop j chunk hashBefore i regs))).
Proof.
  induction j as [|j IH]; intros i regs.
  - rewrite roundLoop_S. cbn [roundLoop snd Z.of_nat]. rewrite Z.add_0_r.
    reflexivity.
  - rewrite (roundLoop_S _ _ (S j)). cbn [snd]. rewrite IH.
    rewrite (roundLoop_S _ _ j). cbn [snd].
    replace (i + 1 + Z.of_nat j) with (i + Z.of_nat (S j)) by lia.
    reflexivity.
Qed.

(** The [j]-th event of the loop is the one round [i + j] pushes, from the
    registers that the [j] rounds before it left. *)
Lemma roundLoop_nth chunk hashBefore count : forall i regs j r,
  nth_error (fst (roundLoop count chunk hashBefore i regs)) j = Some r ->
  r = fst (roundStep chunk hashBefore (i + Z.of_nat j)
             (snd (roundLoop j chunk hashBefore i regs))).
Proof.
  induction count as [|count IH]; intros i regs j r Hnth.
  - destruct j; discriminate.
  - rewrite roundLoop_S in Hnth. cbn [fst] in Hnth.
    destruct j as [|j].
    + cbn [nth_error] in Hnth. injection Hnth as <-.
      cbn [roundLoop snd Z.of_nat]. rewrite Z.add_0_r. reflexivity.
    + cbn [nth_error] in Hnth. apply IH in Hnth. subst r.
      rewrite (roundLoop_S _ _ j). cbn [snd].
      replace (i + 1 + Z.of_nat j) with (i + Z.of_nat (S j)) by lia.
      reflexivity.
Qed.

(** What a round records, read off [roundStep]. *)
Lemma roundStep_fields chunk hashBefore i regs :
  let r := fst (roundStep chunk hashBefore i regs) in
  exists a b c d b',
    Round.registersBefore r = [a; b; c; d]
    /\ Round.registersAfter r = [d; b'; b; c]
    /\ snd (roundStep chunk hashBefore i regs) = (d, b', b, c)
    /\ Round.chunkIndex r = Chunk.index chunk
    /\ Round.roundIndex r = i
    /\ Round.stepWithinChunk r = i + 1
    /\ Round.digestPreview r
       = digestFromState (Spec.fold hashBefore (d, b', b, c)).
Proof.
  unfold roundStep. destruct regs as [[[a b] c] d].
  destruct (selectRound i (JS.toUint32 b) (JS.toUint32 c) (JS.toUint32 d))
    as [[fn f] g].
  cbn [fst snd Round.chunkIndex Round.roundIndex Round.stepWithinChunk
       Round.registersAfter Round.registersBefore Round.digestPreview].
  do 5 eexists.
  split; [reflexivity|]. split; [reflexivity|]. split; [reflexivity|].
  unfold Spec.fold. change (2 ^ 32) with JS.two32. fold JS.toUint32.
  repeat split; reflexivity.
Qed.

(** ** The events of one chunk *)

Lemma processChunk_eq hash chunk :
  let loop := roundLoop 64 chunk hash 0 (Spec.registersOf hash) in
  let hash' := Spec.fold hash (snd loop) in
  let '(a, b, c, d) := snd loop in
  processChunk hash chunk
  = (blockEvents
       (ChunkStart.mk (Chunk.index chunk) (Chunk.words chunk) hash
          [nth 0 hash 0; nth 1 hash 0; nth 2 hash 0; nth 3 hash 0]
          (digestFromState hash),
        fst loop,
        ChunkEnd.mk (Chunk.index chunk) hash
          [JS.toUint32 a; JS.toUint32 b; JS.toUint32 c; JS.toUint32 d]
          hash' (digestFromState hash') (digestFromState hash')),
     hash').
Proof.
  unfold processChunk, Spec.registersOf.
  destruct (roundLoop 64 chunk hash 0 _) as [rounds [[[a b] c] d]].
  reflexivity.
Qed.

Lemma map_EvRound_inj rs rs' : map EvRound rs = map EvRound rs' -> rs = rs'.
Proof.
  revert rs'. induction rs as [|r rs IH]; intros [|r' rs'] Heq;
    try discriminate; [reflexivity|].
  cbn [map] in Heq. injection Heq as -> Hrest. f_equal. apply IH, Hrest.
Qed.

Lemma blockEvents_inj block block' :
  blockEvents block = blockEvents block' -> block = block'.
Proof.
  destruct block as [[s rs] e], block' as [[s' rs'] e']. cbn [blockEvents].
  intros Heq. injection Heq as -> Htail.
  apply app_inj_tail in Htail. destruct Htail as [Hrs He].
  apply map_EvRound_inj in Hrs. injection He as ->. subst. reflexivity.
Qed.

Lemma blockEvents_length s rs e :
  List.length (blockEvents (s, rs, e)) = S (List.length rs + 1).
Proof. cbn [blockEvents List.length]. rewrite length_app, length_map. reflexivity. Qed.

(** The loops are not to be unfolded by unification from here on. *)
#[global] Opaque roundLoop roundStep digestFromState.

Lemma fold_toUint32 hash a b c d :
  Spec.fold hash (JS.toUint32 a, JS.toUint32 b, JS.toUint32 c, JS.toUint32 d)
  = Spec.fold hash (a, b, c, d).
Proof.
  unfold Spec.fold, JS.toUint32. change JS.two32 with (2 ^ 32).
  rewrite !Z.add_mod_idemp_r by discriminate. reflexivity.
Qed.

(** Everything that the events of a chunk record about one another. *)
Lemma block_properties hash chunk s rs e :
  fst (processChunk hash chunk) = blockEvents (s, rs, e) ->
  ChunkStart.chunkIndex s = Chunk.index chunk
  /\ ChunkStart.chunkWords s = Chunk.words chunk
  /\ ChunkStart.hashBefore s = hash
  /\ ChunkEnd.chunkIndex e = Chunk.index chunk
  /\ ChunkEnd.hashBefore e = hash
  /\ ChunkEnd.hashAfter e = snd (processChunk hash chunk)
  /\ ChunkEnd.digestAfterChunk e = digestFromState (ChunkEnd.hashAfter e)
  /\ ChunkEnd.hashAfter e
     = Spec.fold hash (Spec.registersOf (ChunkEnd.registersBeforeAdd e))
  /\ List.length rs = 64%nat
  /\ forall j r, nth_error rs j = Some r ->
       (j < 64)%nat
       /\ (exists regs, r = fst (roundStep chunk hash (Z.of_nat j) regs))
       /\ Round.roundIndex r = Z.of_nat j
       /\ Round.chunkIndex r = Chunk.index chunk
       /\ (exists a b c d b',
             Round.registersBefore r = [a; b; c; d]
             /\ Round.registersAfter r = [d; b'; b; c])
       /\ Round.digestPreview r
          = digestFromState
              (Spec.fold hash (Spec.registersOf (Round.registersAfter r)))
       /\ (j = 63%nat ->
           Spec.fold hash (Spec.registersOf (Round.registersAfter r))
           = ChunkEnd.hashAfter e).
Proof.
  intros Hblock.
  pose proof (processChunk_eq hash chunk) as Heq. cbv zeta in Heq.
  destruct (snd (roundLoop 64 chunk hash 0 (Spec.registersOf hash)))
    as [[[a b] c] d] eqn:Hfinal.
  rewrite Heq in Hblock |- *. cbn [fst snd] in Hblock |- *.
  apply blockEvents_inj in Hblock.
  pose proof (f_equal (fun b : Block => fst (fst b)) Hblock) as Hs.
  pose proof (f_equal (fun b : Block => snd (fst b)) Hblock) as Hrs.
  pose proof (f_equal (fun b : Block => snd b) Hblock) as He.
  cbn [fst snd] in Hs, Hrs, He. clear Hblock. subst s rs e.
  cbn [ChunkStart.chunkIndex ChunkStart.chunkWords ChunkStart.hashBefore
       ChunkEnd.chunkIndex ChunkEnd.hashBefore ChunkEnd.hashAfter
       ChunkEnd.digestAfterChunk ChunkEnd.registersBeforeAdd].
  do 7 (split; [reflexivity|]).
  split; [symmetry; apply fold_toUint32|].
  split; [apply roundLoop_length|].
  intros j r Hnth.
  assert (Hj : (j < 64)%nat).
  { rewrite <- (roundLoop_length chunk hash 64 0 (Spec.registersOf hash)).
    apply nth_error_Some. rewrite Hnth. discriminate. }
  apply roundLoop_nth in Hnth. rewrite Z.add_0_l in Hnth.
  pose proof (roundStep_fields chunk hash (Z.of_nat j)
                (snd (roundLoop j chunk hash 0 (Spec.registersOf hash)))) as Hfields.
  cbv zeta in Hfields. rewrite <- Hnth in Hfields.
  destruct Hfields
    as (a0 & b0 & c0 & d0 & b' & Hbefore & Hafter & Hstep & Hci & Hri & _ & Hpreview).
  assert (Hregs : Spec.registersOf (Round.registersAfter r) = (d0, b', b0, c0))
    by (rewrite Hafter; reflexivity).
  rewrite Hregs.
  split; [exact Hj|]. split; [eexists; exact Hnth|].
  do 2 (split; [assumption|]).
  split; [exists a0, b0, c0, d0, b'; split; assumption|].
  split; [assumption|].
  intros ->. f_equal.
  rewrite <- Hstep, <- Hfinal.
  rewrite (roundLoop_succ chunk hash 63 0). rewrite Z.add_0_l. reflexivity.
Qed.

(** ** The events of all chunks *)

Lemma processChunk_hashState hash chunk : hashState (snd (processChunk hash chunk)).
Proof.
  pose proof (processChunk_eq hash chunk) as Heq. cbv zeta in Heq.
  destruct (snd (roundLoop 64 chunk hash 0 (Spec.registersOf hash)))
    as [[[a b] c] d].
  rewrite Heq. apply fold_hashState.
Qed.

Lemma processChunk_block hash chunk :
  exists block, fst (processChunk hash chunk) = blockEvents block.
Proof.
  pose proof (processChunk_eq hash chunk) as Heq. cbv zeta in Heq.
  destruct (snd (roundLoop 64 chunk hash 0 (Spec.registersOf hash)))
    as [[[a b] c] d].
  rewrite Heq. eexists. reflexivity.
Qed.

Lemma chunkLoop_cons chunk rest hash :
  chunkLoop (chunk :: rest) hash
  = (fst (processChunk hash chunk)
       ++ fst (chunkLoop rest (snd (processChunk hash chunk))),
     snd (chunkLoop rest (snd (processChunk hash chunk)))).
Proof.
  cbn [chunkLoop]. destruct (processChunk hash chunk) as [evs hash'].
  cbn [fst snd]. destruct (chunkLoop rest hash') as [evs' final]. reflexivity.
Qed.

Lemma chunkLoop_blocks chunks : forall hash,
  hashState hash ->
  exists blocks,
    fst (chunkLoop chunks hash) = flat_map blockEvents blocks
    /\ Forall2 blockFor chunks blocks
    /\ hashState (snd (chunkLoop chunks hash)).
Proof.
  induction chunks as [|chunk rest IH]; intros hash Hhash.
  - exists []. repeat split; [constructor|apply Hhash|apply Hhash].
  - rewrite chunkLoop_cons. cbn [fst snd].
    destruct (processChunk_block hash chunk) as [block Hblock].
    destruct (IH _ (processChunk_hashState hash chunk))
      as (blocks & Hevents & Hall & Hfinal).
    exists (block :: blocks). cbn [flat_map].
    rewrite Hblock, Hevents. repeat split; try assumption.
    + constructor; [|assumption]. exists hash. split; assumption.
    + apply Hfinal.
    + apply Hfinal.
Qed.

Lemma Forall2_nth_error_r {A B : Type} (R : A -> B -> Prop) l l' :
  Forall2 R l l' ->
  forall k b, nth_error l' k = Some b ->
  exists a, nth_error l k = Some a /\ R a b.
Proof.
  induction 1 as [|a b0 l l' HR Hall IH]; intros k b Hnth.
  - destruct k; discriminate.
  - destruct k as [|k]; cbn [nth_error] in *.
    + injection Hnth as <-. exists a. split; [reflexivity|assumption].
    + apply IH, Hnth.
Qed.

Lemma chunkBytes_index bytes k chunk :
  nth_error (chunkBytes bytes) k = Some chunk -> Chunk.index chunk = Z.of_nat k.
Proof.
  unfold chunkBytes. rewrite nth_error_map, nth_error_seq.
  destruct (Nat.ltb k _); [|discriminate].
  cbn [option_map Nat.add]. intros Heq. injection Heq as <-.
  unfold chunkAt. cbn [Chunk.index].
  rewrite Nat2Z.inj_mul. change (Z.of_nat 64) with 64.
  rewrite Z.mul_comm. apply Z.div_mul. discriminate.
Qed.

Lemma chunkBytes_length bytes :
  List.length (chunkBytes bytes) = ((List.length bytes + 63) / 64)%nat.
Proof. unfold chunkBytes. rewrite length_map, length_seq. reflexivity. Qed.

(** A block has 66 events when it has 64 rounds. *)
Lemma flat_map_blockEvents_length blocks :
  Forall (fun block : Block => List.length (snd (fst block)) = 64%nat) blocks ->
  List.length (flat_map blockEvents blocks) = (List.length blocks * 66)%nat.
Proof.
  induction 1 as [|[[s rs] e] blocks Hrs Hall IH]; [reflexivity|].
  cbn [flat_map]. rewrite length_app, blockEvents_length, IH.
  cbn [fst snd] in Hrs. rewrite Hrs. cbn [List.length]. lia.
Qed.

(** ** What a call that returns has built *)

Lemma buildMd5Trace_returned inputValue inputType t :
  buildMd5Trace inputValue inputType = Returned t ->
  exists inputBytes paddedBytes,
    parseInputBytes inputValue inputType = Returned inputBytes
    /\ padBytes inputBytes = Returned paddedBytes
    /\ let chunks := chunkBytes paddedBytes in
       let hash := snd (chunkLoop chunks INITIAL_HASH) in
       let digest := digestFromState hash in
       t = Trace.mk inputType inputBytes paddedBytes chunks
             (EvPreprocess
                (Preprocess.mk inputType
                   (Z.of_nat (List.length inputBytes))
                   (Z.of_nat (List.length inputBytes) * 8)
                   (Z.of_nat (List.length paddedBytes))
                   (Z.of_nat (List.length paddedBytes) * 8)
                   (Z.of_nat (List.length paddedBytes)
                    - Z.of_nat (List.length inputBytes))
                   (Z.of_nat (List.length chunks))
                   (digestFromState INITIAL_HASH))
              :: fst (chunkLoop chunks INITIAL_HASH)
              ++ [EvDone (Done.mk hash digest (Z.of_nat (List.length chunks))
                            digest)])
             digest TABLE_K SHIFT_AMOUNTS INITIAL_HASH.
Proof.
  unfold buildMd5Trace. intros Hbuild.
  destruct (parseInputBytes inputValue inputType) as [inputBytes| |];
    try discriminate.
  cbn [bind] in Hbuild.
  destruct (padBytes inputBytes) as [paddedBytes| |] eqn:Hpad; try discriminate.
  cbn [bind] in Hbuild.
  exists inputBytes, paddedBytes.
  split; [reflexivity|]. split; [exact Hpad|].
  destruct (chunkLoop (chunkBytes paddedBytes) INITIAL_HASH) as [evs hash].
  injection Hbuild as <-. reflexivity.
Qed.

(** ** Hex input *)

(** Decides the integer comparisons of a character class. *)
Ltac char_cases :=
  repeat match goal with
         | |- context [?a <=? ?b] => destruct (Z.leb_spec a b)
         | |- context [?a =? ?b] => destruct (Z.eqb_spec a b)
         end;
  cbn [andb orb negb existsb List.length]; try reflexivity; try lia.

Lemma toLowerCaseUnit_hex c :
  existsb (fun u => negb (isLowerHexDigit u)) (toLowerCaseUnit c)
  = negb (Spec.isHexDigit c).
Proof.
  unfold toLowerCaseUnit, Spec.isHexDigit.
  destruct (Z.leb_spec 65 c); destruct (Z.leb_spec c 90); cbn [andb].
  - unfold isLowerHexDigit, existsb. char_cases.
  - destruct (Z.eqb_spec c 304); [subst; reflexivity|].
    destruct (Z.eqb_spec c 8490); [subst; reflexivity|].
    unfold isLowerHexDigit, existsb. char_cases.
  - destruct (Z.eqb_spec c 304); [subst; reflexivity|].
    destruct (Z.eqb_spec c 8490); [subst; reflexivity|].
    unfold isLowerHexDigit, existsb. char_cases.
  - lia.
Qed.

Lemma toLowerCaseUnit_length c :
  Spec.isHexDigit c = true -> List.length (toLowerCaseUnit c) = 1%nat.
Proof.
  unfold toLowerCaseUnit, Spec.isHexDigit.
  destruct ((65 <=? c) && (c <=? 90)); [reflexivity|].
  destruct (Z.eqb_spec c 304); [subst; discriminate|].
  destruct (Z.eqb_spec c 8490); [subst; discriminate|]. reflexivity.
Qed.

Lemma toLowerCase_hex s :
  existsb (fun u => negb (isLowerHexDigit u)) (toLowerCase s)
  = existsb (fun c => negb (Spec.isHexDigit c)) s.
Proof.
  induction s as [|c s IH]; [reflexivity|].
  cbn [toLowerCase flat_map existsb]. fold (toLowerCase s).
  rewrite existsb_app, toLowerCaseUnit_hex, IH. reflexivity.
Qed.

Lemma toLowerCase_length s :
  existsb (fun c => negb (Spec.isHexDigit c)) s = false ->
  List.length (toLowerCase s) = List.length s.
Proof.
  induction s as [|c s IH]; [reflexivity|].
  cbn [toLowerCase flat_map existsb]. fold (toLowerCase s).
  intros Hall. apply orb_false_elim in Hall. destruct Hall as [Hc Hs].
  apply negb_false_iff in Hc.
  rewrite length_app, toLowerCaseUnit_length, IH by assumption. reflexivity.
Qed.

Lemma toLowerCase_nonempty c s : toLowerCase (c :: s) <> [].
Proof.
  cbn [toLowerCase flat_map]. unfold toLowerCaseUnit.
  destruct ((65 <=? c) && (c <=? 90)); [discriminate|].
  destruct (c =? 304); [discriminate|]. destruct (c =? 8490); discriminate.
Qed.

Lemma hexDigitValue_lower c :
  isLowerHexDigit c = true -> exists d, hexDigitValue c = Some d /\ 0 <= d < 16.
Proof.
  unfold isLowerHexDigit, hexDigitValue. intros Hc.
  destruct (Z.leb_spec 48 c); destruct (Z.leb_spec c 57); cbn [andb orb] in *;
    try (eexists; split; [reflexivity|lia]);
    destruct (Z.leb_spec 97 c); destruct (Z.leb_spec c 102); cbn [andb] in *;
    try discriminate; eexists; split; try reflexivity; lia.
Qed.

(** The loop of [parseHexInput] returns bytes, one for two digits. *)
Lemma parseHexPairs_returns n : forall clean,
  List.length clean = (2 * n)%nat ->
  forallb isLowerHexDigit clean = true ->
  exists bytes,
    parseHexPairs clean = Returned bytes
    /\ List.length bytes = n /\ Forall (fun b => 0 <= b < 256) bytes.
Proof.
  induction n as [|n IH]; intros clean Hlen Hall.
  - destruct clean; [|discriminate]. exists []. repeat split. constructor.
  - destruct clean as [|c1 [|c2 rest]]; try (cbn in Hlen; lia).
    cbn [forallb] in Hall.
    apply andb_prop in Hall. destruct Hall as [H1 Hall].
    apply andb_prop in Hall. destruct Hall as [H2 Hall].
    destruct (hexDigitValue_lower c1 H1) as (d1 & Hd1 & Hr1).
    destruct (hexDigitValue_lower c2 H2) as (d2 & Hd2 & Hr2).
    destruct (IH rest ltac:(cbn in Hlen; lia) Hall) as (bytes & Hbytes & Hn & Hrange).
    cbn [parseHexPairs parseInt16 parseDigits16]. rewrite Hd1, Hd2, Hbytes.
    cbn [bind]. eexists. split; [reflexivity|].
    split; [cbn; lia|]. constructor; [lia|assumption].
Qed.

Lemma existsb_negb_forallb {A : Type} (p : A -> bool) l :
  existsb (fun x => negb (p x)) l = false -> forallb p l = true.
Proof.
  induction l as [|x l IH]; [reflexivity|]. cbn [existsb forallb].
  intros Hall. apply orb_false_elim in Hall. destruct Hall as [Hx Hl].
  apply negb_false_iff in Hx. rewrite Hx, IH by assumption. reflexivity.
Qed.

(** [parseHexInput] throws exactly on the inputs that the specification
    rejects, and returns bytes on all others. *)
Lemma parseHexInput_outcome value :
  if Spec.invalidHex value
  then parseHexInput value = Thrown "Hex input must contain an even number of digits."
       \/ parseHexInput value = Thrown "Hex input can only contain 0-9 and a-f."
  else exists bytes, parseHexInput value = Returned bytes.
Proof.
  unfold Spec.invalidHex, parseHexInput.
  set (s := stripWhiteSpace value).
  pose proof (toLowerCase_hex s) as Hhex.
  destruct (existsb (fun c => negb (Spec.isHexDigit c)) s) eqn:Hbad.
  - rewrite orb_true_r.
    destruct (Nat.eqb_spec (List.length (toLowerCase s)) 0) as [Hzero|_].
    + destruct s; [discriminate|].
      apply length_zero_iff_nil in Hzero.
      exfalso. exact (toLowerCase_nonempty _ _ Hzero).
    + destruct (Nat.even (List.length (toLowerCase s))); cbn [negb];
        [|left; reflexivity].
      rewrite Hhex. right. reflexivity.
  - rewrite orb_false_r, Hhex, (toLowerCase_length s Hbad).
    destruct (Nat.eqb_spec (List.length s) 0) as [Hzero|Hpos].
    + rewrite Hzero. cbn. exists []. reflexivity.
    + rewrite <- Nat.negb_even.
      destruct (Nat.even (List.length s)) eqn:Heven; cbn [negb].
      * apply Nat.even_spec in Heven. destruct Heven as [n Hn].
        apply existsb_negb_forallb in Hhex.
        destruct (parseHexPairs_returns n (toLowerCase s)) as (bytes & Hbytes & _);
          [rewrite toLowerCase_length; assumption|assumption|].
        exists bytes. exact Hbytes.
      * left. reflexivity.
Qed.

(** * The claims of the specification *)

(** C1. In text mode the digest of the trace of the empty string is
    d41d8cd98f00b204e9800998ecf8427e and the digest of the trace of "abc" is
    900150983cd24fb0d6963f7d28e17f72. *)
Theorem digest_test_vectors :
  returned Trace.digest (buildMd5Trace (codeUnits "") "text")
  = Some "d41d8cd98f00b204e9800998ecf8427e"%string
  /\ returned Trace.digest (buildMd5Trace (codeUnits "abc") "text")
     = Some "900150983cd24fb0d6963f7d28e17f72"%string.
Proof. split; vm_compute; reflexivity. Qed.

(** C8. Hex-mode input "61 62 63" and text-mode input "abc" give the same
    input bytes, the same padded bytes and the same digest. *)
Theorem hex_and_text_agree :
  let hex := buildMd5Trace (codeUnits "61 62 63") "hex" in
  let text := buildMd5Trace (codeUnits "abc") "text" in
  returned Trace.inputBytes hex = Some [97; 98; 99]
  /\ returned Trace.inputBytes hex = returned Trace.inputBytes text
  /\ (exists padded, returned Trace.paddedBytes hex = Some padded)
  /\ returned Trace.paddedBytes hex = returned Trace.paddedBytes text
  /\ returned Trace.digest hex = Some "900150983cd24fb0d6963f7d28e17f72"%string
  /\ returned Trace.digest hex = returned Trace.digest text.
Proof.
  cbv zeta.
  split; [vm_compute; reflexivity|]. split; [vm_compute; reflexivity|].
  split; [eexists; vm_compute; reflexivity|].
  split; [vm_compute; reflexivity|]. split; vm_compute; reflexivity.
Qed.

(** C3. For every byte sequence, [padBytes] returns the input followed by one
    0x80 byte, then by 0x00 bytes until the length is 56 modulo 64 (and no
    further), then by the bit length, 8 times the byte count reduced modulo
    2^64, as 8 bytes little-endian.  The padded length is a multiple of 64 and
    between 9 and 72 bytes are added. *)
Theorem padBytes_spec (bytes : list Z) :
  let len := Z.of_nat (List.length bytes) in
  exists zeros padded,
    padBytes bytes = Returned padded
    /\ padded = bytes ++ [128] ++ repeat 0 zeros
                  ++ Spec.littleEndian8 ((8 * len) mod 2 ^ 64)
    /\ (len + 1 + Z.of_nat zeros) mod 64 = 56
    /\ (forall j, (j < zeros)%nat -> (len + 1 + Z.of_nat j) mod 64 <> 56)
    /\ Z.of_nat (List.length padded) mod 64 = 0
    /\ 9 <= Z.of_nat (List.length padded) - len <= 72.
Proof.
  intros len.
  pose proof (Z.mod_pos_bound (55 - len) 64 ltac:(lia)) as Hm.
  exists (Z.to_nat ((55 - len) mod 64)). eexists.
  split; [apply padBytes_returns|]. fold len.
  split; [reflexivity|].
  rewrite !length_app, repeat_length. cbn [List.length Spec.littleEndian8 map].
  rewrite !Nat2Z.inj_add, Z2Nat.id by lia. fold len.
  change (Z.of_nat 1) with 1. change (Z.of_nat 8) with 8.
  split; [revert Hm; Z.div_mod_to_equations; lia|].
  split; [|split; [revert Hm; Z.div_mod_to_equations; lia|lia]].
  intros j Hj. assert (Hjm : Z.of_nat j < (55 - len) mod 64) by lia.
  pose proof (Nat2Z.is_nonneg j) as Hj0.
  revert Hm Hjm Hj0. generalize (Z.of_nat j). intros z.
  Z.div_mod_to_equations. lia.
Qed.

(** ** The digest string *)

Lemma formatDigest_shape h0 h1 h2 h3 :
  String.length (Spec.formatDigest [h0; h1; h2; h3]) = 32%nat
  /\ Spec.allLowerHex (Spec.formatDigest [h0; h1; h2; h3]) = true.
Proof.
  cbv [Spec.formatDigest Spec.littleEndian4 Spec.hexByte join map fold_right
       String.append].
  split; [reflexivity|].
  cbv [Spec.allLowerHex list_ascii_of_string forallb].
  rewrite !hexDigit_lower. reflexivity.
Qed.

Lemma chunkLoop_hashState chunks hash :
  hashState hash -> hashState (snd (chunkLoop chunks hash)).
Proof.
  intros Hhash. destruct (chunkLoop_blocks chunks hash Hhash) as (_ & _ & _ & H).
  exact H.
Qed.

(** C2. The digest of a 4-word hash state is 32 lower-case hexadecimal
    characters: each word as 4 bytes little-endian, each byte as 2 digits,
    in the order H0 H1 H2 H3; and the digest of the trace of every input is the
    digest of such a state. *)
Theorem digest_format :
  (forall h0 h1 h2 h3 : Z,
      digestFromState [h0; h1; h2; h3] = Spec.formatDigest [h0; h1; h2; h3]
      /\ String.length (digestFromState [h0; h1; h2; h3]) = 32%nat
      /\ Spec.allLowerHex (digestFromState [h0; h1; h2; h3]) = true)
  /\ (forall inputValue inputType t,
         buildMd5Trace inputValue inputType = Returned t ->
         (exists h0 h1 h2 h3,
             Trace.digest t = digestFromState [h0; h1; h2; h3])
         /\ String.length (Trace.digest t) = 32%nat
         /\ Spec.allLowerHex (Trace.digest t) = true).
Proof.
  assert (Hformat : forall h0 h1 h2 h3 : Z,
             digestFromState [h0; h1; h2; h3] = Spec.formatDigest [h0; h1; h2; h3]
             /\ String.length (digestFromState [h0; h1; h2; h3]) = 32%nat
             /\ Spec.allLowerHex (digestFromState [h0; h1; h2; h3]) = true).
  { intros h0 h1 h2 h3. rewrite digestFromState_format.
    split; [reflexivity|apply formatDigest_shape]. }
  split; [exact Hformat|].
  intros inputValue inputType t Hbuild.
  destruct (buildMd5Trace_returned _ _ _ Hbuild)
    as (inputBytes & paddedBytes & _ & _ & Ht).
  cbv zeta in Ht. subst t. cbn [Trace.digest].
  destruct (chunkLoop_hashState (chunkBytes paddedBytes) INITIAL_HASH
              INITIAL_HASH_hashState) as [Hlen _].
  destruct (snd (chunkLoop (chunkBytes paddedBytes) INITIAL_HASH))
    as [|h0 [|h1 [|h2 [|h3 [|]]]]]; try discriminate.
  split; [exists h0, h1, h2, h3; reflexivity|].
  apply Hformat.
Qed.

Lemma digest_format_witness :
  exists t,
    buildMd5Trace (codeUnits "abc") "text" = Returned t
    /\ String.length (Trace.digest t) = 32%nat
    /\ Spec.allLowerHex (Trace.digest t) = true.
Proof.
  eexists. split; [vm_compute; reflexivity|].
  eapply (proj2 digest_format (codeUnits "abc") "text"%string).
  vm_compute. reflexivity.
Defined.

(** ** The event list of a trace *)

Lemma blockFor_properties chunk s rs e :
  blockFor chunk (s, rs, e) ->
  ChunkStart.chunkIndex s = Chunk.index chunk
  /\ ChunkEnd.chunkIndex e = Chunk.index chunk
  /\ ChunkEnd.hashBefore e = ChunkStart.hashBefore s
  /\ ChunkEnd.digestAfterChunk e = digestFromState (ChunkEnd.hashAfter e)
  /\ List.length rs = 64%nat
  /\ forall j r, nth_error rs j = Some r ->
       Round.roundIndex r = Z.of_nat j
       /\ Round.chunkIndex r = Chunk.index chunk
       /\ (exists a b c d b',
             Round.registersBefore r = [a; b; c; d]
             /\ Round.registersAfter r = [d; b'; b; c])
       /\ Round.digestPreview r
          = digestFromState
              (Spec.fold (ChunkStart.hashBefore s)
                 (Spec.registersOf (Round.registersAfter r)))
       /\ (j = 63%nat ->
           Spec.fold (ChunkStart.hashBefore s)
             (Spec.registersOf (Round.registersAfter r))
           = ChunkEnd.hashAfter e).
Proof.
  intros (hash & _ & Hblock).
  destruct (block_properties hash chunk s rs e Hblock)
    as (Hs & _ & Hsh & He & Heh & _ & Hd & _ & Hlen & Hrounds).
  rewrite Hsh, Heh. repeat (split; [assumption || reflexivity|]).
  intros j r Hj. destruct (Hrounds j r Hj) as (_ & _ & Hrest). exact Hrest.
Qed.

(** The rounds and the fold of a block, against the specification. *)
Lemma blockFor_engine chunk s rs e :
  blockFor chunk (s, rs, e) ->
  ChunkStart.chunkWords s = Chunk.words chunk
  /\ hashState (ChunkStart.hashBefore s)
  /\ ChunkEnd.hashAfter e
     = Spec.compress TABLE_K SHIFT_AMOUNTS (Chunk.words chunk)
         (ChunkStart.hashBefore s)
  /\ ChunkEnd.hashAfter e
     = Spec.fold (ChunkStart.hashBefore s)
         (Spec.registersOf (ChunkEnd.registersBeforeAdd e))
  /\ hashState (ChunkEnd.hashAfter e)
  /\ forall r, In r rs ->
       0 <= Round.roundIndex r < 64
       /\ exists a b c d,
            Round.registersBefore r = [a; b; c; d]
            /\ uint32Registers (a, b, c, d)
            /\ roundFollowsSpec (Chunk.words chunk) (Round.roundIndex r)
                 a b c d r.
Proof.
  intros (hash & Hhash & Hblock).
  destruct (block_properties hash chunk s rs e Hblock)
    as (_ & Hw & Hsh & _ & _ & Hafter & _ & Hfold & _ & Hrounds).
  rewrite Hsh. split; [exact Hw|]. split; [exact Hhash|].
  split; [rewrite Hafter; apply processChunk_compress, Hhash|].
  split; [exact Hfold|].
  split; [rewrite Hafter; apply processChunk_hashState|].
  intros r Hr. apply In_nth_error in Hr. destruct Hr as [j Hj].
  destruct (Hrounds j r Hj) as (Hlt & (regs & Hr) & Hri & _).
  rewrite Hri. split; [lia|].
  destruct (roundStep_formulas chunk hash (Z.of_nat j) regs ltac:(lia))
    as (a & b & c & d & Hbefore & Hnorm & Hspec & _).
  rewrite <- Hr in Hbefore, Hspec.
  exists a, b, c, d. split; [exact Hbefore|]. split; [|exact Hspec].
  destruct regs as [[[a0 b0] c0] d0]. destruct Hnorm as (-> & -> & -> & ->).
  repeat split; apply toUint32_range.
Qed.

Lemma blocks_rounds_length chunks blocks :
  Forall2 blockFor chunks blocks ->
  Forall (fun block : Block => List.length (snd (fst block)) = 64%nat) blocks.
Proof.
  induction 1 as [|chunk [[s rs] e] chunks blocks Hblock Hall IH]; constructor.
  - cbn [fst snd]. apply (blockFor_properties chunk s rs e Hblock).
  - exact IH.
Qed.

Lemma trace_blocks inputValue inputType t :
  buildMd5Trace inputValue inputType = Returned t ->
  exists p blocks d,
    Trace.events t = EvPreprocess p :: flat_map blockEvents blocks ++ [EvDone d]
    /\ Forall2 blockFor (Trace.chunks t) blocks
    /\ (forall k chunk, nth_error (Trace.chunks t) k = Some chunk ->
          Chunk.index chunk = Z.of_nat k)
    /\ Done.digest d = Trace.digest t
    /\ Preprocess.chunkCount p = Z.of_nat (List.length (Trace.chunks t))
    /\ Done.chunkCount d = Z.of_nat (List.length (Trace.chunks t)).
Proof.
  intros Hbuild.
  destruct (buildMd5Trace_returned _ _ _ Hbuild)
    as (inputBytes & paddedBytes & _ & _ & Ht).
  cbv zeta in Ht. subst t.
  cbn [Trace.events Trace.chunks Trace.digest].
  destruct (chunkLoop_blocks (chunkBytes paddedBytes) INITIAL_HASH
              INITIAL_HASH_hashState) as (blocks & Hevents & Hall & _).
  rewrite Hevents.
  do 3 eexists. split; [reflexivity|]. split; [exact Hall|].
  split; [apply chunkBytes_index|].
  cbn [Done.digest Preprocess.chunkCount Done.chunkCount].
  split; [reflexivity|]. split; reflexivity.
Qed.

(** A 'round' event of a trace sits in the block of one of its chunks. *)
Lemma round_event_block p blocks d r :
  In (EvRound r) (EvPreprocess p :: flat_map blockEvents blocks ++ [EvDone d]) ->
  exists s rs e j, In (s, rs, e) blocks /\ nth_error rs j = Some r.
Proof.
  intros [Hin|Hin]; [discriminate|].
  apply in_app_or in Hin. destruct Hin as [Hin|[Hin|[]]]; [|discriminate].
  apply in_flat_map in Hin. destruct Hin as ([[s rs] e] & Hblock & Hin).
  cbn [blockEvents] in Hin. destruct Hin as [Hin|Hin]; [discriminate|].
  apply in_app_or in Hin. destruct Hin as [Hin|[Hin|[]]]; [|discriminate].
  apply in_map_iff in Hin. destruct Hin as (r' & Heq & Hin).
  injection Heq as ->. apply In_nth_error in Hin. destruct Hin as [j Hj].
  exists s, rs, e, j. split; assumption.
Qed.

Lemma blocks_In chunks blocks block :
  Forall2 blockFor chunks blocks -> In block blocks ->
  exists chunk, In chunk chunks /\ blockFor chunk block.
Proof.
  intros Hall Hin. apply In_nth_error in Hin. destruct Hin as [k Hk].
  destruct (Forall2_nth_error_r _ _ _ Hall k block Hk) as (chunk & Hchunk & Hfor).
  exists chunk. split; [eapply nth_error_In, Hchunk|exact Hfor].
Qed.

(** One block per chunk, in order, and at least one chunk: the padded
    message is never empty. *)
Lemma Forall2_nth_error_l {A B : Type} (R : A -> B -> Prop) l l' :
  Forall2 R l l' ->
  forall k a, nth_error l k = Some a ->
  exists b, nth_error l' k = Some b /\ R a b.
Proof.
  induction 1 as [|a0 b l l' HR Hall IH]; intros k a Hnth.
  - destruct k; discriminate.
  - destruct k as [|k]; cbn [nth_error] in *.
    + injection Hnth as <-. exists b. split; [reflexivity|assumption].
    + apply IH, Hnth.
Qed.

Lemma trace_chunks_nonempty inputValue inputType t :
  buildMd5Trace inputValue inputType = Returned t ->
  (0 < List.length (Trace.chunks t))%nat.
Proof.
  intros Hbuild.
  destruct (buildMd5Trace_returned _ _ _ Hbuild)
    as (inputBytes & paddedBytes & _ & Hpad & Ht).
  cbv zeta in Ht. rewrite Ht. cbn [Trace.chunks].
  rewrite chunkBytes_length.
  assert (Hlen : (0 < List.length paddedBytes)%nat).
  { rewrite padBytes_returns in Hpad.
    assert (Heq : paddedBytes
                  = inputBytes ++ [128]
                      ++ repeat 0
                           (Z.to_nat ((55 - Z.of_nat (List.length inputBytes)) mod 64))
                      ++ Spec.littleEndian8
                           ((8 * Z.of_nat (List.length inputBytes)) mod 2 ^ 64))
      by congruence.
    rewrite Heq, !length_app. cbn [List.length]. lia. }
  pose proof (Nat.div_mod_eq (List.length paddedBytes + 63) 64).
  pose proof (Nat.mod_upper_bound (List.length paddedBytes + 63) 64). lia.
Qed.

Lemma trace_chunk_blocks inputValue inputType t :
  buildMd5Trace inputValue inputType = Returned t ->
  exists p blocks d,
    Trace.events t = EvPreprocess p :: flat_map blockEvents blocks ++ [EvDone d]
    /\ Forall2 blockFor (Trace.chunks t) blocks
    /\ List.length blocks = List.length (Trace.chunks t)
    /\ (0 < List.length (Trace.chunks t))%nat
    /\ (forall k chunk,
          nth_error (Trace.chunks t) k = Some chunk ->
          exists s rs e,
            nth_error blocks k = Some (s, rs, e) /\ blockFor chunk (s, rs, e)).
Proof.
  intros Hbuild.
  destruct (trace_blocks _ _ _ Hbuild) as (p & blocks & d & Hevents & Hall & _).
  exists p, blocks, d. split; [exact Hevents|]. split; [exact Hall|].
  split; [symmetry; exact (Forall2_length Hall)|].
  split; [exact (trace_chunks_nonempty _ _ _ Hbuild)|].
  intros k chunk Hk.
  destruct (Forall2_nth_error_l _ _ _ Hall k chunk Hk) as ([[s rs] e] & Hb & Hfor).
  exists s, rs, e. split; assumption.
Qed.

(** The 64 rounds of a block, each at its place. *)
Lemma blockFor_rounds chunk s rs e :
  blockFor chunk (s, rs, e) ->
  List.length rs = 64%nat
  /\ forall i, (i < 64)%nat ->
       exists r, nth_error rs i = Some r /\ Round.roundIndex r = Z.of_nat i.
Proof.
  intros Hfor.
  destruct (blockFor_properties chunk s rs e Hfor)
    as (_ & _ & _ & _ & Hlen & Hrounds).
  split; [exact Hlen|]. intros i Hi.
  destruct (nth_error rs i) as [r|] eqn:Hr.
  - exists r. split; [reflexivity|]. apply (Hrounds i r Hr).
  - apply nth_error_None in Hr. lia.
Qed.

(** C4. A trace has one block of events per chunk, in order, and at least
    one chunk; every block has the 64 rounds 0 to 63, each at its place.
    In every chunk of a trace, round [i] (0 to 63), started with the
    registers [(a, b, c, d)], selects the family by the range of [i], computes
    [f] and [g] by the family's formulas, [sum = (a + f + K[i] + M[g]) mod
    2^32] and [rotated = leftRotate32(sum, S[i])], and leaves the registers
    [(d, (b + rotated) mod 2^32, b, c)].  The hash state after the chunk is
    the state before it plus the final registers, position by position,
    modulo 2^32, the final registers being those that the 64 rounds of the
    specification leave ([Spec.compress]).  All values are unsigned 32-bit. *)
Theorem round_engine_spec (inputValue : list Z) (inputType : string)
    (t : Trace.t) :
  buildMd5Trace inputValue inputType = Returned t ->
  exists p blocks d,
    Trace.events t = EvPreprocess p :: flat_map blockEvents blocks ++ [EvDone d]
    /\ List.length blocks = List.length (Trace.chunks t)
    /\ (0 < List.length (Trace.chunks t))%nat
    /\ (forall k chunk,
          nth_error (Trace.chunks t) k = Some chunk ->
          exists s rs e,
            nth_error blocks k = Some (s, rs, e)
            /\ ChunkStart.chunkWords s = Chunk.words chunk)
    /\ forall s rs e, In (s, rs, e) blocks ->
         List.length rs = 64%nat
         /\ (forall i, (i < 64)%nat ->
               exists r,
                 nth_error rs i = Some r /\ Round.roundIndex r = Z.of_nat i)
         /\ (forall r, In r rs ->
            0 <= Round.roundIndex r < 64
            /\ exists a b c d,
                 Round.registersBefore r = [a; b; c; d]
                 /\ uint32Registers (a, b, c, d)
                 /\ Round.functionName r = Spec.family (Round.roundIndex r)
                 /\ Round.functionResult r
                    = Spec.f (Spec.family (Round.roundIndex r)) b c d
                 /\ Round.g r
                    = Spec.g (Spec.family (Round.roundIndex r)) (Round.roundIndex r)
                 /\ Round.constant r
                    = nth (Z.to_nat (Round.roundIndex r)) TABLE_K 0
                 /\ Round.shift r
                    = nth (Z.to_nat (Round.roundIndex r)) SHIFT_AMOUNTS 0
                 /\ Round.messageWord r
                    = nth (Z.to_nat (Round.g r)) (ChunkStart.chunkWords s) 0
                 /\ Round.sum r
                    = (a + Round.functionResult r + Round.constant r
                       + Round.messageWord r) mod 2 ^ 32
                 /\ Round.rotated r
                    = Spec.leftRotate32 (Round.sum r) (Round.shift r)
                 /\ Round.registersAfter r
                    = [d; (b + Round.rotated r) mod 2 ^ 32; b; c])
         /\ hashState (ChunkStart.hashBefore s)
         /\ ChunkEnd.hashAfter e
            = Spec.fold (ChunkStart.hashBefore s)
                (Spec.registersOf (ChunkEnd.registersBeforeAdd e))
         /\ ChunkEnd.hashAfter e
            = Spec.compress TABLE_K SHIFT_AMOUNTS (ChunkStart.chunkWords s)
                (ChunkStart.hashBefore s)
         /\ hashState (ChunkEnd.hashAfter e).
Proof.
  intros Hbuild.
  destruct (trace_chunk_blocks _ _ _ Hbuild)
    as (p & blocks & d & Hevents & Hall & Hlen & Hpos & Hchunks).
  exists p, blocks, d. split; [exact Hevents|].
  split; [exact Hlen|]. split; [exact Hpos|].
  split.
  { intros k chunk Hk.
    destruct (Hchunks k chunk Hk) as (s & rs & e & Hb & Hfor).
    exists s, rs, e. split; [exact Hb|].
    exact (proj1 (blockFor_engine chunk s rs e Hfor)). }
  intros s rs e Hblock.
  destruct (blocks_In _ _ _ Hall Hblock) as (chunk & _ & Hfor).
  destruct (blockFor_rounds chunk s rs e Hfor) as (Hrs & Hex).
  split; [exact Hrs|]. split; [exact Hex|].
  destruct (blockFor_engine chunk s rs e Hfor)
    as (Hwords & Hstate & Hcompress & Hfold & Hafter & Hrounds).
  rewrite Hwords.
  split; [|split; [exact Hstate|split; [exact Hfold|split; assumption]]].
  intros r Hr. destruct (Hrounds r Hr) as (Hi & a & b & c & d0 & Hbefore & Hrange & Hspec).
  split; [exact Hi|]. exists a, b, c, d0.
  split; [exact Hbefore|]. split; [exact Hrange|exact Hspec].
Qed.

Lemma round_engine_spec_witness :
  exists t p blocks d s rs e r,
    buildMd5Trace (codeUnits "abc") "text" = Returned t
    /\ Trace.events t = EvPreprocess p :: flat_map blockEvents blocks ++ [EvDone d]
    /\ nth_error blocks 0 = Some (s, rs, e)
    /\ nth_error rs 63 = Some r
    /\ Round.roundIndex r = 63
    /\ Round.functionName r = Fn.I
    /\ Round.g r = 9
    /\ hashState (ChunkEnd.hashAfter e).
Proof.
  eexists.
  edestruct (round_engine_spec (codeUnits "abc") "text"%string)
    as (p & blocks & d & Hevents & _ & _ & Hchunks & Hblocks);
    [vm_compute; reflexivity|].
  edestruct (Hchunks 0%nat) as (s & rs & e & Hblock & _); [reflexivity|].
  destruct (Hblocks s rs e (nth_error_In _ _ Hblock))
    as (_ & Hex & Hrounds & _ & _ & _ & Hafter).
  destruct (Hex 63%nat ltac:(lia)) as (r & Hr & Hri).
  destruct (Hrounds r (nth_error_In _ _ Hr))
    as (_ & a & b & c & d0 & _ & _ & Hfn & _ & Hg & _).
  exists p, blocks, d, s, rs, e, r.
  split; [vm_compute; reflexivity|]. split; [exact Hevents|].
  split; [exact Hblock|]. split; [exact Hr|]. split; [exact Hri|].
  split; [rewrite Hfn, Hri; reflexivity|].
  split; [rewrite Hg, Hri; reflexivity|exact Hafter].
Defined.

(** C5. The event list of a trace is one 'preprocess' event, then for each
    chunk, in order, one 'chunk-start', 64 'round' events with the round
    indices 0 to 63 and one 'chunk-end', then one 'done' event: 1 +
    chunkCount * 66 + 1 events.  The last event is the 'done' event and its
    digest is the digest of the trace. *)
Theorem trace_events_layout (inputValue : list Z) (inputType : string)
    (t : Trace.t) :
  buildMd5Trace inputValue inputType = Returned t ->
  exists p blocks d,
    Trace.events t = EvPreprocess p :: flat_map blockEvents blocks ++ [EvDone d]
    /\ List.length blocks = List.length (Trace.chunks t)
    /\ (forall k s rs e, nth_error blocks k = Some (s, rs, e) ->
          ChunkStart.chunkIndex s = Z.of_nat k
          /\ List.length rs = 64%nat
          /\ ChunkEnd.chunkIndex e = Z.of_nat k
          /\ forall i r, nth_error rs i = Some r ->
               Round.chunkIndex r = Z.of_nat k
               /\ Round.roundIndex r = Z.of_nat i)
    /\ List.length (Trace.events t)
       = (1 + List.length (Trace.chunks t) * 66 + 1)%nat
    /\ last (Trace.events t) (EvPreprocess p) = EvDone d
    /\ Done.digest d = Trace.digest t
    /\ Preprocess.chunkCount p = Z.of_nat (List.length (Trace.chunks t))
    /\ Done.chunkCount d = Z.of_nat (List.length (Trace.chunks t)).
Proof.
  intros Hbuild.
  destruct (trace_blocks _ _ _ Hbuild)
    as (p & blocks & d & Hevents & Hall & Hindex & Hdigest & Hp & Hd).
  exists p, blocks, d.
  pose proof (Forall2_length Hall) as Hlen.
  split; [exact Hevents|]. split; [symmetry; exact Hlen|].
  split.
  { intros k s rs e Hk.
    destruct (Forall2_nth_error_r _ _ _ Hall k _ Hk) as (chunk & Hchunk & Hfor).
    apply Hindex in Hchunk.
    destruct (blockFor_properties chunk s rs e Hfor)
      as (Hs & He & _ & _ & Hrs & Hrounds).
    rewrite Hs, He, Hchunk. repeat (split; [reflexivity || assumption|]).
    intros i r Hi. destruct (Hrounds i r Hi) as (Hri & Hci & _).
    rewrite Hci, Hchunk. split; [reflexivity|exact Hri]. }
  split.
  { rewrite Hevents. cbn [List.length].
    rewrite length_app, (flat_map_blockEvents_length blocks)
      by (eapply blocks_rounds_length, Hall).
    cbn [List.length]. lia. }
  split; [|repeat split; assumption].
  rewrite Hevents, app_comm_cons. apply last_last.
Qed.

Lemma trace_events_layout_witness :
  exists t,
    buildMd5Trace (codeUnits "abc") "text" = Returned t
    /\ List.length (Trace.events t)
       = (1 + List.length (Trace.chunks t) * 66 + 1)%nat.
Proof.
  eexists. split; [vm_compute; reflexivity|].
  edestruct (trace_events_layout (codeUnits "abc") "text"%string)
    as (p & blocks & d & _ & _ & _ & Hcount & _); [vm_compute; reflexivity|].
  exact Hcount.
Defined.

(** C6. In every 'round' event of a trace, [registersAfter[0]] is
    [registersBefore[3]] and [registersAfter[2]] is [registersBefore[1]]. *)
Theorem round_register_rotation (inputValue : list Z) (inputType : string)
    (t : Trace.t) (r : Round.t) :
  buildMd5Trace inputValue inputType = Returned t ->
  In (EvRound r) (Trace.events t) ->
  List.length (Round.registersBefore r) = 4%nat
  /\ List.length (Round.registersAfter r) = 4%nat
  /\ nth_error (Round.registersAfter r) 0 = nth_error (Round.registersBefore r) 3
  /\ nth_error (Round.registersAfter r) 2 = nth_error (Round.registersBefore r) 1.
Proof.
  intros Hbuild Hin.
  destruct (trace_blocks _ _ _ Hbuild) as (p & blocks & d & Hevents & Hall & _).
  rewrite Hevents in Hin.
  destruct (round_event_block _ _ _ _ Hin) as (s & rs & e & j & Hblock & Hj).
  destruct (blocks_In _ _ _ Hall Hblock) as (chunk & _ & Hfor).
  destruct (blockFor_properties chunk s rs e Hfor) as (_ & _ & _ & _ & _ & Hrounds).
  destruct (Hrounds j r Hj)
    as (_ & _ & (a & b & c & d0 & b' & Hbefore & Hafter) & _).
  rewrite Hbefore, Hafter. repeat split; reflexivity.
Qed.

Lemma round_register_rotation_witness :
  exists t r,
    buildMd5Trace (codeUnits "abc") "text" = Returned t
    /\ nth_error (Trace.events t) 20 = Some (EvRound r)
    /\ nth_error (Round.registersAfter r) 0 = nth_error (Round.registersBefore r) 3
    /\ nth_error (Round.registersAfter r) 2 = nth_error (Round.registersBefore r) 1.
Proof.
  eexists. eexists.
  split; [vm_compute; reflexivity|]. split; [vm_compute; reflexivity|].
  eapply (round_register_rotation (codeUnits "abc") "text"%string).
  - vm_compute. reflexivity.
  - apply (nth_error_In _ 20). vm_compute. reflexivity.
Defined.

(** C9. A trace has one block of events per chunk, in order, and at least
    one chunk; every block has the 64 rounds 0 to 63, each at its place.
    The preview digest of a 'round' event is the digest of the state
    obtained by adding, entry by entry modulo 2^32, the hash state that
    entered the chunk and the registers after that round; for round 63 of a
    chunk, which exists, this state is the hash state after the chunk and
    the preview digest is the digest that the 'chunk-end' event of the chunk
    records. *)
Theorem round_preview_digest (inputValue : list Z) (inputType : string)
    (t : Trace.t) :
  buildMd5Trace inputValue inputType = Returned t ->
  exists p blocks d,
    Trace.events t = EvPreprocess p :: flat_map blockEvents blocks ++ [EvDone d]
    /\ List.length blocks = List.length (Trace.chunks t)
    /\ (0 < List.length (Trace.chunks t))%nat
    /\ (forall k chunk,
          nth_error (Trace.chunks t) k = Some chunk ->
          exists s rs e,
            nth_error blocks k = Some (s, rs, e)
            /\ ChunkStart.chunkIndex s = Chunk.index chunk
            /\ ChunkEnd.chunkIndex e = Chunk.index chunk)
    /\ forall s rs e, In (s, rs, e) blocks ->
         List.length rs = 64%nat
         /\ (forall i, (i < 64)%nat ->
               exists r,
                 nth_error rs i = Some r /\ Round.roundIndex r = Z.of_nat i)
         /\ (exists r,
               nth_error rs 63 = Some r
               /\ Round.roundIndex r = 63
               /\ Spec.fold (ChunkStart.hashBefore s)
                    (Spec.registersOf (Round.registersAfter r))
                  = ChunkEnd.hashAfter e
               /\ Round.digestPreview r = ChunkEnd.digestAfterChunk e)
         /\ ChunkEnd.hashBefore e = ChunkStart.hashBefore s
         /\ forall r, In r rs ->
              Round.digestPreview r
              = digestFromState
                  (Spec.fold (ChunkStart.hashBefore s)
                     (Spec.registersOf (Round.registersAfter r)))
              /\ (Round.roundIndex r = 63 ->
                  Spec.fold (ChunkStart.hashBefore s)
                    (Spec.registersOf (Round.registersAfter r))
                  = ChunkEnd.hashAfter e
                  /\ Round.digestPreview r = ChunkEnd.digestAfterChunk e).
Proof.
  intros Hbuild.
  destruct (trace_chunk_blocks _ _ _ Hbuild)
    as (p & blocks & d & Hevents & Hall & Hlen & Hpos & Hchunks).
  exists p, blocks, d. split; [exact Hevents|].
  split; [exact Hlen|]. split; [exact Hpos|].
  split.
  { intros k chunk Hk.
    destruct (Hchunks k chunk Hk) as (s & rs & e & Hb & Hfor).
    exists s, rs, e. split; [exact Hb|].
    destruct (blockFor_properties chunk s rs e Hfor) as (Hs & He & _).
    split; assumption. }
  intros s rs e Hblock.
  destruct (blocks_In _ _ _ Hall Hblock) as (chunk & _ & Hfor).
  destruct (blockFor_rounds chunk s rs e Hfor) as (Hrs & Hex).
  split; [exact Hrs|]. split; [exact Hex|].
  destruct (blockFor_properties chunk s rs e Hfor)
    as (_ & _ & Hbefore & Hdigest & _ & Hrounds).
  split.
  { destruct (Hex 63%nat ltac:(lia)) as (r & Hr & Hri).
    exists r. split; [exact Hr|]. split; [exact Hri|].
    destruct (Hrounds 63%nat r Hr) as (_ & _ & _ & Hpreview & Hlast).
    specialize (Hlast eq_refl). split; [exact Hlast|].
    rewrite Hpreview, Hdigest, Hlast. reflexivity. }
  split; [exact Hbefore|].
  intros r Hr. apply In_nth_error in Hr. destruct Hr as [j Hj].
  destruct (Hrounds j r Hj) as (Hri & _ & _ & Hpreview & Hlast).
  split; [exact Hpreview|].
  intros H63. assert (Hj63 : j = 63%nat) by lia.
  specialize (Hlast Hj63). split; [exact Hlast|].
  rewrite Hpreview, Hdigest, Hlast. reflexivity.
Qed.

Lemma round_preview_digest_witness :
  exists t p blocks d s rs e r,
    buildMd5Trace (codeUnits "abc") "text" = Returned t
    /\ Trace.events t = EvPreprocess p :: flat_map blockEvents blocks ++ [EvDone d]
    /\ nth_error blocks 0 = Some (s, rs, e)
    /\ nth_error rs 63 = Some r
    /\ Round.roundIndex r = 63
    /\ Round.digestPreview r = ChunkEnd.digestAfterChunk e.
Proof.
  eexists.
  edestruct (round_preview_digest (codeUnits "abc") "text"%string)
    as (p & blocks & d & Hevents & _ & _ & Hchunks & Hblocks);
    [vm_compute; reflexivity|].
  edestruct (Hchunks 0%nat) as (s & rs & e & Hblock & _); [reflexivity|].
  destruct (Hblocks s rs e (nth_error_In _ _ Hblock))
    as (_ & _ & (r & Hr & Hri & _ & Hpreview) & _).
  exists p, blocks, d, s, rs, e, r.
  split; [vm_compute; reflexivity|]. split; [exact Hevents|].
  split; [exact Hblock|]. split; [exact Hr|]. split; [exact Hri|exact Hpreview].
Defined.

(** ** Failures *)

Lemma buildMd5Trace_of_bytes inputValue inputType inputBytes :
  parseInputBytes inputValue inputType = Returned inputBytes ->
  exists t,
    buildMd5Trace inputValue inputType = Returned t
    /\ Trace.inputBytes t = inputBytes /\ Trace.inputType t = inputType.
Proof.
  intros Hparse. unfold buildMd5Trace. rewrite Hparse. cbn [bind].
  rewrite padBytes_returns. cbn [bind].
  destruct (chunkLoop _ INITIAL_HASH) as [evs hash].
  eexists. split; [reflexivity|]. split; reflexivity.
Qed.

Lemma buildMd5Trace_thrown inputValue inputType message :
  buildMd5Trace inputValue inputType = Thrown message <->
  parseInputBytes inputValue inputType = Thrown message.
Proof.
  split.
  - intros Hbuild.
    destruct (parseInputBytes inputValue inputType) as [bytes|msg|] eqn:Hparse.
    + destruct (buildMd5Trace_of_bytes _ _ _ Hparse) as (t & Ht & _).
      congruence.
    + unfold buildMd5Trace in Hbuild. rewrite Hparse in Hbuild.
      cbn [bind] in Hbuild. injection Hbuild as ->. reflexivity.
    + unfold buildMd5Trace in Hbuild. rewrite Hparse in Hbuild.
      cbn [bind] in Hbuild. discriminate.
  - intros Hparse. unfold buildMd5Trace. rewrite Hparse. reflexivity.
Qed.

Lemma buildMd5Trace_same_bytes inputValue inputValue' inputType :
  parseInputBytes inputValue inputType = parseInputBytes inputValue' inputType ->
  buildMd5Trace inputValue inputType = buildMd5Trace inputValue' inputType.
Proof. intros Hparse. unfold buildMd5Trace. rewrite Hparse. reflexivity. Qed.

(** C7. In hex mode [buildMd5Trace] throws exactly when, after white space
    is removed, the input has an odd number of units or a unit outside
    [0-9a-fA-F]; inputs "a" and "zz" throw.  A call that throws returns no
    trace.  Nothing else fails: every other hex input and every input of
    another mode returns a trace. *)
Theorem hex_input_errors :
  (forall inputValue,
      (exists message, buildMd5Trace inputValue "hex" = Thrown message)
      <-> Spec.invalidHex inputValue = true)
  /\ (forall inputValue message,
         buildMd5Trace inputValue "hex" = Thrown message ->
         message = "Hex input must contain an even number of digits."%string
         \/ message = "Hex input can only contain 0-9 and a-f."%string)
  /\ (forall inputValue,
         Spec.invalidHex inputValue = false ->
         exists t, buildMd5Trace inputValue "hex" = Returned t)
  /\ buildMd5Trace (codeUnits "a") "hex"
     = Thrown "Hex input must contain an even number of digits."
  /\ buildMd5Trace (codeUnits "zz") "hex"
     = Thrown "Hex input can only contain 0-9 and a-f."
  /\ (forall inputValue inputType,
         inputType <> "hex"%string ->
         exists t, buildMd5Trace inputValue inputType = Returned t).
Proof.
  assert (Hhex : forall inputValue,
             parseInputBytes inputValue "hex" = parseHexInput inputValue)
    by reflexivity.
  split.
  { intros inputValue. pose proof (parseHexInput_outcome inputValue) as Hout.
    split.
    - intros [message Hthrown]. apply buildMd5Trace_thrown in Hthrown.
      rewrite Hhex in Hthrown.
      destruct (Spec.invalidHex inputValue); [reflexivity|].
      destruct Hout as [bytes Hbytes]. congruence.
    - intros Hinvalid. rewrite Hinvalid in Hout.
      destruct Hout as [Hout|Hout]; eexists; apply buildMd5Trace_thrown;
        rewrite Hhex; exact Hout. }
  split.
  { intros inputValue message Hthrown. apply buildMd5Trace_thrown in Hthrown.
    rewrite Hhex in Hthrown.
    pose proof (parseHexInput_outcome inputValue) as Hout.
    destruct (Spec.invalidHex inputValue).
    - destruct Hout as [Hout|Hout]; rewrite Hout in Hthrown;
        injection Hthrown as <-; [left|right]; reflexivity.
    - destruct Hout as [bytes Hbytes]. congruence. }
  split.
  { intros inputValue Hvalid.
    pose proof (parseHexInput_outcome inputValue) as Hout.
    rewrite Hvalid in Hout. destruct Hout as [bytes Hbytes].
    destruct (buildMd5Trace_of_bytes inputValue "hex" bytes) as (t & Ht & _);
      [rewrite Hhex; exact Hbytes|].
    exists t. exact Ht. }
  split; [vm_compute; reflexivity|]. split; [vm_compute; reflexivity|].
  intros inputValue inputType Hmode.
  destruct (buildMd5Trace_of_bytes inputValue inputType (textEncode inputValue))
    as (t & Ht & _).
  - unfold parseInputBytes.
    destruct (String.eqb_spec inputType "hex"); [contradiction|reflexivity].
  - exists t. exact Ht.
Qed.

Lemma hex_input_errors_witness :
  Spec.invalidHex (codeUnits "6 1 6") = true
  /\ exists message, buildMd5Trace (codeUnits "6 1 6") "hex" = Thrown message.
Proof.
  split; [reflexivity|].
  apply (proj2 (proj1 hex_input_errors (codeUnits "6 1 6"))). reflexivity.
Defined.

(** C10, as the code has it.  A hex-mode input that is empty or all white
    space is accepted as the empty byte sequence.  Its trace is the trace of
    the empty text-mode input with the recorded input type 'hex' in place of
    'text' (in the trace and in its 'preprocess' event), and its digest is
    d41d8cd98f00b204e9800998ecf8427e. *)
Theorem hex_blank_input (inputValue : list Z) :
  forallb isWhiteSpace inputValue = true ->
  exists t,
    buildMd5Trace [] "text" = Returned t
    /\ buildMd5Trace inputValue "hex" = Returned (withInputType "hex" t)
    /\ Trace.inputBytes (withInputType "hex" t) = []
    /\ Trace.digest (withInputType "hex" t)
       = "d41d8cd98f00b204e9800998ecf8427e"%string.
Proof.
  intros Hblank.
  assert (Hstrip : stripWhiteSpace inputValue = []).
  { unfold stripWhiteSpace. induction inputValue as [|c rest IH]; [reflexivity|].
    cbn [forallb] in Hblank. apply andb_prop in Hblank.
    destruct Hblank as [Hc Hrest]. cbn [filter]. rewrite Hc. cbn [negb].
    apply IH, Hrest. }
  assert (Hparse : parseInputBytes inputValue "hex" = parseInputBytes [] "hex").
  { change (parseHexInput inputValue = Returned []).
    unfold parseHexInput. rewrite Hstrip. reflexivity. }
  rewrite (buildMd5Trace_same_bytes _ _ _ Hparse).
  eexists. split; [vm_compute; reflexivity|].
  split; [vm_compute; reflexivity|]. split; vm_compute; reflexivity.
Qed.

Lemma hex_blank_input_witness :
  exists t,
    buildMd5Trace [] "text" = Returned t
    /\ buildMd5Trace (codeUnits "   ") "hex" = Returned (withInputType "hex" t).
Proof.
  destruct (hex_blank_input (codeUnits "   ") ltac:(reflexivity))
    as (t & Htext & Hhex & _).
  exists t. split; assumption.
Defined.

(** C10, as the specification states it, fails: the trace of the empty hex
    input is not the trace of the empty text input, since each records its
    input type. *)
Lemma hex_blank_trace_differs :
  returned Trace.inputType (buildMd5Trace (codeUnits "") "hex") = Some "hex"%string
  /\ returned Trace.inputType (buildMd5Trace (codeUnits "") "text")
     = Some "text"%string
  /\ buildMd5Trace (codeUnits "") "hex" <> buildMd5Trace (codeUnits "") "text".
Proof.
  split; [vm_compute; reflexivity|]. split; [vm_compute; reflexivity|].
  intros Heq. apply (f_equal (returned Trace.inputType)) in Heq.
  vm_compute in Heq. discriminate.
Qed.

(** * Further properties of the code *)

(** ** Hexadecimal digits *)

Lemma repeatChar_snoc k c acc :
  (repeatChar (S k) c ++ acc)%string = (repeatChar k c ++ String c acc)%string.
Proof.
  induction k as [|k IH]; [reflexivity|].
  cbn [repeatChar String.append] in *. rewrite <- IH. reflexivity.
Qed.

Lemma hexDigits_zero k acc :
  Ref.hexDigits k 0 acc = (repeatChar k "0"%char ++ acc)%string.
Proof.
  revert acc. induction k as [|k IH]; intros acc; [reflexivity|].
  cbn [Ref.hexDigits]. change (0 / 16) with 0. change (0 mod 16) with 0.
  rewrite IH. change (hexDigit 0) with "0"%char.
  symmetry. apply repeatChar_snoc.
Qed.

Lemma hexDigits_pad j : forall k n acc,
  0 <= n < 16 ^ Z.of_nat j -> (j <= k)%nat ->
  Ref.hexDigits k n acc
  = (repeatChar (k - j) "0"%char ++ Ref.hexDigits j n acc)%string.
Proof.
  induction j as [|j IH]; intros k n acc Hn Hk.
  - assert (n = 0) by (change (16 ^ Z.of_nat 0) with 1 in Hn; lia). subst n.
    rewrite Nat.sub_0_r. apply hexDigits_zero.
  - destruct k as [|k]; [lia|]. cbn [Ref.hexDigits Nat.sub].
    apply IH; [|lia].
    rewrite Nat2Z.inj_succ, Z.pow_succ_r in Hn by lia.
    split; [apply Z.div_pos; lia|apply Z.div_lt_upper_bound; lia].
Qed.

Lemma hexDigits_length k : forall n acc,
  String.length (Ref.hexDigits k n acc) = (k + String.length acc)%nat.
Proof.
  induction k as [|k IH]; intros n acc; [reflexivity|].
  cbn [Ref.hexDigits]. rewrite IH. cbn [String.length]. lia.
Qed.

Lemma toString16_digits_hexDigits fuel : forall n acc,
  0 <= n < 16 ^ Z.of_nat (S fuel) ->
  exists j, (1 <= j <= S fuel)%nat
            /\ n < 16 ^ Z.of_nat j
            /\ (j = 1%nat \/ 16 ^ Z.of_nat (j - 1) <= n)
            /\ toString16_digits (S fuel) n acc = Ref.hexDigits j n acc.
Proof.
  induction fuel as [|fuel IH]; intros n acc Hn.
  - exists 1%nat. change (16 ^ Z.of_nat 1) with 16 in *.
    split; [lia|]. split; [lia|]. split; [left; reflexivity|].
    cbn [toString16_digits Ref.hexDigits]. destruct (n <? 16); reflexivity.
  - remember (S fuel) as fuel' eqn:Hfuel. cbn [toString16_digits].
    destruct (Z.ltb_spec n 16) as [Hsmall|Hbig].
    + exists 1%nat. split; [lia|]. split; [exact Hsmall|].
      split; [left; reflexivity|reflexivity].
    + rewrite Nat2Z.inj_succ, Z.pow_succ_r in Hn by lia.
      destruct (IH (n / 16) (String (hexDigit (n mod 16)) acc))
        as (j & Hj & Hlt & Hmin & Heq).
      { subst fuel'.
        split; [apply Z.div_pos; lia|apply Z.div_lt_upper_bound; lia]. }
      pose proof (Z.div_mod n 16 ltac:(lia)) as Hdiv.
      pose proof (Z.mod_pos_bound n 16 ltac:(lia)) as Hmod.
      exists (S j). split; [lia|]. split.
      * rewrite Nat2Z.inj_succ, Z.pow_succ_r by lia. lia.
      * split; [right|exact Heq].
        replace (S j - 1)%nat with (S (j - 1)) by lia.
        rewrite Nat2Z.inj_succ, Z.pow_succ_r by lia.
        destruct Hmin as [->|Hmin]; [change (16 ^ Z.of_nat (1 - 1)) with 1; lia|lia].
Qed.

Lemma toString16_fuel n :
  0 <= n -> n < 16 ^ Z.of_nat (S (Z.to_nat (Z.log2 n))).
Proof.
  intros Hn. rewrite Nat2Z.inj_succ, Z2Nat.id by apply Z.log2_nonneg.
  destruct (Z.eq_dec n 0) as [->|Hpos]; [reflexivity|].
  destruct (Z.log2_spec n ltac:(lia)) as [_ Hup].
  eapply Z.lt_le_trans; [exact Hup|].
  apply Z.pow_le_mono_l. lia.
Qed.

(** [n.toString(16).padStart(k, '0')] is the [k] digits of [n]. *)
Lemma padStart_toString16_hexDigits k n :
  0 <= n < 16 ^ Z.of_nat k -> (1 <= k)%nat ->
  padStart k "0"%char (toString16 n) = Ref.hexDigits k n EmptyString.
Proof.
  intros Hn Hk. unfold toString16.
  destruct (toString16_digits_hexDigits _ n EmptyString
              (conj (proj1 Hn) (toString16_fuel n (proj1 Hn))))
    as (j & Hj & Hlt & Hmin & Heq).
  rewrite Heq. unfold padStart.
  rewrite hexDigits_length. cbn [String.length]. rewrite Nat.add_0_r.
  assert (Hle : (j <= k)%nat).
  { destruct Hmin as [->|Hmin]; [exact Hk|].
    destruct (le_lt_dec j k) as [Hle|Hgt]; [exact Hle|exfalso].
    assert (16 ^ Z.of_nat k <= 16 ^ Z.of_nat (j - 1))
      by (apply Z.pow_le_mono_r; lia).
    lia. }
  symmetry. apply hexDigits_pad; [lia|exact Hle].
Qed.

Lemma list_ascii_of_string_append s s' :
  list_ascii_of_string (s ++ s')
  = (list_ascii_of_string s ++ list_ascii_of_string s')%list.
Proof.
  induction s as [|c s IH]; [reflexivity|].
  cbn [String.append list_ascii_of_string]. rewrite IH. reflexivity.
Qed.

Lemma allLowerHex_append s s' :
  Spec.allLowerHex (s ++ s') = Spec.allLowerHex s && Spec.allLowerHex s'.
Proof.
  unfold Spec.allLowerHex. rewrite list_ascii_of_string_append.
  apply forallb_app.
Qed.

Lemma hexDigits_lower k : forall n acc,
  Spec.allLowerHex (Ref.hexDigits k n acc) = Spec.allLowerHex acc.
Proof.
  induction k as [|k IH]; intros n acc; [reflexivity|].
  cbn [Ref.hexDigits]. rewrite IH. unfold Spec.allLowerHex.
  cbn [list_ascii_of_string forallb]. rewrite hexDigit_lower. reflexivity.
Qed.

Lemma codeUnits_String c s :
  codeUnits (String c s) = Z.of_nat (nat_of_ascii c) :: codeUnits s.
Proof. reflexivity. Qed.

Lemma codeUnits_append s s' :
  codeUnits (s ++ s') = (codeUnits s ++ codeUnits s')%list.
Proof.
  unfold codeUnits. rewrite list_ascii_of_string_append. apply map_app.
Qed.

(** A digit reads back as its value, and is a digit of the class [0-9a-f]. *)
Lemma hexDigit_value d :
  0 <= d < 16 ->
  hexDigitValue (Z.of_nat (nat_of_ascii (hexDigit d))) = Some d
  /\ isLowerHexDigit (Z.of_nat (nat_of_ascii (hexDigit d))) = true.
Proof.
  intros Hd.
  assert (Hall : forallb (fun d =>
                   match hexDigitValue (Z.of_nat (nat_of_ascii (hexDigit d))) with
                   | Some v => v =? d
                   | None => false
                   end
                   && isLowerHexDigit (Z.of_nat (nat_of_ascii (hexDigit d))))
                   (map Z.of_nat (seq 0 16)) = true) by (vm_compute; reflexivity).
  rewrite forallb_forall in Hall.
  assert (Hin : In d (map Z.of_nat (seq 0 16)))
    by (rewrite <- (Z2Nat.id d) by lia; apply in_map, in_seq; lia).
  specialize (Hall d Hin).
  apply andb_prop in Hall. destruct Hall as [Hv Hl]. split; [|exact Hl].
  destruct (hexDigitValue _) as [v|]; [|discriminate].
  apply Z.eqb_eq in Hv. congruence.
Qed.

Lemma parseDigits16_hexDigits k : forall n acc a,
  0 <= n < 16 ^ Z.of_nat k ->
  parseDigits16 a (codeUnits (Ref.hexDigits k n acc))
  = parseDigits16 (a * 16 ^ Z.of_nat k + n) (codeUnits acc).
Proof.
  induction k as [|k IH]; intros n acc a Hn.
  - change (16 ^ Z.of_nat 0) with 1 in *. f_equal. lia.
  - rewrite Nat2Z.inj_succ, Z.pow_succ_r in * by lia.
    cbn [Ref.hexDigits]. rewrite IH
      by (split; [apply Z.div_pos; lia|apply Z.div_lt_upper_bound; lia]).
    rewrite codeUnits_String. cbn [parseDigits16].
    destruct (hexDigit_value (n mod 16) ltac:(apply Z.mod_pos_bound; lia))
      as [-> _].
    f_equal. pose proof (Z.div_mod n 16 ltac:(lia)). lia.
Qed.

Lemma parseInt16_hexDigits k n :
  0 <= n < 16 ^ Z.of_nat (S k) ->
  parseInt16 (codeUnits (Ref.hexDigits (S k) n EmptyString)) = Some n.
Proof.
  intros Hn.
  pose proof (parseDigits16_hexDigits (S k) n EmptyString 0 Hn) as Hparse.
  cbn [codeUnits list_ascii_of_string map parseDigits16] in Hparse.
  change (codeUnits (Ref.hexDigits (S k) n EmptyString))
    with (map (fun c => Z.of_nat (nat_of_ascii c))
              (list_ascii_of_string (Ref.hexDigits (S k) n EmptyString))) in *.
  rewrite Z.mul_0_l, Z.add_0_l in Hparse.
  assert (Hfirst : forall j m acc,
             exists d rest, 0 <= d < 16
               /\ Ref.hexDigits (S j) m acc = String (hexDigit d) rest).
  { induction j as [|j IHj]; intros m acc.
    - exists (m mod 16), acc. split; [apply Z.mod_pos_bound; lia|reflexivity].
    - cbn [Ref.hexDigits]. apply (IHj (m / 16)). }
  destruct (Hfirst k n EmptyString) as (d & rest & Hd & Heq).
  rewrite Heq in *. cbn [list_ascii_of_string map] in *.
  unfold parseInt16.
  destruct (hexDigit_value d Hd) as [-> _]. f_equal. exact Hparse.
Qed.

Lemma toHex32_hexDigits value :
  toHex32 value = Ref.hexDigits 8 (value mod 2 ^ 32) EmptyString.
Proof.
  unfold toHex32, JS.toUint32. change JS.two32 with (2 ^ 32).
  apply padStart_toString16_hexDigits; [|lia].
  change (16 ^ Z.of_nat 8) with (2 ^ 32). apply Z.mod_pos_bound. lia.
Qed.

(** X1. [toHex32] writes a number as exactly 8 lower-case hexadecimal digits
    that read back, by [parseInt(_, 16)], as the number modulo 2^32; two
    numbers get the same digits exactly when they are equal modulo 2^32.
    [formatWord] is these digits after "0x", 10 characters. *)
Theorem toHex32_digits (value other : Z) :
  String.length (toHex32 value) = 8%nat
  /\ Spec.allLowerHex (toHex32 value) = true
  /\ parseInt16 (codeUnits (toHex32 value)) = Some (value mod 2 ^ 32)
  /\ (toHex32 value = toHex32 other <-> value mod 2 ^ 32 = other mod 2 ^ 32)
  /\ formatWord value = ("0x" ++ toHex32 value)%string
  /\ String.length (formatWord value) = 10%nat.
Proof.
  assert (Hparse : forall v, parseInt16 (codeUnits (toHex32 v)) = Some (v mod 2 ^ 32)).
  { intros v. rewrite toHex32_hexDigits. apply parseInt16_hexDigits.
    change (16 ^ Z.of_nat 8) with (2 ^ 32). apply Z.mod_pos_bound. lia. }
  assert (Hlen : String.length (toHex32 value) = 8%nat)
    by (rewrite toHex32_hexDigits; apply hexDigits_length).
  split; [exact Hlen|].
  split; [rewrite toHex32_hexDigits; apply hexDigits_lower|].
  split; [apply Hparse|]. split.
  - split.
    + intros Heq. pose proof (Hparse value) as H1. rewrite Heq, Hparse in H1.
      congruence.
    + intros Heq. rewrite !toHex32_hexDigits, Heq. reflexivity.
  - split; [reflexivity|]. unfold formatWord. cbn [String.append String.length].
    rewrite Hlen. reflexivity.
Qed.

Lemma hexDigits_byte k n acc :
  Ref.hexDigits (S (S k)) n acc
  = Ref.hexDigits k (n / 256) (Spec.hexByte (n mod 256) ++ acc).
Proof.
  cbn [Ref.hexDigits Spec.hexByte String.append].
  replace (n / 16 / 16) with (n / 256) by (Z.div_mod_to_equations; lia).
  replace (n mod 256 / 16) with ((n / 16) mod 16)
    by (Z.div_mod_to_equations; lia).
  replace ((n mod 256) mod 16) with (n mod 16) by (Z.div_mod_to_equations; lia).
  reflexivity.
Qed.

Lemma hexByte_length b : String.length (Spec.hexByte b) = 2%nat.
Proof. reflexivity. Qed.

(** X2. The digest writes a word with its bytes in the opposite order of
    [toHex32]: the four 2-digit groups of [wordToHexLittleEndian word] are
    those of [toHex32 word], last group first. *)
Theorem toHex32_reverses_bytes (word : Z) :
  exists h0 h1 h2 h3 : string,
    String.length h0 = 2%nat /\ String.length h1 = 2%nat
    /\ String.length h2 = 2%nat /\ String.length h3 = 2%nat
    /\ wordToHexLittleEndian word = (h0 ++ h1 ++ h2 ++ h3)%string
    /\ toHex32 word = (h3 ++ h2 ++ h1 ++ h0)%string.
Proof.
  exists (Spec.hexByte (word mod 256)), (Spec.hexByte ((word / 256) mod 256)),
    (Spec.hexByte ((word / 65536) mod 256)),
    (Spec.hexByte ((word / 16777216) mod 256)).
  do 4 (split; [reflexivity|]). split.
  - rewrite wordToHexLittleEndian_format. reflexivity.
  - rewrite toHex32_hexDigits. rewrite !hexDigits_byte. cbn [Ref.hexDigits].
    change (2 ^ 32) with 4294967296.
    replace (word mod 4294967296 / 256 / 256 / 256 mod 256)
      with ((word / 16777216) mod 256) by (Z.div_mod_to_equations; lia).
    replace (word mod 4294967296 / 256 / 256 mod 256)
      with ((word / 65536) mod 256) by (Z.div_mod_to_equations; lia).
    replace (word mod 4294967296 / 256 mod 256)
      with ((word / 256) mod 256) by (Z.div_mod_to_equations; lia).
    replace ((word mod 4294967296) mod 256)
      with (word mod 256) by (Z.div_mod_to_equations; lia).
    reflexivity.
Qed.

(** ** Bytes into words *)

Lemma byte_testbit_high b i : Ref.byte b -> 8 <= i -> Z.testbit b i = false.
Proof.
  intros Hb Hi. rewrite <- (Z.mod_small b (2 ^ 8)) by exact Hb.
  apply Z.mod_pow2_bits_high. lia.
Qed.

Lemma testbit_toInt32_below x i :
  i < 32 -> Z.testbit (JS.toInt32 x) i = Z.testbit x i.
Proof.
  intros Hi. destruct (Z_lt_ge_dec i 0).
  - rewrite !Z.testbit_neg_r by lia. reflexivity.
  - apply testbit_toInt32. lia.
Qed.

Lemma lor_shiftl_add lo hi k :
  0 <= k -> 0 <= lo < 2 ^ k -> Z.lor lo (Z.shiftl hi k) = lo + hi * 2 ^ k.
Proof.
  intros Hk Hlo.
  assert (Hland : Z.land lo (Z.shiftl hi k) = 0).
  { apply Z.bits_inj'. intros i Hi. rewrite Z.land_spec, Z.bits_0.
    destruct (Z_lt_ge_dec i k).
    - rewrite Z.shiftl_spec, (Z.testbit_neg_r hi) by lia. apply andb_false_r.
    - rewrite <- (Z.mod_small lo (2 ^ k)) by exact Hlo.
      rewrite Z.mod_pow2_bits_high by lia. reflexivity. }
  rewrite <- Z.lxor_lor by exact Hland.
  rewrite <- Z.add_nocarry_lxor by exact Hland.
  rewrite Z.shiftl_mul_pow2 by exact Hk. reflexivity.
Qed.

Lemma nth_byte bytes n : Forall Ref.byte bytes -> Ref.byte (nth n bytes 0).
Proof.
  intros Hall. destruct (nth_in_or_default n bytes 0) as [Hin| ->].
  - rewrite Forall_forall in Hall. apply Hall, Hin.
  - unfold Ref.byte. lia.
Qed.

Lemma littleEndian_word b0 b1 b2 b3 :
  Ref.byte b0 -> Ref.byte b1 -> Ref.byte b2 -> Ref.byte b3 ->
  JS.toUint32
    (JS.or (JS.or (JS.or b0 (JS.shl b1 8)) (JS.shl b2 16)) (JS.shl b3 24))
  = b0 + 256 * b1 + 65536 * b2 + 16777216 * b3.
Proof.
  intros H0 H1 H2 H3. unfold Ref.byte in *.
  assert (Heq : b0 + 256 * b1 + 65536 * b2 + 16777216 * b3
                = Z.lor (Z.lor (Z.lor b0 (Z.shiftl b1 8)) (Z.shiftl b2 16))
                    (Z.shiftl b3 24)).
  { rewrite (lor_shiftl_add b0 b1 8) by lia.
    rewrite (lor_shiftl_add _ b2 16) by (change (2 ^ 8) with 256; change (2 ^ 16) with 65536; lia).
    rewrite (lor_shiftl_add _ b3 24)
      by (change (2 ^ 8) with 256; change (2 ^ 16) with 65536;
          change (2 ^ 24) with 16777216; lia).
    change (2 ^ 8) with 256. change (2 ^ 16) with 65536.
    change (2 ^ 24) with 16777216. lia. }
  rewrite Heq. apply toUint32_bits.
  - rewrite <- Heq. unfold Spec.uint32. lia.
  - intros i Hi. unfold JS.shl.
    change (8 mod 32) with 8. change (16 mod 32) with 16.
    change (24 mod 32) with 24.
    js_bits. rewrite !Z.shiftl_spec by lia.
    rewrite !testbit_toInt32_below by lia. reflexivity.
Qed.

Lemma bytesToWord_sum bytes offset :
  Forall Ref.byte bytes ->
  bytesToWordLittleEndian bytes offset
  = nth offset bytes 0 + 256 * nth (offset + 1) bytes 0
    + 65536 * nth (offset + 2) bytes 0 + 16777216 * nth (offset + 3) bytes 0.
Proof. intros Hall. apply littleEndian_word; apply nth_byte, Hall. Qed.

(** X3. On an array of bytes, [bytesToWordLittleEndian] at [offset] is
    bytes[offset] + 2^8 bytes[offset+1] + 2^16 bytes[offset+2]
    + 2^24 bytes[offset+3], a byte missing past the end of the array counting
    as 0: the signed shifts and ors never change the value, the result is an
    unsigned 32-bit number, and it is 0 from the end of the array on. *)
Theorem bytesToWordLittleEndian_value (bytes : list Z) (offset : nat) :
  Forall Ref.byte bytes ->
  bytesToWordLittleEndian bytes offset
  = nth offset bytes 0 + 256 * nth (offset + 1) bytes 0
    + 65536 * nth (offset + 2) bytes 0 + 16777216 * nth (offset + 3) bytes 0
  /\ Spec.uint32 (bytesToWordLittleEndian bytes offset)
  /\ ((List.length bytes <= offset)%nat ->
      bytesToWordLittleEndian bytes offset = 0).
Proof.
  intros Hall.
  pose proof (bytesToWord_sum bytes offset Hall) as Hval.
  split; [exact Hval|]. split; [apply toUint32_range|].
  intros Hshort. rewrite Hval. rewrite !nth_overflow by lia. reflexivity.
Qed.

Lemma bytesToWordLittleEndian_value_witness :
  bytesToWordLittleEndian [1; 2; 3; 4; 5] 1 = 2 + 256 * 3 + 65536 * 4 + 16777216 * 5
  /\ bytesToWordLittleEndian [1; 2; 3; 4; 5] 3 = 4 + 256 * 5
  /\ bytesToWordLittleEndian [1; 2; 3; 4; 5] 5 = 0.
Proof.
  assert (Hall : Forall Ref.byte [1; 2; 3; 4; 5])
    by (repeat constructor; unfold Ref.byte; lia).
  split; [exact (proj1 (bytesToWordLittleEndian_value _ 1 Hall))|].
  split; [exact (proj1 (bytesToWordLittleEndian_value _ 3 Hall))|].
  apply (bytesToWordLittleEndian_value _ 5 Hall). simpl. lia.
Defined.

Lemma littleEndian4_sum w :
  Spec.uint32 w ->
  w mod 256 + 256 * ((w / 256) mod 256) + 65536 * ((w / 65536) mod 256)
  + 16777216 * ((w / 16777216) mod 256) = w.
Proof. unfold Spec.uint32. intros Hw. Z.div_mod_to_equations. lia. Qed.

Lemma littleEndian4_of_sum b0 b1 b2 b3 :
  Ref.byte b0 -> Ref.byte b1 -> Ref.byte b2 -> Ref.byte b3 ->
  Spec.littleEndian4 (b0 + 256 * b1 + 65536 * b2 + 16777216 * b3)
  = [b0; b1; b2; b3].
Proof.
  unfold Ref.byte, Spec.littleEndian4. intros H0 H1 H2 H3.
  repeat f_equal; Z.div_mod_to_equations; lia.
Qed.

Lemma littleEndian4_bytes w : Forall Ref.byte (Spec.littleEndian4 w).
Proof.
  unfold Spec.littleEndian4, Ref.byte.
  repeat constructor; apply Z.mod_pos_bound; lia.
Qed.

(** X4. Bytes and words convert back and forth: the word read from the 4
    bytes [b0 b1 b2 b3] is written by [wordToHexLittleEndian] as the hex of
    these bytes in the same order, and the word read from the 4 little-endian
    bytes of [word] is [word] modulo 2^32. *)
Theorem word_bytes_round_trip (b0 b1 b2 b3 word : Z) :
  Ref.byte b0 -> Ref.byte b1 -> Ref.byte b2 -> Ref.byte b3 ->
  wordToHexLittleEndian (bytesToWordLittleEndian [b0; b1; b2; b3] 0)
  = join (map (fun b => padStart 2 "0"%char (toString16 b)) [b0; b1; b2; b3])
  /\ bytesToWordLittleEndian (Spec.littleEndian4 word) 0 = word mod 2 ^ 32.
Proof.
  intros H0 H1 H2 H3. split.
  - rewrite wordToHexLittleEndian_format.
    rewrite (bytesToWord_sum [b0; b1; b2; b3] 0)
      by (repeat (constructor; [assumption|]); constructor).
    cbn [nth Nat.add]. rewrite littleEndian4_of_sum by assumption.
    cbn [map]. rewrite !padStart_toString16 by assumption. reflexivity.
  - rewrite (bytesToWord_sum (Spec.littleEndian4 word) 0
               (littleEndian4_bytes word)).
    cbn [Spec.littleEndian4 nth Nat.add]. Z.div_mod_to_equations. lia.
Qed.

Lemma word_bytes_round_trip_witness :
  wordToHexLittleEndian (bytesToWordLittleEndian [97; 98; 99; 128] 0)
  = "61626380"%string.
Proof.
  refine (eq_trans
            (proj1 (word_bytes_round_trip 97 98 99 128 0 _ _ _ _)) _);
    try (unfold Ref.byte; lia).
  vm_compute. reflexivity.
Defined.

(** ** Hex strings read back *)

Lemma lowerHex_cases c :
  isLowerHexDigit c = true -> 48 <= c <= 57 \/ 97 <= c <= 102.
Proof.
  unfold isLowerHexDigit. intros Hc. apply orb_prop in Hc.
  destruct Hc as [Hc|Hc]; apply andb_prop in Hc; destruct Hc as [H1 H2];
    apply Z.leb_le in H1, H2; lia.
Qed.

Lemma lowerHex_not_white c : isLowerHexDigit c = true -> isWhiteSpace c = false.
Proof.
  intros Hc. apply lowerHex_cases in Hc. unfold isWhiteSpace. char_cases.
Qed.

Lemma lowerHex_toLowerCaseUnit c :
  isLowerHexDigit c = true -> toLowerCaseUnit c = [c].
Proof.
  intros Hc. apply lowerHex_cases in Hc. unfold toLowerCaseUnit.
  destruct (Z.leb_spec 65 c); destruct (Z.leb_spec c 90); cbn [andb]; try lia;
    destruct (Z.eqb_spec c 304); try lia;
    destruct (Z.eqb_spec c 8490); try lia; reflexivity.
Qed.

Lemma lowerHex_strip l :
  forallb isLowerHexDigit l = true -> stripWhiteSpace l = l.
Proof.
  induction l as [|c l IH]; [reflexivity|]. cbn [forallb]. intros Hall.
  apply andb_prop in Hall. destruct Hall as [Hc Hl].
  unfold stripWhiteSpace in *. cbn [filter].
  rewrite (lowerHex_not_white c Hc). cbn [negb]. rewrite IH by exact Hl.
  reflexivity.
Qed.

Lemma lowerHex_toLowerCase l :
  forallb isLowerHexDigit l = true -> toLowerCase l = l.
Proof.
  induction l as [|c l IH]; [reflexivity|]. cbn [forallb]. intros Hall.
  apply andb_prop in Hall. destruct Hall as [Hc Hl].
  unfold toLowerCase in *. cbn [flat_map].
  rewrite (lowerHex_toLowerCaseUnit c Hc), IH by exact Hl. reflexivity.
Qed.

Lemma hexByte_units b :
  Ref.byte b ->
  exists u1 u2,
    codeUnits (Spec.hexByte b) = [u1; u2]
    /\ isLowerHexDigit u1 = true /\ isLowerHexDigit u2 = true
    /\ parseInt16 [u1; u2] = Some b.
Proof.
  intros Hb. unfold Ref.byte in Hb.
  exists (Z.of_nat (nat_of_ascii (hexDigit (b / 16)))),
    (Z.of_nat (nat_of_ascii (hexDigit (b mod 16)))).
  split; [reflexivity|].
  assert (H1 : 0 <= b / 16 < 16) by (Z.div_mod_to_equations; lia).
  assert (H2 : 0 <= b mod 16 < 16) by (apply Z.mod_pos_bound; lia).
  destruct (hexDigit_value _ H1) as [Hv1 Hl1].
  destruct (hexDigit_value _ H2) as [Hv2 Hl2].
  split; [exact Hl1|]. split; [exact Hl2|].
  unfold parseInt16. rewrite Hv1. cbn [parseDigits16]. rewrite Hv1, Hv2.
  f_equal. Z.div_mod_to_equations. lia.
Qed.

(** The digits of bytes, written without separator. *)
Lemma hexBytes_units bytes :
  Forall Ref.byte bytes ->
  forallb isLowerHexDigit (codeUnits (join (map Spec.hexByte bytes))) = true
  /\ List.length (codeUnits (join (map Spec.hexByte bytes)))
     = (2 * List.length bytes)%nat
  /\ parseHexPairs (codeUnits (join (map Spec.hexByte bytes))) = Returned bytes.
Proof.
  induction 1 as [|b bytes Hb Hall IH]; [repeat split|].
  destruct IH as (Hlower & Hlen & Hparse).
  destruct (hexByte_units b Hb) as (u1 & u2 & Hunits & H1 & H2 & Hvalue).
  cbn [map join fold_right]. fold (join (map Spec.hexByte bytes)).
  rewrite codeUnits_append, Hunits. cbn [app].
  split; [cbn [forallb]; rewrite H1, H2, Hlower; reflexivity|].
  split; [cbn [List.length]; rewrite Hlen; lia|].
  cbn [parseHexPairs]. rewrite Hvalue, Hparse. reflexivity.
Qed.

Lemma parseHexInput_hexBytes bytes :
  Forall Ref.byte bytes ->
  parseHexInput (codeUnits (join (map Spec.hexByte bytes))) = Returned bytes.
Proof.
  intros Hall. destruct (hexBytes_units bytes Hall) as (Hlower & Hlen & Hparse).
  unfold parseHexInput.
  rewrite (lowerHex_strip _ Hlower), (lowerHex_toLowerCase _ Hlower), Hlen.
  destruct bytes as [|b bytes]; [reflexivity|].
  replace (2 * List.length (b :: bytes) =? 0)%nat with false
    by (symmetry; apply Nat.eqb_neq; cbn [List.length]; lia).
  replace (Nat.even (2 * List.length (b :: bytes))) with true
    by (symmetry; apply Nat.even_spec; exists (List.length (b :: bytes)); reflexivity).
  cbn [negb].
  replace (existsb (fun c => negb (isLowerHexDigit c))
             (codeUnits (join (map Spec.hexByte (b :: bytes))))) with false.
  - exact Hparse.
  - symmetry. apply not_true_is_false. intros Hex.
    apply existsb_exists in Hex. destruct Hex as (c & Hin & Hc).
    rewrite forallb_forall in Hlower. rewrite (Hlower c Hin) in Hc. discriminate.
Qed.

Lemma stripWhiteSpace_idempotent value :
  stripWhiteSpace (stripWhiteSpace value) = stripWhiteSpace value.
Proof.
  unfold stripWhiteSpace. induction value as [|c value IH]; [reflexivity|].
  cbn [filter]. destruct (isWhiteSpace c) eqn:Hc; cbn [negb filter];
    [exact IH|]. rewrite Hc. cbn [negb]. rewrite IH. reflexivity.
Qed.

Lemma parseHexInput_strip value value' :
  stripWhiteSpace value = stripWhiteSpace value' ->
  parseHexInput value = parseHexInput value'.
Proof. intros Heq. unfold parseHexInput. rewrite Heq. reflexivity. Qed.

Lemma stripWhiteSpace_app u v :
  stripWhiteSpace (u ++ v) = stripWhiteSpace u ++ stripWhiteSpace v.
Proof. apply filter_app. Qed.

Lemma stripWhiteSpace_blank w :
  forallb isWhiteSpace w = true -> stripWhiteSpace w = [].
Proof.
  induction w as [|c w IH]; [reflexivity|]. cbn [forallb]. intros Hall.
  apply andb_prop in Hall. destruct Hall as [Hc Hw].
  unfold stripWhiteSpace in *. cbn [filter]. rewrite Hc. cbn [negb].
  apply IH, Hw.
Qed.

(** X5. White space anywhere in a hex input changes nothing: with a run of
    white-space characters inserted at any position, [parseHexInput] returns
    the same bytes, or throws the same error. *)
Theorem parseHexInput_ignores_white_space (before blank after : list Z) :
  forallb isWhiteSpace blank = true ->
  parseHexInput (before ++ blank ++ after) = parseHexInput (before ++ after).
Proof.
  intros Hblank. apply parseHexInput_strip.
  rewrite !stripWhiteSpace_app, (stripWhiteSpace_blank blank Hblank).
  reflexivity.
Qed.

Lemma parseHexInput_ignores_white_space_witness :
  parseHexInput (codeUnits "6" ++ [32; 9; 10; 160] ++ codeUnits "1")
  = Returned [97].
Proof.
  rewrite (parseHexInput_ignores_white_space (codeUnits "6") [32; 9; 10; 160]
             (codeUnits "1")) by reflexivity.
  reflexivity.
Defined.

Lemma string_append_assoc (s1 s2 s3 : string) :
  ((s1 ++ s2) ++ s3 = s1 ++ (s2 ++ s3))%string.
Proof.
  induction s1 as [|c s1 IH]; [reflexivity|].
  cbn [String.append]. rewrite IH. reflexivity.
Qed.

Lemma string_append_empty_r (s : string) : (s ++ EmptyString)%string = s.
Proof.
  induction s as [|c s IH]; [reflexivity|].
  cbn [String.append]. rewrite IH. reflexivity.
Qed.

Lemma join_app parts parts' :
  join (parts ++ parts') = (join parts ++ join parts')%string.
Proof.
  induction parts as [|p parts IH]; [reflexivity|].
  cbn [app join fold_right]. fold (join (parts ++ parts')). fold (join parts).
  rewrite IH. symmetry. apply string_append_assoc.
Qed.

Lemma formatDigest_bytes state :
  Spec.formatDigest state
  = join (map Spec.hexByte (flat_map Spec.littleEndian4 state)).
Proof.
  unfold Spec.formatDigest. induction state as [|w state IH]; [reflexivity|].
  cbn [map flat_map join fold_right]. rewrite map_app, join_app.
  fold (join (map (fun w => join (map Spec.hexByte (Spec.littleEndian4 w))) state)).
  rewrite IH. reflexivity.
Qed.

Lemma flat_map_littleEndian4_bytes state :
  Forall Ref.byte (flat_map Spec.littleEndian4 state).
Proof.
  induction state as [|w state IH]; [constructor|].
  cbn [flat_map]. apply Forall_app. split; [apply littleEndian4_bytes|exact IH].
Qed.

Lemma digest_read_back state :
  hashState state ->
  parseHexInput (codeUnits (digestFromState state))
  = Returned (flat_map Spec.littleEndian4 state)
  /\ List.length (flat_map Spec.littleEndian4 state) = 16%nat
  /\ map (fun k =>
            bytesToWordLittleEndian (flat_map Spec.littleEndian4 state) (4 * k))
         (seq 0 4) = state.
Proof.
  intros [Hlen Hall].
  split.
  { rewrite digestFromState_format, formatDigest_bytes.
    apply parseHexInput_hexBytes, flat_map_littleEndian4_bytes. }
  destruct state as [|h0 [|h1 [|h2 [|h3 [|]]]]]; try discriminate.
  split; [reflexivity|].
  repeat match goal with
         | H : Forall _ (_ :: _) |- _ => inversion_clear H
         end.
  cbn [seq map Nat.mul Nat.add].
  rewrite !(bytesToWord_sum _ _ (flat_map_littleEndian4_bytes [h0; h1; h2; h3])).
  cbn [flat_map Spec.littleEndian4 app nth Nat.add].
  rewrite !littleEndian4_sum by assumption. reflexivity.
Qed.

(** X6. A digest determines its hash state.  Read as hex input, the digest of
    a hash state (4 unsigned 32-bit words) parses to 16 bytes whose 4
    little-endian words are the state; so two hash states with the same
    digest are equal. *)
Theorem digest_round_trip (state : list Z) :
  hashState state ->
  (exists bytes,
      parseHexInput (codeUnits (digestFromState state)) = Returned bytes
      /\ List.length bytes = 16%nat
      /\ map (fun k => bytesToWordLittleEndian bytes (4 * k)) (seq 0 4) = state)
  /\ (forall state',
         hashState state' ->
         digestFromState state = digestFromState state' -> state = state').
Proof.
  intros Hstate. destruct (digest_read_back state Hstate) as (Hparse & Hlen & Hwords).
  split; [eexists; split; [exact Hparse|split; [exact Hlen|exact Hwords]]|].
  intros state' Hstate' Heq.
  destruct (digest_read_back state' Hstate') as (Hparse' & _ & Hwords').
  rewrite Heq, Hparse' in Hparse. injection Hparse as Hbytes.
  rewrite <- Hwords, <- Hwords', Hbytes. reflexivity.
Qed.

Lemma digest_round_trip_witness :
  exists bytes,
    parseHexInput (codeUnits (digestFromState INITIAL_HASH)) = Returned bytes
    /\ map (fun k => bytesToWordLittleEndian bytes (4 * k)) (seq 0 4)
       = INITIAL_HASH.
Proof.
  destruct (digest_round_trip INITIAL_HASH INITIAL_HASH_hashState)
    as ((bytes & Hparse & _ & Hwords) & _).
  exists bytes. split; assumption.
Defined.

(** ** What hex input gives *)

Lemma toLowerCase_nil s : toLowerCase s = [] -> s = [].
Proof.
  destruct s as [|c s]; [reflexivity|]. intros Heq.
  exfalso. exact (toLowerCase_nonempty c s Heq).
Qed.

(** X7. When [parseHexInput] returns, every byte is between 0 and 255 (no
    byte is NaN), there is one byte for every 2 characters that are left
    after white space is removed, and all of these are hex digits. *)
Theorem parseHexInput_bytes (value bytes : list Z) :
  parseHexInput value = Returned bytes ->
  Forall Ref.byte bytes
  /\ List.length (stripWhiteSpace value) = (2 * List.length bytes)%nat
  /\ forallb Spec.isHexDigit (stripWhiteSpace value) = true.
Proof.
  unfold parseHexInput. set (s := stripWhiteSpace value).
  pose proof (toLowerCase_hex s) as Hhex.
  destruct (Nat.eqb_spec (List.length (toLowerCase s)) 0) as [Hzero|Hpos].
  - intros Heq. injection Heq as <-.
    apply length_zero_iff_nil, toLowerCase_nil in Hzero. rewrite Hzero.
    repeat split. constructor.
  - destruct (Nat.even (List.length (toLowerCase s))) eqn:Heven; cbn [negb];
      [|discriminate].
    destruct (existsb (fun c => negb (isLowerHexDigit c)) (toLowerCase s))
      eqn:Hbad; [discriminate|].
    intros Hparse. symmetry in Hhex.
    apply Nat.even_spec in Heven. destruct Heven as [n Hn].
    destruct (parseHexPairs_returns n (toLowerCase s) Hn
                (existsb_negb_forallb _ _ Hbad)) as (bytes' & Hbytes & Hlen & Hrange).
    rewrite Hbytes in Hparse. injection Hparse as <-.
    split; [exact Hrange|].
    split; [rewrite <- (toLowerCase_length s Hhex), Hn, Hlen; reflexivity|].
    apply existsb_negb_forallb, Hhex.
Qed.

Lemma parseHexInput_bytes_witness :
  Forall Ref.byte [222; 173]
  /\ List.length (stripWhiteSpace (codeUnits "DE ad")) = 4%nat.
Proof.
  destruct (parseHexInput_bytes (codeUnits "DE ad") [222; 173] ltac:(reflexivity))
    as (Hrange & Hlen & _).
  split; [exact Hrange|exact Hlen].
Defined.

(** ** The byte view of the page, read as hex input *)

Lemma hexByte_strip b :
  Ref.byte b ->
  stripWhiteSpace (codeUnits (Spec.hexByte b)) = codeUnits (Spec.hexByte b).
Proof.
  intros Hb. destruct (hexByte_units b Hb) as (u1 & u2 & -> & H1 & H2 & _).
  apply lowerHex_strip. cbn [forallb]. rewrite H1, H2. reflexivity.
Qed.

Lemma joinWith_space_strip bytes :
  Forall Ref.byte bytes ->
  stripWhiteSpace (codeUnits (joinWith " " (map Spec.hexByte bytes)))
  = codeUnits (join (map Spec.hexByte bytes)).
Proof.
  induction 1 as [|b bytes Hb Hall IH]; [reflexivity|].
  destruct bytes as [|b' bytes].
  - cbn [map joinWith join fold_right].
    rewrite string_append_empty_r. apply hexByte_strip, Hb.
  - change (joinWith " " (map Spec.hexByte (b :: b' :: bytes)))
      with (Spec.hexByte b ++ " " ++ joinWith " " (map Spec.hexByte (b' :: bytes)))%string.
    change (join (map Spec.hexByte (b :: b' :: bytes)))
      with (Spec.hexByte b ++ join (map Spec.hexByte (b' :: bytes)))%string.
    rewrite !codeUnits_append, !stripWhiteSpace_app, IH, (hexByte_strip b Hb).
    reflexivity.
Qed.

Lemma Forall_firstn {A : Type} (P : A -> Prop) n l :
  Forall P l -> Forall P (firstn n l).
Proof.
  intros Hall. rewrite <- (firstn_skipn n l) in Hall.
  apply Forall_app in Hall. apply Hall.
Qed.

Lemma formatBytes_view bytes maxBytes :
  Forall Ref.byte bytes -> bytes <> [] ->
  formatBytes bytes maxBytes
  = (joinWith " " (map Spec.hexByte (firstn maxBytes bytes))
     ++ (if (maxBytes <? List.length bytes)%nat then " ..." else ""))%string.
Proof.
  intros Hall Hne. unfold formatBytes.
  destruct bytes as [|b bytes]; [contradiction|].
  cbn [List.length Nat.eqb]. do 2 f_equal.
  apply map_ext_in. intros x Hx. apply padStart_toString16.
  pose proof (Forall_firstn _ maxBytes _ Hall) as Hview.
  rewrite Forall_forall in Hview. apply Hview, Hx.
Qed.

(** X8. The page's rendering of a byte array is valid hex input for the same
    bytes: when the array is not empty and is shown whole (no more than
    [maxBytes] bytes), [parseHexInput] of [formatBytes bytes maxBytes]
    returns [bytes]. *)
Theorem formatBytes_read_back (bytes : list Z) (maxBytes : nat) :
  Forall Ref.byte bytes -> bytes <> [] ->
  (List.length bytes <= maxBytes)%nat ->
  parseHexInput (codeUnits (formatBytes bytes maxBytes)) = Returned bytes.
Proof.
  intros Hall Hne Hlen. rewrite (formatBytes_view bytes maxBytes Hall Hne).
  replace (maxBytes <? List.length bytes)%nat with false
    by (symmetry; apply Nat.ltb_ge; exact Hlen).
  rewrite string_append_empty_r, firstn_all2 by exact Hlen.
  rewrite <- (parseHexInput_hexBytes bytes Hall).
  apply parseHexInput_strip.
  rewrite (joinWith_space_strip bytes Hall).
  symmetry. apply lowerHex_strip. apply (hexBytes_units bytes Hall).
Qed.

Lemma formatBytes_read_back_witness :
  parseHexInput (codeUnits (formatBytes [97; 98; 99; 128; 0] 64))
  = Returned [97; 98; 99; 128; 0].
Proof.
  apply formatBytes_read_back.
  - repeat (constructor; [unfold Ref.byte; lia|]). constructor.
  - discriminate.
  - simpl. lia.
Defined.

Lemma toLowerCase_app u v : toLowerCase (u ++ v) = toLowerCase u ++ toLowerCase v.
Proof. apply flat_map_app. Qed.

(** X9. The other two renderings of [formatBytes] are not hex input: for the
    empty array ("(empty)") and for an array cut at [maxBytes] (the suffix
    " ..."), [parseHexInput] throws the even-number-of-digits error. *)
Theorem formatBytes_not_read_back (bytes : list Z) (maxBytes : nat) :
  Forall Ref.byte bytes ->
  bytes = [] \/ (maxBytes < List.length bytes)%nat ->
  parseHexInput (codeUnits (formatBytes bytes maxBytes))
  = Thrown "Hex input must contain an even number of digits.".
Proof.
  intros Hall [->|Hlong]; [reflexivity|].
  assert (Hne : bytes <> []) by (destruct bytes; [simpl in Hlong; lia|discriminate]).
  rewrite (formatBytes_view bytes maxBytes Hall Hne).
  replace (maxBytes <? List.length bytes)%nat with true
    by (symmetry; apply Nat.ltb_lt; exact Hlong).
  pose proof (Forall_firstn _ maxBytes _ Hall) as Hview.
  destruct (hexBytes_units _ Hview) as (Hlower & Hlen & _).
  unfold parseHexInput.
  rewrite codeUnits_append, stripWhiteSpace_app, (joinWith_space_strip _ Hview).
  change (stripWhiteSpace (codeUnits " ...")) with [46; 46; 46].
  rewrite toLowerCase_app, (lowerHex_toLowerCase _ Hlower).
  change (toLowerCase [46; 46; 46]) with [46; 46; 46].
  rewrite length_app, Hlen. cbn [List.length].
  replace (2 * List.length (firstn maxBytes bytes) + 3 =? 0)%nat with false
    by (symmetry; apply Nat.eqb_neq; lia).
  replace (Nat.even (2 * List.length (firstn maxBytes bytes) + 3)) with false;
    [reflexivity|].
  symmetry. rewrite <- Nat.negb_odd. apply negb_false_iff, Nat.odd_spec.
  exists (List.length (firstn maxBytes bytes) + 1)%nat. lia.
Qed.

Lemma formatBytes_not_read_back_witness :
  parseHexInput (codeUnits (formatBytes [97; 98; 99] 2))
  = Thrown "Hex input must contain an even number of digits."
  /\ parseHexInput (codeUnits (formatBytes [] 64))
     = Thrown "Hex input must contain an even number of digits.".
Proof.
  split; apply formatBytes_not_read_back.
  - repeat (constructor; [unfold Ref.byte; lia|]). constructor.
  - right. simpl. lia.
  - constructor.
  - left. reflexivity.
Defined.

(** ** Chunks *)

Lemma slice_block bytes k :
  slice bytes (64 * k) (64 * k + 64) = firstn 64 (skipn (64 * k) bytes).
Proof. unfold slice. f_equal. lia. Qed.

Lemma blocks_concat n : forall bytes : list Z,
  (List.length bytes <= 64 * n)%nat ->
  List.concat (map (fun k => firstn 64 (skipn (64 * k) bytes)) (seq 0 n)) = bytes.
Proof.
  induction n as [|n IH]; intros bytes Hlen.
  - destruct bytes; [reflexivity|cbn in Hlen; lia].
  - cbn [seq map List.concat]. rewrite <- seq_shift, map_map.
    rewrite skipn_O.
    rewrite (map_ext _ (fun k => firstn 64 (skipn (64 * k) (skipn 64 bytes)))).
    + rewrite IH by (rewrite length_skipn; lia). apply firstn_skipn.
    + intros k. rewrite skipn_skipn. do 2 f_equal. lia.
Qed.

Lemma chunkBytes_concat bytes :
  List.concat (map Chunk.bytes (chunkBytes bytes)) = bytes.
Proof.
  unfold chunkBytes. rewrite map_map.
  rewrite (map_ext _ (fun k => firstn 64 (skipn (64 * k) bytes)))
    by (intros k; apply slice_block).
  apply blocks_concat.
  pose proof (Nat.div_mod_eq (List.length bytes + 63) 64).
  pose proof (Nat.mod_upper_bound (List.length bytes + 63) 64). lia.
Qed.

Lemma nth_map_seq {A : Type} (f : nat -> A) n j d :
  (j < n)%nat -> nth j (map f (seq 0 n)) d = f j.
Proof.
  intros Hj.
  rewrite (nth_indep _ d (f 0%nat)) by (rewrite length_map, length_seq; exact Hj).
  rewrite map_nth, seq_nth by exact Hj. reflexivity.
Qed.

Lemma chunkBytes_nth bytes k chunk :
  nth_error (chunkBytes bytes) k = Some chunk ->
  Chunk.index chunk = Z.of_nat k
  /\ (64 * k < List.length bytes)%nat
  /\ Chunk.bytes chunk = firstn 64 (skipn (64 * k) bytes)
  /\ List.length (Chunk.words chunk) = 16%nat
  /\ Forall Spec.uint32 (Chunk.words chunk)
  /\ (forall j, (j < 16)%nat ->
        nth j (Chunk.words chunk) 0
        = bytesToWordLittleEndian (Chunk.bytes chunk) (j * 4))
  /\ ((64 * k + 64 <= List.length bytes)%nat ->
      List.length (Chunk.bytes chunk) = 64%nat).
Proof.
  intros Hk. split; [apply (chunkBytes_index bytes), Hk|].
  unfold chunkBytes in Hk. rewrite nth_error_map, nth_error_seq in Hk.
  destruct (Nat.ltb_spec k ((List.length bytes + 63) / 64)) as [Hlt|];
    [|discriminate].
  cbn [option_map Nat.add] in Hk. injection Hk as <-.
  unfold chunkAt. cbn [Chunk.bytes Chunk.words]. rewrite slice_block.
  split.
  { pose proof (Nat.div_mod_eq (List.length bytes + 63) 64).
    pose proof (Nat.mod_upper_bound (List.length bytes + 63) 64). lia. }
  split; [reflexivity|]. split; [rewrite length_map, length_seq; reflexivity|].
  split.
  { apply Forall_forall. intros w Hw. apply in_map_iff in Hw.
    destruct Hw as (j & <- & _). apply toUint32_range. }
  split.
  - intros j Hj.
    exact (nth_map_seq
             (fun wordIndex =>
                bytesToWordLittleEndian (firstn 64 (skipn (64 * k) bytes))
                  (wordIndex * 4)) 16 j 0 Hj).
  - intros Hfull. rewrite length_firstn, length_skipn. lia.
Qed.

(** X10. [chunkBytes] cuts any byte array into consecutive pieces: the bytes
    of the chunks, concatenated, are the array; the empty array has no
    chunk; chunk [k] has index [k], starts at byte 64 k inside the array, holds
    the (at most 64) bytes from there, and has 16 words, each an unsigned
    32-bit number; a chunk that is not cut short by the end of the array has
    64 bytes. *)
Theorem chunkBytes_partition (bytes : list Z) :
  List.concat (map Chunk.bytes (chunkBytes bytes)) = bytes
  /\ (bytes = [] -> chunkBytes bytes = [])
  /\ (forall k chunk,
         nth_error (chunkBytes bytes) k = Some chunk ->
         Chunk.index chunk = Z.of_nat k
         /\ (64 * k < List.length bytes)%nat
         /\ Chunk.bytes chunk = firstn 64 (skipn (64 * k) bytes)
         /\ List.length (Chunk.words chunk) = 16%nat
         /\ Forall Spec.uint32 (Chunk.words chunk)
         /\ ((64 * k + 64 <= List.length bytes)%nat ->
             List.length (Chunk.bytes chunk) = 64%nat)).
Proof.
  split; [apply chunkBytes_concat|].
  split; [intros ->; reflexivity|].
  intros k chunk Hk.
  destruct (chunkBytes_nth bytes k chunk Hk)
    as (Hi & Hlt & Hb & Hw & Hr & _ & Hfull).
  repeat (split; [assumption|]). exact Hfull.
Qed.

(** ** The bytes of a trace *)

Lemma utf8CodePoint_bytes cp :
  0 <= cp < 1114112 -> Forall Ref.byte (utf8CodePoint cp).
Proof.
  intros Hcp. unfold utf8CodePoint, Ref.byte.
  destruct (Z.ltb_spec cp 128); [|destruct (Z.ltb_spec cp 2048);
    [|destruct (Z.ltb_spec cp 65536)]];
    repeat (constructor; [Z.div_mod_to_equations; lia|]); constructor.
Qed.

Lemma textEncode_bytes_upto n : forall s,
  (List.length s <= n)%nat -> Forall Ref.codeUnit s ->
  Forall Ref.byte (textEncode s).
Proof.
  induction n as [|n IH]; intros s Hlen Hall.
  - destruct s; [constructor|cbn in Hlen; lia].
  - destruct s as [|c rest]; [constructor|].
    inversion_clear Hall as [|? ? Hc Hrest]. unfold Ref.codeUnit in Hc.
    cbn [List.length] in Hlen. cbn [textEncode].
    destruct (isHighSurrogate c) eqn:Hhigh.
    + unfold isHighSurrogate in Hhigh. apply andb_prop in Hhigh.
      destruct Hhigh as [H1 H2]. apply Z.leb_le in H1, H2.
      destruct rest as [|lo rest']; [apply utf8CodePoint_bytes; lia|].
      destruct (isLowSurrogate lo) eqn:Hlow.
      * unfold isLowSurrogate in Hlow. apply andb_prop in Hlow.
        destruct Hlow as [H3 H4]. apply Z.leb_le in H3, H4.
        inversion_clear Hrest as [|? ? _ Hrest'].
        apply Forall_app. split; [apply utf8CodePoint_bytes; lia|].
        apply IH; [cbn [List.length] in Hlen; lia|exact Hrest'].
      * apply Forall_app. split; [apply utf8CodePoint_bytes; lia|].
        apply IH; [lia|exact Hrest].
    + destruct (isLowSurrogate c).
      * apply Forall_app. split; [apply utf8CodePoint_bytes; lia|].
        apply IH; [lia|exact Hrest].
      * apply Forall_app. split; [apply utf8CodePoint_bytes; lia|].
        apply IH; [lia|exact Hrest].
Qed.

Lemma parseInputBytes_bytes value inputType bytes :
  Forall Ref.codeUnit value ->
  parseInputBytes value inputType = Returned bytes -> Forall Ref.byte bytes.
Proof.
  intros Hunits. unfold parseInputBytes.
  destruct (String.eqb inputType "hex").
  - intros Hparse.
    assert (Hrange : forall n clean bs,
               List.length clean = (2 * n)%nat ->
               forallb isLowerHexDigit clean = true ->
               parseHexPairs clean = Returned bs -> Forall Ref.byte bs).
    { intros n clean bs Hn Hall Hbs.
      destruct (parseHexPairs_returns n clean Hn Hall) as (bs' & Hbs' & _ & Hr).
      rewrite Hbs' in Hbs. injection Hbs as <-. exact Hr. }
    unfold parseHexInput in Hparse.
    destruct (Nat.eqb (List.length (toLowerCase (stripWhiteSpace value))) 0).
    + injection Hparse as <-. constructor.
    + destruct (Nat.even (List.length (toLowerCase (stripWhiteSpace value))))
        eqn:Heven; cbn [negb] in Hparse; [|discriminate].
      destruct (existsb (fun c => negb (isLowerHexDigit c))
                  (toLowerCase (stripWhiteSpace value))) eqn:Hbad;
        [discriminate|].
      apply Nat.even_spec in Heven. destruct Heven as [n Hn].
      exact (Hrange n _ bytes Hn (existsb_negb_forallb _ _ Hbad) Hparse).
  - intros Hparse. injection Hparse as <-.
    exact (textEncode_bytes_upto _ value (Nat.le_refl _) Hunits).
Qed.

Lemma littleEndian8_bytes v : Forall Ref.byte (Spec.littleEndian8 v).
Proof.
  unfold Spec.littleEndian8.
  apply Forall_forall. intros b Hb. apply in_map_iff in Hb.
  destruct Hb as (k & <- & _). apply Z.mod_pos_bound. lia.
Qed.

Lemma padBytes_eq bytes padded :
  padBytes bytes = Returned padded ->
  padded
  = bytes ++ [128]
      ++ repeat 0 (Z.to_nat ((55 - Z.of_nat (List.length bytes)) mod 64))
      ++ Spec.littleEndian8 ((8 * Z.of_nat (List.length bytes)) mod 2 ^ 64).
Proof. intros Hpad. rewrite padBytes_returns in Hpad. congruence. Qed.

Lemma padded_bytes bytes padded :
  Forall Ref.byte bytes -> padBytes bytes = Returned padded ->
  Forall Ref.byte padded.
Proof.
  intros Hall Hpad. rewrite (padBytes_eq _ _ Hpad).
  apply Forall_app. split; [exact Hall|].
  apply Forall_app. split; [repeat constructor; unfold Ref.byte; lia|].
  apply Forall_app. split; [|apply littleEndian8_bytes].
  apply Forall_forall. intros b Hb. apply repeat_spec in Hb. subst b.
  unfold Ref.byte. lia.
Qed.

Lemma padded_length bytes padded :
  padBytes bytes = Returned padded ->
  Z.of_nat (List.length padded)
  = 64 * ((Z.of_nat (List.length bytes) + 8) / 64 + 1)
  /\ firstn (List.length bytes) padded = bytes
  /\ nth_error padded (List.length bytes) = Some 128.
Proof.
  intros Hpad. rewrite (padBytes_eq _ _ Hpad).
  split.
  - rewrite !length_app, repeat_length. cbn [List.length Spec.littleEndian8 map].
    pose proof (Z.mod_pos_bound (55 - Z.of_nat (List.length bytes)) 64 ltac:(lia)).
    rewrite !Nat2Z.inj_add, Z2Nat.id by lia.
    change (Z.of_nat 1) with 1. change (Z.of_nat 8) with 8.
    Z.div_mod_to_equations. lia.
  - split.
    + rewrite firstn_app, Nat.sub_diag, firstn_O, firstn_all, app_nil_r.
      reflexivity.
    + rewrite nth_error_app2, Nat.sub_diag by lia. reflexivity.
Qed.

Lemma chunkBytes_count bytes count :
  Z.of_nat (List.length bytes) = 64 * count ->
  Z.of_nat (List.length (chunkBytes bytes)) = count.
Proof.
  intros Hlen. rewrite chunkBytes_length.
  rewrite Nat2Z.inj_div, Nat2Z.inj_add, Hlen.
  change (Z.of_nat 63) with 63. change (Z.of_nat 64) with 64.
  Z.div_mod_to_equations. lia.
Qed.

(** X11. The lengths of a trace.  For an input of n bytes there are
    (n + 8) div 64 + 1 chunks, hence at least one; the padded message has 64
    bytes per chunk, starts with the input bytes and has 0x80 right after
    them.  The 'preprocess' event is the first event and records the input
    type, these lengths in bytes and in bits, the 9 to 72 added bytes, the
    chunk count, and the digest of the initial hash state. *)
Theorem trace_lengths (inputValue : list Z) (inputType : string) (t : Trace.t) :
  buildMd5Trace inputValue inputType = Returned t ->
  let n := Z.of_nat (List.length (Trace.inputBytes t)) in
  let count := Z.of_nat (List.length (Trace.chunks t)) in
  count = (n + 8) / 64 + 1
  /\ Z.of_nat (List.length (Trace.paddedBytes t)) = 64 * count
  /\ firstn (List.length (Trace.inputBytes t)) (Trace.paddedBytes t)
     = Trace.inputBytes t
  /\ nth_error (Trace.paddedBytes t) (List.length (Trace.inputBytes t))
     = Some 128
  /\ exists p rest,
       Trace.events t = EvPreprocess p :: rest
       /\ Preprocess.inputType p = Trace.inputType t
       /\ Preprocess.inputLengthBytes p = n
       /\ Preprocess.inputLengthBits p = 8 * n
       /\ Preprocess.paddedLengthBytes p = 64 * count
       /\ Preprocess.paddedLengthBits p = 512 * count
       /\ Preprocess.addedBytes p = 64 * count - n
       /\ 9 <= Preprocess.addedBytes p <= 72
       /\ Preprocess.chunkCount p = count
       /\ Preprocess.digestPreview p = "0123456789abcdeffedcba9876543210"%string.
Proof.
  intros Hbuild.
  destruct (buildMd5Trace_returned _ _ _ Hbuild)
    as (inputBytes & paddedBytes & _ & Hpad & Ht).
  cbv zeta in Ht |- *. subst t.
  cbn [Trace.inputBytes Trace.chunks Trace.paddedBytes Trace.events
       Trace.inputType].
  destruct (padded_length inputBytes paddedBytes Hpad) as (Hlen & Hprefix & Hmark).
  pose proof (chunkBytes_count paddedBytes _ Hlen) as Hcount.
  split; [exact Hcount|]. split; [lia|].
  split; [exact Hprefix|]. split; [exact Hmark|].
  do 2 eexists. split; [reflexivity|].
  cbn [Preprocess.inputType Preprocess.inputLengthBytes
       Preprocess.inputLengthBits Preprocess.paddedLengthBytes
       Preprocess.paddedLengthBits Preprocess.addedBytes Preprocess.chunkCount
       Preprocess.digestPreview].
  pose proof (Nat2Z.is_nonneg (List.length inputBytes)) as Hnn.
  split; [reflexivity|]. split; [reflexivity|]. split; [lia|].
  split; [lia|]. split; [lia|]. split; [lia|].
  split; [revert Hlen Hcount Hnn; generalize (Z.of_nat (List.length paddedBytes));
          generalize (Z.of_nat (List.length (chunkBytes paddedBytes)));
          generalize (Z.of_nat (List.length inputBytes)); intros;
          Z.div_mod_to_equations; lia|].
  split; [reflexivity|]. vm_compute. reflexivity.
Qed.

Lemma trace_lengths_witness :
  exists t,
    buildMd5Trace (codeUnits "abc") "text" = Returned t
    /\ Z.of_nat (List.length (Trace.chunks t))
       = (Z.of_nat (List.length (Trace.inputBytes t)) + 8) / 64 + 1.
Proof.
  eexists. split; [vm_compute; reflexivity|].
  eapply (trace_lengths (codeUnits "abc") "text"%string).
  vm_compute. reflexivity.
Defined.

Lemma Forall_skipn {A : Type} (P : A -> Prop) n l :
  Forall P l -> Forall P (skipn n l).
Proof.
  intros Hall. rewrite <- (firstn_skipn n l) in Hall.
  apply Forall_app in Hall. apply Hall.
Qed.

(** X12. The bytes of a trace.  For an input string (UTF-16 code units), the
    input bytes and the padded bytes are 8-bit values; the chunks' bytes,
    concatenated, are the padded message; every chunk has exactly 64 bytes
    and 16 words, word [j] being the little-endian value of the bytes 4 j to
    4 j + 3 of the chunk. *)
Theorem trace_bytes (inputValue : list Z) (inputType : string) (t : Trace.t) :
  Forall Ref.codeUnit inputValue ->
  buildMd5Trace inputValue inputType = Returned t ->
  Forall Ref.byte (Trace.inputBytes t)
  /\ Forall Ref.byte (Trace.paddedBytes t)
  /\ List.concat (map Chunk.bytes (Trace.chunks t)) = Trace.paddedBytes t
  /\ forall chunk, In chunk (Trace.chunks t) ->
       List.length (Chunk.bytes chunk) = 64%nat
       /\ Forall Ref.byte (Chunk.bytes chunk)
       /\ List.length (Chunk.words chunk) = 16%nat
       /\ forall j, (j < 16)%nat ->
            nth j (Chunk.words chunk) 0
            = nth (4 * j) (Chunk.bytes chunk) 0
              + 256 * nth (4 * j + 1) (Chunk.bytes chunk) 0
              + 65536 * nth (4 * j + 2) (Chunk.bytes chunk) 0
              + 16777216 * nth (4 * j + 3) (Chunk.bytes chunk) 0.
Proof.
  intros Hunits Hbuild.
  destruct (buildMd5Trace_returned _ _ _ Hbuild)
    as (inputBytes & paddedBytes & Hparse & Hpad & Ht).
  cbv zeta in Ht. subst t.
  cbn [Trace.inputBytes Trace.chunks Trace.paddedBytes].
  pose proof (parseInputBytes_bytes _ _ _ Hunits Hparse) as Hinput.
  pose proof (padded_bytes _ _ Hinput Hpad) as Hpadded.
  destruct (padded_length _ _ Hpad) as (Hlen & _).
  split; [exact Hinput|]. split; [exact Hpadded|].
  split; [apply chunkBytes_concat|].
  intros chunk Hin. apply In_nth_error in Hin. destruct Hin as [k Hk].
  destruct (chunkBytes_nth paddedBytes k chunk Hk)
    as (_ & Hlt & Hb & Hw & _ & Hwords & Hfull).
  assert (Hbytes : Forall Ref.byte (Chunk.bytes chunk))
    by (rewrite Hb; apply Forall_firstn, Forall_skipn, Hpadded).
  split; [apply Hfull; lia|]. split; [exact Hbytes|]. split; [exact Hw|].
  intros j Hj. rewrite (Hwords j Hj), (bytesToWord_sum _ _ Hbytes).
  replace (j * 4)%nat with (4 * j)%nat by lia. reflexivity.
Qed.

Lemma trace_bytes_witness :
  exists t,
    buildMd5Trace (codeUnits "abc") "text" = Returned t
    /\ Forall Ref.byte (Trace.paddedBytes t).
Proof.
  eexists. split; [vm_compute; reflexivity|].
  eapply (trace_bytes (codeUnits "abc") "text"%string).
  - repeat (constructor; [unfold Ref.codeUnit; simpl; lia|]). constructor.
  - vm_compute. reflexivity.
Defined.

(** ** The hash state from chunk to chunk *)

Lemma block_start hash chunk s rs e :
  fst (processChunk hash chunk) = blockEvents (s, rs, e) ->
  ChunkStart.registersBefore s
  = [nth 0 hash 0; nth 1 hash 0; nth 2 hash 0; nth 3 hash 0]
  /\ ChunkStart.digestPreview s = digestFromState hash
  /\ ChunkEnd.digestPreview e = ChunkEnd.digestAfterChunk e
  /\ rs = fst (roundLoop 64 chunk hash 0 (Spec.registersOf hash))
  /\ ChunkEnd.registersBeforeAdd e
     = map JS.toUint32
         (Ref.registersList
            (snd (roundLoop 64 chunk hash 0 (Spec.registersOf hash)))).
Proof.
  intros Hblock.
  pose proof (processChunk_eq hash chunk) as Heq. cbv zeta in Heq.
  destruct (snd (roundLoop 64 chunk hash 0 (Spec.registersOf hash)))
    as [[[a b] c] d] eqn:Hfinal.
  rewrite Heq in Hblock. cbn [fst snd] in Hblock.
  apply blockEvents_inj in Hblock.
  pose proof (f_equal (fun b : Block => fst (fst b)) Hblock) as Hs.
  pose proof (f_equal (fun b : Block => snd (fst b)) Hblock) as Hrs.
  pose proof (f_equal (fun b : Block => snd b) Hblock) as He.
  cbn [fst snd] in Hs, Hrs, He. clear Hblock. subst s rs e.
  cbn [ChunkStart.registersBefore ChunkStart.digestPreview
       ChunkEnd.digestPreview ChunkEnd.digestAfterChunk
       ChunkEnd.registersBeforeAdd Ref.registersList map].
  repeat split; reflexivity.
Qed.

Lemma chunkLoop_chained chunks : forall hash,
  exists blocks,
    Ref.chained hash chunks blocks
    /\ fst (chunkLoop chunks hash) = flat_map blockEvents blocks.
Proof.
  induction chunks as [|chunk rest IH]; intros hash.
  - exists []. split; [constructor|reflexivity].
  - rewrite chunkLoop_cons. cbn [fst].
    destruct (processChunk_block hash chunk) as [block Hblock].
    destruct (IH (snd (processChunk hash chunk))) as (blocks & Hchain & Hevents).
    exists (block :: blocks). split.
    + apply (Ref.chained_cons hash (snd (processChunk hash chunk)));
        [|exact Hchain].
      rewrite <- Hblock. apply surjective_pairing.
    + cbn [flat_map]. rewrite Hblock, Hevents. reflexivity.
Qed.

Lemma processChunk_md5Step hash chunk :
  hashState hash -> snd (processChunk hash chunk) = Ref.md5Step hash chunk.
Proof.
  intros Hhash. unfold processChunk, Ref.md5Step, Spec.compress.
  pose proof (roundLoop_rounds chunk hash 64 0 (Spec.registersOf hash)
                (hashState_registers hash Hhash) ltac:(lia) ltac:(lia)) as Hloop.
  unfold Spec.registersOf in *.
  destruct (roundLoop 64 chunk hash 0 _) as [rounds [[[a b] c] d]].
  cbn [snd] in *. rewrite <- Hloop. reflexivity.
Qed.

Lemma fold_left_cons {A B : Type} (f : A -> B -> A) x l a :
  fold_left f (x :: l) a = fold_left f l (f a x).
Proof. reflexivity. Qed.

Lemma fold_left_nil {A B : Type} (f : A -> B -> A) a : fold_left f [] a = a.
Proof. reflexivity. Qed.

Lemma chunkLoop_state chunks : forall hash,
  hashState hash ->
  snd (chunkLoop chunks hash)
  = fold_left Ref.md5Step chunks hash.
Proof.
  induction chunks as [|chunk rest IH]; intros hash Hhash; [reflexivity|].
  rewrite chunkLoop_cons, fold_left_cons. cbn [snd].
  rewrite (IH _ (processChunk_hashState hash chunk)).
  rewrite (processChunk_md5Step hash chunk Hhash). reflexivity.
Qed.

Lemma chained_length hash chunks blocks :
  Ref.chained hash chunks blocks -> List.length blocks = List.length chunks.
Proof. induction 1; cbn [List.length]; congruence. Qed.

Lemma chained_nth hash chunks blocks :
  Ref.chained hash chunks blocks -> hashState hash ->
  forall k s rs e, nth_error blocks k = Some (s, rs, e) ->
    exists chunk,
      nth_error chunks k = Some chunk
      /\ hashState (ChunkStart.hashBefore s)
      /\ fst (processChunk (ChunkStart.hashBefore s) chunk) = blockEvents (s, rs, e)
      /\ ChunkStart.hashBefore s
         = fold_left Ref.md5Step (firstn k chunks) hash
      /\ ChunkEnd.hashAfter e
         = fold_left Ref.md5Step (firstn (S k) chunks) hash.
Proof.
  induction 1 as [hash|hash hash' chunk chunks block blocks Hblock Hchain IH];
    intros Hhash k s rs e Hk.
  - destruct k; discriminate.
  - pose proof (f_equal fst Hblock) as Hfst. cbn [fst] in Hfst.
    pose proof (f_equal snd Hblock) as Hsnd. cbn [snd] in Hsnd.
    destruct k as [|k]; cbn [nth_error] in Hk.
    + injection Hk as ->.
      destruct (block_properties hash chunk s rs e Hfst)
        as (_ & _ & Hs & _ & _ & Hafter & _).
      exists chunk. rewrite Hs. split; [reflexivity|]. split; [exact Hhash|].
      split; [exact Hfst|]. split; [rewrite firstn_O; reflexivity|].
      rewrite Hafter, firstn_cons, firstn_O, fold_left_cons, fold_left_nil.
      exact (processChunk_md5Step hash chunk Hhash).
    + assert (Hhash' : hashState hash')
        by (rewrite <- Hsnd; apply processChunk_hashState).
      destruct (IH Hhash' k s rs e Hk) as (c & Hc & Hst & Hb & Hbefore & Hafter).
      exists c. split; [exact Hc|]. split; [exact Hst|]. split; [exact Hb|].
      assert (Hstep : hash' = Ref.md5Step hash chunk)
        by (rewrite <- Hsnd; exact (processChunk_md5Step hash chunk Hhash)).
      rewrite Hbefore, Hafter, Hstep, !firstn_cons, !fold_left_cons.
      split; reflexivity.
Qed.

Lemma hashState_list state :
  hashState state ->
  [nth 0 state 0; nth 1 state 0; nth 2 state 0; nth 3 state 0] = state.
Proof.
  intros [Hlen _].
  destruct state as [|h0 [|h1 [|h2 [|h3 [|]]]]]; try discriminate. reflexivity.
Qed.

Lemma trace_chained inputValue inputType t :
  buildMd5Trace inputValue inputType = Returned t ->
  exists p blocks d,
    Trace.events t = EvPreprocess p :: flat_map blockEvents blocks ++ [EvDone d]
    /\ Ref.chained INITIAL_HASH (Trace.chunks t) blocks
    /\ Done.hash d = snd (chunkLoop (Trace.chunks t) INITIAL_HASH)
    /\ Done.digest d = Trace.digest t
    /\ Done.digestPreview d = Trace.digest t
    /\ Preprocess.digestPreview p = digestFromState INITIAL_HASH
    /\ Trace.digest t
       = digestFromState (snd (chunkLoop (Trace.chunks t) INITIAL_HASH)).
Proof.
  intros Hbuild.
  destruct (buildMd5Trace_returned _ _ _ Hbuild)
    as (inputBytes & paddedBytes & _ & _ & Ht).
  cbv zeta in Ht. subst t.
  cbn [Trace.events Trace.chunks Trace.digest].
  destruct (chunkLoop_chained (chunkBytes paddedBytes) INITIAL_HASH)
    as (blocks & Hchain & Hevents).
  rewrite Hevents.
  do 3 eexists. split; [reflexivity|]. split; [exact Hchain|].
  cbn [Done.hash Done.digest Done.digestPreview Preprocess.digestPreview].
  split; [reflexivity|]. split; [reflexivity|]. split; [reflexivity|].
  split; reflexivity.
Qed.

(** X13. The hash state runs through the chunks.  There is one block of
    events per chunk; the 'chunk-start' of chunk [k] records, as [hashBefore]
    and as its registers, the state that compressing the chunks before [k]
    from the initial hash state gives, and its 'chunk-end' the state after
    chunk [k] as well: each chunk starts from the state the one before it
    left, the first from [INITIAL_HASH].  The 'done' event holds the state
    after all chunks, and the digest of the trace is that state in the digest
    format. *)
Theorem trace_hash_chain (inputValue : list Z) (inputType : string)
    (t : Trace.t) :
  buildMd5Trace inputValue inputType = Returned t ->
  exists p blocks d,
    Trace.events t = EvPreprocess p :: flat_map blockEvents blocks ++ [EvDone d]
    /\ List.length blocks = List.length (Trace.chunks t)
    /\ (forall k s rs e,
           nth_error blocks k = Some (s, rs, e) ->
           ChunkStart.hashBefore s = Ref.md5State (firstn k (Trace.chunks t))
           /\ ChunkStart.registersBefore s = ChunkStart.hashBefore s
           /\ ChunkEnd.hashBefore e = ChunkStart.hashBefore s
           /\ ChunkEnd.hashAfter e
              = Ref.md5State (firstn (S k) (Trace.chunks t)))
    /\ Done.hash d = Ref.md5State (Trace.chunks t)
    /\ Trace.digest t = Spec.formatDigest (Ref.md5State (Trace.chunks t)).
Proof.
  intros Hbuild.
  destruct (trace_chained _ _ _ Hbuild)
    as (p & blocks & d & Hevents & Hchain & Hhash & _ & _ & _ & Hdigest).
  exists p, blocks, d. split; [exact Hevents|].
  split; [exact (chained_length _ _ _ Hchain)|].
  pose proof (chunkLoop_state (Trace.chunks t) INITIAL_HASH
                INITIAL_HASH_hashState) as Hstate.
  fold (Ref.md5State (Trace.chunks t)) in Hstate.
  split.
  - intros k s rs e Hk.
    destruct (chained_nth _ _ _ Hchain INITIAL_HASH_hashState k s rs e Hk)
      as (chunk & _ & Hst & Hblock & Hbefore & Hafter).
    destruct (block_start _ _ _ _ _ Hblock) as (Hregs & _).
    destruct (block_properties _ _ _ _ _ Hblock) as (_ & _ & _ & _ & Heh & _).
    split; [exact Hbefore|].
    split; [rewrite Hregs; apply hashState_list, Hst|].
    split; [exact Heh|exact Hafter].
  - split; [rewrite Hhash; exact Hstate|].
    rewrite Hdigest, Hstate. apply digestFromState_format.
Qed.

Lemma trace_hash_chain_witness :
  exists t,
    buildMd5Trace (codeUnits "abc") "text" = Returned t
    /\ Trace.digest t = Spec.formatDigest (Ref.md5State (Trace.chunks t)).
Proof.
  eexists. split; [vm_compute; reflexivity|].
  edestruct (trace_hash_chain (codeUnits "abc") "text"%string)
    as (p & blocks & d & _ & _ & _ & _ & Hdigest); [vm_compute; reflexivity|].
  exact Hdigest.
Defined.

(** ** The working registers from round to round *)

Lemma toUint32_idempotent x : JS.toUint32 (JS.toUint32 x) = JS.toUint32 x.
Proof. apply toUint32_small, toUint32_range. Qed.

Lemma roundStep_registers chunk hash i regs :
  0 <= i < 64 ->
  Round.registersBefore (fst (roundStep chunk hash i regs))
  = map JS.toUint32 (Ref.registersList regs)
  /\ Round.registersAfter (fst (roundStep chunk hash i regs))
     = Ref.registersList (snd (roundStep chunk hash i regs))
  /\ map JS.toUint32 (Ref.registersList (snd (roundStep chunk hash i regs)))
     = Ref.registersList (snd (roundStep chunk hash i regs)).
Proof.
  intros Hi.
  destruct (roundStep_formulas chunk hash i regs Hi)
    as (a & b & c & d & Hbefore & Hnorm & Hspec & Hnext).
  destruct Hspec as (_ & _ & _ & _ & _ & _ & _ & _ & Hafter).
  rewrite Hbefore, Hafter, Hnext.
  destruct regs as [[[a0 b0] c0] d0]. destruct Hnorm as (-> & -> & -> & ->).
  cbn [Ref.registersList map].
  split; [reflexivity|]. split; [reflexivity|].
  rewrite !toUint32_idempotent.
  rewrite (toUint32_small ((_ + _) mod 2 ^ 32)) by apply mod32_range.
  reflexivity.
Qed.

Lemma roundLoop_registers chunk hash j :
  (0 < j <= 64)%nat -> forall regs,
  map JS.toUint32 (Ref.registersList (snd (roundLoop j chunk hash 0 regs)))
  = Ref.registersList (snd (roundLoop j chunk hash 0 regs)).
Proof.
  intros Hj regs. destruct j as [|j]; [lia|].
  rewrite roundLoop_succ, Z.add_0_l.
  apply roundStep_registers. lia.
Qed.

Lemma roundLoop_O chunk hash i regs :
  roundLoop 0 chunk hash i regs = ([], regs).
Proof. with_strategy transparent [roundLoop] reflexivity. Qed.

Lemma hashState_registersList hash :
  hashState hash ->
  map JS.toUint32 (Ref.registersList (Spec.registersOf hash))
  = [nth 0 hash 0; nth 1 hash 0; nth 2 hash 0; nth 3 hash 0].
Proof.
  intros [Hlen Hall]. unfold Spec.registersOf. cbn [Ref.registersList map].
  destruct hash as [|h0 [|h1 [|h2 [|h3 [|]]]]]; try discriminate.
  cbn [nth].
  inversion_clear Hall as [|? ? H0 Hall1].
  inversion_clear Hall1 as [|? ? H1 Hall2].
  inversion_clear Hall2 as [|? ? H2 Hall3].
  inversion_clear Hall3 as [|? ? H3 _].
  rewrite !toUint32_small by assumption. reflexivity.
Qed.

Lemma block_registers hash chunk s rs e :
  hashState hash ->
  fst (processChunk hash chunk) = blockEvents (s, rs, e) ->
  (forall r, nth_error rs 0 = Some r ->
     Round.registersBefore r = ChunkStart.registersBefore s)
  /\ (forall j r r',
        nth_error rs j = Some r -> nth_error rs (S j) = Some r' ->
        Round.registersBefore r' = Round.registersAfter r)
  /\ (forall r, nth_error rs 63 = Some r ->
        ChunkEnd.registersBeforeAdd e = Round.registersAfter r).
Proof.
  intros Hhash Hblock.
  destruct (block_start _ _ _ _ _ Hblock) as (Hs & _ & _ & Hrs & He).
  assert (Hlen : List.length rs = 64%nat)
    by (rewrite Hrs; apply roundLoop_length).
  assert (Hround : forall j r, nth_error rs j = Some r ->
            (j < 64)%nat
            /\ r = fst (roundStep chunk hash (Z.of_nat j)
                          (snd (roundLoop j chunk hash 0 (Spec.registersOf hash))))).
  { intros j r Hj. split.
    - rewrite <- Hlen. apply nth_error_Some. rewrite Hj. discriminate.
    - rewrite Hrs in Hj. apply roundLoop_nth in Hj. rewrite Z.add_0_l in Hj.
      exact Hj. }
  split; [|split].
  - intros r Hr. destruct (Hround 0%nat r Hr) as (_ & ->).
    destruct (roundStep_registers chunk hash (Z.of_nat 0)
                (snd (roundLoop 0 chunk hash 0 (Spec.registersOf hash)))
                ltac:(lia)) as (Hbefore & _).
    rewrite Hbefore, Hs.
    rewrite roundLoop_O. cbn [snd].
    apply hashState_registersList, Hhash.
  - intros j r r' Hr Hr'.
    destruct (Hround j r Hr) as (Hj & ->).
    destruct (Hround (S j) r' Hr') as (Hj' & ->).
    destruct (roundStep_registers chunk hash (Z.of_nat (S j))
                (snd (roundLoop (S j) chunk hash 0 (Spec.registersOf hash)))
                ltac:(lia)) as (Hbefore & _).
    destruct (roundStep_registers chunk hash (Z.of_nat j)
                (snd (roundLoop j chunk hash 0 (Spec.registersOf hash)))
                ltac:(lia)) as (_ & Hafter & _).
    rewrite Hbefore, Hafter.
    rewrite (roundLoop_registers chunk hash (S j) ltac:(lia)).
    rewrite roundLoop_succ, Z.add_0_l. reflexivity.
  - intros r Hr. destruct (Hround 63%nat r Hr) as (_ & ->).
    destruct (roundStep_registers chunk hash (Z.of_nat 63)
                (snd (roundLoop 63 chunk hash 0 (Spec.registersOf hash)))
                ltac:(lia)) as (_ & Hafter & _).
    rewrite He, Hafter.
    rewrite (roundLoop_registers chunk hash 64 ltac:(lia)).
    rewrite (roundLoop_succ chunk hash 63), Z.add_0_l. reflexivity.
Qed.

(** X14. A trace has one block of events per chunk, in order, and at least
    one chunk; every block has the 64 rounds 0 to 63, each at its place.
    The working registers run through the rounds of a chunk.  The
    'chunk-start' event's registers are its [hashBefore]; round 0 starts
    from them; every later round starts from the registers the round before
    it left; the 'chunk-end' event's [registersBeforeAdd] are those that round
    63 left.  [stepWithinChunk] is the round index plus 1. *)
Theorem round_registers_chain (inputValue : list Z) (inputType : string)
    (t : Trace.t) :
  buildMd5Trace inputValue inputType = Returned t ->
  exists p blocks d,
    Trace.events t = EvPreprocess p :: flat_map blockEvents blocks ++ [EvDone d]
    /\ List.length blocks = List.length (Trace.chunks t)
    /\ (0 < List.length (Trace.chunks t))%nat
    /\ (forall k chunk,
          nth_error (Trace.chunks t) k = Some chunk ->
          exists s rs e,
            nth_error blocks k = Some (s, rs, e)
            /\ ChunkStart.chunkIndex s = Chunk.index chunk
            /\ ChunkEnd.chunkIndex e = Chunk.index chunk)
    /\ forall s rs e,
         In (s, rs, e) blocks ->
         List.length rs = 64%nat
         /\ (forall i, (i < 64)%nat ->
               exists r,
                 nth_error rs i = Some r /\ Round.roundIndex r = Z.of_nat i)
         /\ ChunkStart.registersBefore s = ChunkStart.hashBefore s
         /\ (forall r, nth_error rs 0 = Some r ->
               Round.registersBefore r = ChunkStart.registersBefore s)
         /\ (forall j r r',
               nth_error rs j = Some r -> nth_error rs (S j) = Some r' ->
               Round.registersBefore r' = Round.registersAfter r)
         /\ (forall r, nth_error rs 63 = Some r ->
               ChunkEnd.registersBeforeAdd e = Round.registersAfter r)
         /\ (forall r, In r rs ->
               Round.stepWithinChunk r = Round.roundIndex r + 1).
Proof.
  intros Hbuild.
  destruct (trace_chunk_blocks _ _ _ Hbuild)
    as (p & blocks & d & Hevents & Hall & Hlen & Hpos & Hchunks).
  exists p, blocks, d. split; [exact Hevents|].
  split; [exact Hlen|]. split; [exact Hpos|].
  split.
  { intros k chunk Hk.
    destruct (Hchunks k chunk Hk) as (s & rs & e & Hb & Hfor).
    exists s, rs, e. split; [exact Hb|].
    destruct (blockFor_properties chunk s rs e Hfor) as (Hs & He & _).
    split; assumption. }
  intros s rs e Hin.
  destruct (blocks_In _ _ _ Hall Hin) as (chunk & _ & Hfor).
  destruct (blockFor_rounds chunk s rs e Hfor) as (Hrs & Hex).
  split; [exact Hrs|]. split; [exact Hex|].
  destruct Hfor as (hash & Hhash & Hblock).
  destruct (block_registers hash chunk s rs e Hhash Hblock)
    as (Hfirst & Hnext & Hlast).
  destruct (block_start _ _ _ _ _ Hblock) as (Hregs & _).
  destruct (block_properties _ _ _ _ _ Hblock)
    as (_ & _ & Hsh & _ & _ & _ & _ & _ & _ & Hrounds).
  split; [rewrite Hregs, Hsh; apply hashState_list, Hhash|].
  split; [exact Hfirst|]. split; [exact Hnext|]. split; [exact Hlast|].
  intros r Hr. apply In_nth_error in Hr. destruct Hr as [j Hj].
  destruct (Hrounds j r Hj) as (_ & (regs & ->) & _).
  pose proof (roundStep_fields chunk hash (Z.of_nat j) regs) as Hfields.
  cbv zeta in Hfields.
  destruct Hfields as (a & b & c & d0 & b' & _ & _ & _ & _ & Hri & Hstep & _).
  rewrite Hri, Hstep. reflexivity.
Qed.

Lemma round_registers_chain_witness :
  exists t p blocks d s rs e r0 r1 r63,
    buildMd5Trace (codeUnits "abc") "text" = Returned t
    /\ Trace.events t = EvPreprocess p :: flat_map blockEvents blocks ++ [EvDone d]
    /\ nth_error blocks 0 = Some (s, rs, e)
    /\ nth_error rs 0 = Some r0
    /\ nth_error rs 1 = Some r1
    /\ nth_error rs 63 = Some r63
    /\ Round.registersBefore r0 = ChunkStart.hashBefore s
    /\ Round.registersBefore r1 = Round.registersAfter r0
    /\ ChunkEnd.registersBeforeAdd e = Round.registersAfter r63.
Proof.
  eexists.
  edestruct (round_registers_chain (codeUnits "abc") "text"%string)
    as (p & blocks & d & Hevents & _ & _ & Hchunks & Hblocks);
    [vm_compute; reflexivity|].
  edestruct (Hchunks 0%nat) as (s & rs & e & Hblock & _); [reflexivity|].
  destruct (Hblocks s rs e (nth_error_In _ _ Hblock))
    as (_ & Hex & Hstart & Hfirst & Hnext & Hlast & _).
  destruct (Hex 0%nat ltac:(lia)) as (r0 & Hr0 & _).
  destruct (Hex 1%nat ltac:(lia)) as (r1 & Hr1 & _).
  destruct (Hex 63%nat ltac:(lia)) as (r63 & Hr63 & _).
  exists p, blocks, d, s, rs, e, r0, r1, r63.
  split; [vm_compute; reflexivity|]. split; [exact Hevents|].
  split; [exact Hblock|]. split; [exact Hr0|]. split; [exact Hr1|].
  split; [exact Hr63|].
  split; [rewrite (Hfirst r0 Hr0); exact Hstart|].
  split; [exact (Hnext 0%nat r0 r1 Hr0 Hr1)|exact (Hlast r63 Hr63)].
Defined.

(** ** The message words that the rounds read *)

Lemma nth_error_ext {A : Type} (l l' : list A) :
  (forall j, nth_error l j = nth_error l' j) -> l = l'.
Proof.
  revert l'. induction l as [|x l IH]; intros [|x' l'] H.
  - reflexivity.
  - specialize (H 0%nat). discriminate.
  - specialize (H 0%nat). discriminate.
  - pose proof (H 0%nat) as H0. cbn in H0. injection H0 as ->.
    f_equal. apply IH. intros j. exact (H (S j)).
Qed.

Lemma rounds_g chunk s rs e :
  blockFor chunk (s, rs, e) ->
  map Round.g rs
  = map (fun j => Spec.g (Spec.family (Z.of_nat j)) (Z.of_nat j)) (seq 0 64).
Proof.
  intros Hfor.
  destruct (blockFor_properties _ _ _ _ Hfor) as (_ & _ & _ & _ & Hlen & Hrounds).
  destruct (blockFor_engine _ _ _ _ Hfor) as (_ & _ & _ & _ & _ & Hengine).
  apply nth_error_ext. intros j.
  rewrite !nth_error_map.
  destruct (nth_error rs j) as [r|] eqn:Hj.
  - assert (Hlt : (j < 64)%nat)
      by (rewrite <- Hlen; apply nth_error_Some; rewrite Hj; discriminate).
    rewrite (nth_error_nth' (seq 0 64) 0%nat) by (rewrite length_seq; exact Hlt).
    rewrite seq_nth by exact Hlt. cbn [option_map Nat.add].
    destruct (Hrounds j r Hj) as (Hri & _).
    destruct (Hengine r (nth_error_In _ _ Hj))
      as (_ & a & b & c & d & _ & _ & Hspec).
    destruct Hspec as (_ & _ & Hg & _). rewrite Hg, Hri. reflexivity.
  - apply nth_error_None in Hj. rewrite Hlen in Hj.
    assert (Hnone : nth_error (seq 0 64) j = None)
      by (apply nth_error_None; rewrite length_seq; exact Hj).
    rewrite Hnone. reflexivity.
Qed.

Lemma schedule_counts :
  forallb
    (fun q =>
       forallb
         (fun w =>
            (count_occ Z.eq_dec
               (firstn 16
                  (skipn (16 * q)
                     (map (fun j => Spec.g (Spec.family (Z.of_nat j)) (Z.of_nat j))
                        (seq 0 64))))
               (Z.of_nat w) =? 1)%nat)
         (seq 0 16))
    (seq 0 4) = true.
Proof. vm_compute. reflexivity. Qed.

(** X15. A trace has one block of events per chunk, in order, and at least
    one chunk; the 'chunk-start' of a block records the words of its chunk,
    and every block has the 64 rounds 0 to 63, each at its place.
    The message words that the rounds read: every chunk has 16 words;
    every round reads the word [g] of its chunk, with [g] between 0 and 15;
    and in each of the four groups of 16 rounds (0-15, 16-31, 32-47, 48-63)
    every word index occurs exactly once. *)
Theorem message_word_schedule (inputValue : list Z) (inputType : string)
    (t : Trace.t) :
  buildMd5Trace inputValue inputType = Returned t ->
  exists p blocks d,
    Trace.events t = EvPreprocess p :: flat_map blockEvents blocks ++ [EvDone d]
    /\ List.length blocks = List.length (Trace.chunks t)
    /\ (0 < List.length (Trace.chunks t))%nat
    /\ (forall k chunk,
          nth_error (Trace.chunks t) k = Some chunk ->
          exists s rs e,
            nth_error blocks k = Some (s, rs, e)
            /\ ChunkStart.chunkWords s = Chunk.words chunk)
    /\ forall s rs e,
         In (s, rs, e) blocks ->
         List.length rs = 64%nat
         /\ (forall i, (i < 64)%nat ->
               exists r,
                 nth_error rs i = Some r /\ Round.roundIndex r = Z.of_nat i)
         /\ List.length (ChunkStart.chunkWords s) = 16%nat
         /\ (forall r, In r rs ->
               0 <= Round.g r < 16
               /\ Round.messageWord r
                  = nth (Z.to_nat (Round.g r)) (ChunkStart.chunkWords s) 0)
         /\ (forall q w, (q < 4)%nat -> 0 <= w < 16 ->
               count_occ Z.eq_dec
                 (map Round.g (firstn 16 (skipn (16 * q) rs))) w = 1%nat).
Proof.
  intros Hbuild.
  destruct (trace_chunk_blocks _ _ _ Hbuild)
    as (p & blocks & d & Hevents & Hall & Hlen & Hpos & Hchunks).
  exists p, blocks, d. split; [exact Hevents|].
  split; [exact Hlen|]. split; [exact Hpos|].
  split.
  { intros k chunk Hk.
    destruct (Hchunks k chunk Hk) as (s & rs & e & Hb & Hfor).
    exists s, rs, e. split; [exact Hb|].
    exact (proj1 (blockFor_engine chunk s rs e Hfor)). }
  intros s rs e Hin.
  destruct (blocks_In _ _ _ Hall Hin) as (chunk & Hchunk & Hfor).
  destruct (blockFor_rounds chunk s rs e Hfor) as (Hrs & Hex).
  split; [exact Hrs|]. split; [exact Hex|].
  destruct (blockFor_engine _ _ _ _ Hfor) as (Hwords & _ & _ & _ & _ & Hengine).
  pose proof (rounds_g _ _ _ _ Hfor) as Hg.
  split.
  { rewrite Hwords. apply In_nth_error in Hchunk. destruct Hchunk as [k Hk].
    destruct (buildMd5Trace_returned _ _ _ Hbuild)
      as (inputBytes & paddedBytes & _ & _ & Ht).
    cbv zeta in Ht. rewrite Ht in Hk. cbn [Trace.chunks] in Hk.
    destruct (chunkBytes_nth _ _ _ Hk) as (_ & _ & _ & Hw & _). exact Hw. }
  split.
  - intros r Hr.
    destruct (Hengine r Hr) as (Hi & a & b & c & d0 & _ & _ & Hspec).
    destruct Hspec as (_ & _ & Hgr & _ & _ & Hm & _).
    split; [|rewrite Hm, Hwords; reflexivity].
    rewrite Hgr. unfold Spec.g, Spec.family.
    destruct (Round.roundIndex r <? 16) eqn:H16; [apply Z.ltb_lt in H16; lia|].
    destruct (Round.roundIndex r <? 32); [apply Z.mod_pos_bound; lia|].
    destruct (Round.roundIndex r <? 48); apply Z.mod_pos_bound; lia.
  - intros q w Hq Hw.
    rewrite <- firstn_map, <- skipn_map, Hg.
    pose proof schedule_counts as Hcounts.
    rewrite forallb_forall in Hcounts.
    specialize (Hcounts q ltac:(apply in_seq; lia)).
    rewrite forallb_forall in Hcounts.
    specialize (Hcounts (Z.to_nat w) ltac:(apply in_seq; lia)).
    rewrite Z2Nat.id in Hcounts by lia.
    apply Nat.eqb_eq in Hcounts. exact Hcounts.
Qed.

Lemma message_word_schedule_witness :
  exists t p blocks d s rs e r,
    buildMd5Trace (codeUnits "abc") "text" = Returned t
    /\ Trace.events t = EvPreprocess p :: flat_map blockEvents blocks ++ [EvDone d]
    /\ nth_error blocks 0 = Some (s, rs, e)
    /\ nth_error rs 16 = Some r
    /\ 0 <= Round.g r < 16
    /\ Round.messageWord r
       = nth (Z.to_nat (Round.g r)) (ChunkStart.chunkWords s) 0
    /\ count_occ Z.eq_dec (map Round.g (firstn 16 (skipn (16 * 1) rs))) 0
       = 1%nat.
Proof.
  eexists.
  edestruct (message_word_schedule (codeUnits "abc") "text"%string)
    as (p & blocks & d & Hevents & _ & _ & Hchunks & Hblocks);
    [vm_compute; reflexivity|].
  edestruct (Hchunks 0%nat) as (s & rs & e & Hblock & _); [reflexivity|].
  destruct (Hblocks s rs e (nth_error_In _ _ Hblock))
    as (_ & Hex & _ & Hrounds & Hcount).
  destruct (Hex 16%nat ltac:(lia)) as (r & Hr & _).
  destruct (Hrounds r (nth_error_In _ _ Hr)) as (Hg & Hword).
  exists p, blocks, d, s, rs, e, r.
  split; [vm_compute; reflexivity|]. split; [exact Hevents|].
  split; [exact Hblock|]. split; [exact Hr|]. split; [exact Hg|].
  split; [exact Hword|]. apply Hcount; lia.
Defined.

(** ** The trace is a function of the input bytes *)

Lemma blockEvents_withInputType inputType block :
  map (eventWithInputType inputType) (blockEvents block) = blockEvents block.
Proof.
  destruct block as [[s rs] e]. cbn [blockEvents map eventWithInputType].
  f_equal. rewrite map_app, map_map. reflexivity.
Qed.

Lemma blocks_withInputType inputType blocks :
  map (eventWithInputType inputType) (flat_map blockEvents blocks)
  = flat_map blockEvents blocks.
Proof.
  induction blocks as [|block blocks IH]; [reflexivity|].
  cbn [flat_map]. rewrite map_app, IH, blockEvents_withInputType. reflexivity.
Qed.

(** X16. A trace depends on the input only through its bytes.  Two calls
    that return traces with the same input bytes, whatever the input strings
    and modes, return the same trace up to the recorded input type (the
    [inputType] of the trace and of its 'preprocess' event): same padded
    bytes, chunks, digest and, but for that field, events. *)
Theorem trace_of_bytes (inputValue inputValue' : list Z)
    (inputType inputType' : string) (t t' : Trace.t) :
  buildMd5Trace inputValue inputType = Returned t ->
  buildMd5Trace inputValue' inputType' = Returned t' ->
  Trace.inputBytes t = Trace.inputBytes t' ->
  t' = withInputType inputType' t
  /\ Trace.digest t' = Trace.digest t
  /\ Trace.paddedBytes t' = Trace.paddedBytes t
  /\ Trace.chunks t' = Trace.chunks t
  /\ List.length (Trace.events t') = List.length (Trace.events t).
Proof.
  intros Hbuild Hbuild' Hbytes.
  assert (Heq : t' = withInputType inputType' t).
  { destruct (buildMd5Trace_returned _ _ _ Hbuild)
      as (inputBytes & paddedBytes & _ & Hpad & Ht).
    destruct (buildMd5Trace_returned _ _ _ Hbuild')
      as (inputBytes' & paddedBytes' & _ & Hpad' & Ht').
    cbv zeta in Ht, Ht'. rewrite Ht, Ht' in Hbytes.
    cbn [Trace.inputBytes] in Hbytes. subst inputBytes'.
    assert (paddedBytes' = paddedBytes) by congruence. subst paddedBytes'.
    rewrite Ht, Ht'. unfold withInputType.
    cbn [Trace.inputBytes Trace.paddedBytes Trace.chunks Trace.events
         Trace.digest Trace.constants Trace.shifts Trace.initialHash].
    destruct (chunkLoop_blocks (chunkBytes paddedBytes) INITIAL_HASH
                INITIAL_HASH_hashState) as (blocks & Hevents & _).
    rewrite Hevents. cbn [map eventWithInputType].
    rewrite map_app, blocks_withInputType. reflexivity. }
  split; [exact Heq|]. rewrite Heq. unfold withInputType.
  cbn [Trace.digest Trace.paddedBytes Trace.chunks Trace.events].
  split; [reflexivity|]. split; [reflexivity|]. split; [reflexivity|].
  apply length_map.
Qed.

Lemma trace_of_bytes_witness :
  exists t t',
    buildMd5Trace (codeUnits "abc") "text" = Returned t
    /\ buildMd5Trace (codeUnits "61 62 63") "hex" = Returned t'
    /\ t' = withInputType "hex" t.
Proof.
  do 2 eexists. split; [vm_compute; reflexivity|].
  split; [vm_compute; reflexivity|].
  eapply (trace_of_bytes (codeUnits "abc") (codeUnits "61 62 63")
            "text"%string "hex"%string).
  - vm_compute. reflexivity.
  - vm_compute. reflexivity.
  - vm_compute. reflexivity.
Defined.

(** ** The page: the step shown *)

Lemma clamp_range value min max :
  min <= max -> min <= clamp value min max <= max.
Proof. unfold clamp. lia. Qed.

Lemma clamp_inside value min max :
  min <= value <= max -> clamp value min max = value.
Proof. unfold clamp. lia. Qed.

Lemma at_index_defined {A : Type} (l : list A) i :
  0 <= i < Z.of_nat (List.length l) ->
  exists x, at_index l i = Some x /\ In x l.
Proof.
  intros Hi. unfold at_index.
  destruct (Z.ltb_spec i 0) as [Hneg|_]; [lia|].
  destruct (nth_error l (Z.to_nat i)) as [x|] eqn:Hx.
  - exists x. split; [reflexivity|eapply nth_error_In, Hx].
  - apply nth_error_None in Hx. lia.
Qed.

Lemma at_index_last {A : Type} (l : list A) x :
  at_index (l ++ [x]) (Z.of_nat (List.length (l ++ [x])) - 1) = Some x.
Proof.
  unfold at_index. rewrite length_app. cbn [List.length].
  destruct (Z.ltb_spec (Z.of_nat (List.length l + 1) - 1) 0) as [Hneg|_]; [lia|].
  replace (Z.to_nat (Z.of_nat (List.length l + 1) - 1)) with (List.length l)
    by lia.
  rewrite nth_error_app2, Nat.sub_diag by lia. reflexivity.
Qed.

Lemma trace_chunk_count inputValue inputType t :
  buildMd5Trace inputValue inputType = Returned t ->
  (0 < List.length (Trace.chunks t))%nat.
Proof.
  intros Hbuild.
  destruct (buildMd5Trace_returned _ _ _ Hbuild)
    as (inputBytes & paddedBytes & _ & Hpad & Ht).
  cbv zeta in Ht. rewrite Ht. cbn [Trace.chunks].
  destruct (padded_length _ _ Hpad) as (Hlen & _).
  pose proof (chunkBytes_count _ _ Hlen) as Hcount.
  assert (0 <= (Z.of_nat (List.length inputBytes) + 8) / 64)
    by (apply Z.div_pos; lia).
  lia.
Qed.

Lemma chained_blockFor hash chunks blocks :
  Ref.chained hash chunks blocks -> hashState hash ->
  Forall2 blockFor chunks blocks.
Proof.
  induction 1 as [hash|hash hash' chunk chunks block blocks Hblock Hchain IH];
    intros Hhash; constructor.
  - exists hash. split; [exact Hhash|]. rewrite Hblock. reflexivity.
  - apply IH. pose proof (f_equal snd Hblock) as Hsnd. cbn [snd] in Hsnd.
    rewrite <- Hsnd. apply processChunk_hashState.
Qed.

Lemma trace_structure inputValue inputType t :
  buildMd5Trace inputValue inputType = Returned t ->
  exists p blocks d,
    Trace.events t = (EvPreprocess p :: flat_map blockEvents blocks) ++ [EvDone d]
    /\ Forall2 blockFor (Trace.chunks t) blocks
    /\ Z.of_nat (List.length (Trace.events t))
       = 66 * Z.of_nat (List.length (Trace.chunks t)) + 2
    /\ Done.digest d = Trace.digest t
    /\ Done.digestPreview d = Trace.digest t
    /\ Preprocess.digestPreview p = digestFromState INITIAL_HASH.
Proof.
  intros Hbuild.
  destruct (trace_chained _ _ _ Hbuild)
    as (p & blocks & d & Hevents & Hchain & _ & Hd & Hdp & Hp & _).
  pose proof (chained_blockFor _ _ _ Hchain INITIAL_HASH_hashState) as Hall.
  exists p, blocks, d. split; [exact Hevents|]. split; [exact Hall|].
  split; [|repeat split; assumption].
  rewrite Hevents. cbn [List.length].
  rewrite length_app, (flat_map_blockEvents_length blocks)
    by (eapply blocks_rounds_length, Hall).
  rewrite (Forall2_length Hall). cbn [List.length]. lia.
Qed.

(** X17. The step the page shows.  With a trace, [maxStep] is 66 * chunkCount
    + 1; whatever number the state [step] holds, [currentStep] is between 0
    and [maxStep] (and is [step] itself when that is in the range), and the
    event at [currentStep] exists and is an event of the trace: the
    'preprocess' event for a step at or below 0, the 'done' event, with the
    digest of the trace, for a step at or above [maxStep].  While the shown
    step is below [maxStep], a tick of the autoplay timer moves it forward by
    exactly one. *)
Theorem current_step_event (inputValue : list Z) (inputType : string)
    (t : Trace.t) :
  buildMd5Trace inputValue inputType = Returned t ->
  maxStep (Some t) = 66 * Z.of_nat (List.length (Trace.chunks t)) + 1
  /\ forall step,
       0 <= currentStep step (Some t) <= maxStep (Some t)
       /\ (0 <= step <= maxStep (Some t) -> currentStep step (Some t) = step)
       /\ (exists ev,
              currentEvent step (Some t) = Some ev /\ In ev (Trace.events t))
       /\ (step <= 0 ->
           exists p, currentEvent step (Some t) = Some (EvPreprocess p))
       /\ (maxStep (Some t) <= step ->
           exists d,
             currentEvent step (Some t) = Some (EvDone d)
             /\ Done.digest d = Trace.digest t)
       /\ (0 <= step -> currentStep step (Some t) < maxStep (Some t) ->
           0 <= nextStep (Some t) step
           /\ currentStep (nextStep (Some t) step) (Some t)
              = currentStep step (Some t) + 1).
Proof.
  intros Hbuild.
  destruct (trace_structure _ _ _ Hbuild)
    as (p & blocks & d & Hevents & _ & Hlen & Hdigest & _).
  assert (Hmax : maxStep (Some t)
                 = 66 * Z.of_nat (List.length (Trace.chunks t)) + 1)
    by (unfold maxStep; lia).
  split; [exact Hmax|]. intros step.
  assert (Hpos : 0 <= maxStep (Some t)) by lia.
  split; [apply clamp_range, Hpos|].
  split; [apply clamp_inside|].
  split.
  { unfold currentEvent. apply at_index_defined.
    pose proof (clamp_range step 0 (maxStep (Some t)) Hpos) as Hrange.
    unfold currentStep. unfold maxStep in *. lia. }
  split.
  { intros Hstep. exists p. unfold currentEvent, currentStep.
    replace (clamp step 0 (maxStep (Some t))) with 0 by (unfold clamp; lia).
    rewrite Hevents. reflexivity. }
  split.
  { intros Hstep. exists d. split; [|exact Hdigest].
    unfold currentEvent, currentStep.
    replace (clamp step 0 (maxStep (Some t))) with (maxStep (Some t))
      by (unfold clamp; lia).
    unfold maxStep. rewrite Hevents. apply at_index_last. }
  intros Hstep Hlt. unfold currentStep, nextStep, clamp in *. lia.
Qed.

Lemma current_step_event_witness :
  exists t,
    buildMd5Trace (codeUnits "abc") "text" = Returned t
    /\ maxStep (Some t) = 66 * Z.of_nat (List.length (Trace.chunks t)) + 1.
Proof.
  eexists. split; [vm_compute; reflexivity|].
  eapply (current_step_event (codeUnits "abc") "text"%string).
  vm_compute. reflexivity.
Defined.

(** ** The page: the digest shown *)

Lemma digestFromState_shape state :
  List.length state = 4%nat ->
  String.length (digestFromState state) = 32%nat
  /\ Spec.allLowerHex (digestFromState state) = true.
Proof.
  intros Hlen.
  destruct state as [|h0 [|h1 [|h2 [|h3 [|]]]]]; try discriminate.
  rewrite digestFromState_format. apply formatDigest_shape.
Qed.

Lemma fold_length state regs : List.length (Spec.fold state regs) = 4%nat.
Proof. destruct regs as [[[a b] c] d]. reflexivity. Qed.

Lemma trace_event_cases inputValue inputType t ev :
  buildMd5Trace inputValue inputType = Returned t ->
  In ev (Trace.events t) ->
  (exists p, ev = EvPreprocess p
             /\ Preprocess.digestPreview p = digestFromState INITIAL_HASH)
  \/ (exists d, ev = EvDone d /\ Done.digestPreview d = Trace.digest t
                /\ Done.digest d = Trace.digest t)
  \/ exists k chunk s rs e,
       nth_error (Trace.chunks t) k = Some chunk
       /\ Chunk.index chunk = Z.of_nat k
       /\ blockFor chunk (s, rs, e)
       /\ (ev = EvChunkStart s \/ ev = EvChunkEnd e
           \/ exists r, ev = EvRound r /\ In r rs).
Proof.
  intros Hbuild Hin.
  destruct (trace_structure _ _ _ Hbuild)
    as (p & blocks & d & Hevents & Hall & _ & Hd & Hdp & Hp).
  destruct (trace_blocks _ _ _ Hbuild) as (_ & _ & _ & _ & _ & Hindex & _).
  rewrite Hevents in Hin. apply in_app_or in Hin.
  destruct Hin as [[Hin|Hin]|[Hin|[]]].
  - left. exists p. split; [symmetry; exact Hin|exact Hp].
  - right. right. apply in_flat_map in Hin.
    destruct Hin as ([[s rs] e] & Hblock & Hin).
    apply In_nth_error in Hblock. destruct Hblock as [k Hk].
    destruct (Forall2_nth_error_r _ _ _ Hall k _ Hk) as (chunk & Hchunk & Hfor).
    exists k, chunk, s, rs, e.
    split; [exact Hchunk|]. split; [apply Hindex, Hchunk|]. split; [exact Hfor|].
    cbn [blockEvents] in Hin. destruct Hin as [Hin|Hin]; [left; congruence|].
    apply in_app_or in Hin. destruct Hin as [Hin|[Hin|[]]].
    + right. right. apply in_map_iff in Hin. destruct Hin as (r & Heq & Hr).
      exists r. split; [congruence|exact Hr].
    + right. left. congruence.
  - right. left. exists d. split; [symmetry; exact Hin|]. split; assumption.
Qed.

Lemma blockFor_previews chunk s rs e :
  blockFor chunk (s, rs, e) ->
  (exists state, List.length state = 4%nat
                 /\ ChunkStart.digestPreview s = digestFromState state)
  /\ (exists state, List.length state = 4%nat
                    /\ ChunkEnd.digestPreview e = digestFromState state)
  /\ ChunkEnd.digestPreview e = ChunkEnd.digestAfterChunk e
  /\ forall r, In r rs ->
       exists state, List.length state = 4%nat
                     /\ Round.digestPreview r = digestFromState state.
Proof.
  intros (hash & Hhash & Hblock).
  destruct (block_start _ _ _ _ _ Hblock) as (_ & Hs & He & _).
  destruct (block_properties _ _ _ _ _ Hblock)
    as (_ & _ & _ & _ & _ & Hafter & Hd & _ & _ & Hrounds).
  split; [exists hash; split; [apply Hhash|exact Hs]|].
  split.
  { exists (ChunkEnd.hashAfter e). split; [|rewrite He; exact Hd].
    rewrite Hafter. apply (processChunk_hashState hash chunk). }
  split; [exact He|].
  intros r Hr. apply In_nth_error in Hr. destruct Hr as [j Hj].
  destruct (Hrounds j r Hj) as (_ & _ & _ & _ & _ & Hpreview & _).
  eexists. split; [|exact Hpreview]. apply fold_length.
Qed.

(** X18. The digest the page shows.  For every event of a trace,
    [getCurrentDigest] is the event's [digestPreview] (every event has one: the
    other fallbacks are never used), 32 lower-case hexadecimal digits; for a
    'chunk-end' event it is the digest after the chunk and for the 'done'
    event the digest of the trace.  At the first step it is the digest of the
    initial hash state, at the last step the digest of the trace. *)
Theorem current_digest_shown (inputValue : list Z) (inputType : string)
    (t : Trace.t) :
  buildMd5Trace inputValue inputType = Returned t ->
  (forall ev, In ev (Trace.events t) ->
      eventDigestPreview ev = Some (getCurrentDigest (Some ev) (Some t))
      /\ String.length (getCurrentDigest (Some ev) (Some t)) = 32%nat
      /\ Spec.allLowerHex (getCurrentDigest (Some ev) (Some t)) = true
      /\ (forall e, ev = EvChunkEnd e ->
            getCurrentDigest (Some ev) (Some t) = ChunkEnd.digestAfterChunk e)
      /\ (forall d, ev = EvDone d ->
            getCurrentDigest (Some ev) (Some t) = Trace.digest t))
  /\ (forall step, step <= 0 ->
        getCurrentDigest (currentEvent step (Some t)) (Some t)
        = "0123456789abcdeffedcba9876543210"%string)
  /\ (forall step, maxStep (Some t) <= step ->
        getCurrentDigest (currentEvent step (Some t)) (Some t)
        = Trace.digest t).
Proof.
  intros Hbuild.
  destruct (trace_structure _ _ _ Hbuild)
    as (p & blocks & d & Hevents & _ & Hlen & _ & Hdp & Hp).
  assert (Hdigest : exists state, List.length state = 4%nat
                                  /\ Trace.digest t = digestFromState state).
  { destruct (trace_chained _ _ _ Hbuild)
      as (_ & _ & _ & _ & _ & _ & _ & _ & _ & Hdigest).
    eexists. split; [|exact Hdigest].
    apply (chunkLoop_hashState _ _ INITIAL_HASH_hashState). }
  split; [|split].
  - intros ev Hin.
    assert (Hshape : exists state, List.length state = 4%nat
              /\ getCurrentDigest (Some ev) (Some t) = digestFromState state).
    { destruct (trace_event_cases _ _ _ ev Hbuild Hin)
        as [(p0 & -> & Hp0)|[(d0 & -> & Hd0 & _)|
            (k & chunk & s & rs & e & _ & _ & Hfor & Hev)]].
      - exists INITIAL_HASH. split; [reflexivity|exact Hp0].
      - destruct Hdigest as (state & Hstate & Hdigest).
        exists state. split; [exact Hstate|].
        cbn [getCurrentDigest eventDigestPreview orElse].
        rewrite Hd0. exact Hdigest.
      - destruct (blockFor_previews _ _ _ _ Hfor) as (Hs & He & _ & Hrs).
        destruct Hev as [->|[->|(r & -> & Hr)]].
        + exact Hs.
        + exact He.
        + exact (Hrs r Hr). }
    split; [destruct ev; reflexivity|].
    destruct Hshape as (state & Hstate & Hshape). rewrite Hshape.
    split; [apply digestFromState_shape, Hstate|].
    split; [apply digestFromState_shape, Hstate|].
    rewrite <- Hshape. split.
    + intros e ->.
      destruct (trace_event_cases _ _ _ _ Hbuild Hin)
        as [(p0 & Heq & _)|[(d0 & Heq & _)|
            (k & chunk & s & rs & e' & _ & _ & Hfor & Hev)]];
        [discriminate|discriminate|].
      destruct (blockFor_previews _ _ _ _ Hfor) as (_ & _ & He & _).
      destruct Hev as [Heq|[Heq|(r & Heq & _)]];
        [discriminate| |discriminate].
      injection Heq as ->. exact He.
    + intros d0 ->.
      destruct (trace_event_cases _ _ _ _ Hbuild Hin)
        as [(p0 & Heq & _)|[(d1 & Heq & Hd1 & _)|
            (k & chunk & s & rs & e' & _ & _ & _ & Hev)]].
      * discriminate.
      * injection Heq as ->. exact Hd1.
      * destruct Hev as [Heq|[Heq|(r & Heq & _)]]; discriminate.
  - intros step Hstep. unfold currentEvent, currentStep.
    replace (clamp step 0 (maxStep (Some t))) with 0
      by (unfold clamp, maxStep; lia).
    rewrite Hevents. cbn [app at_index Z.ltb Z.compare Z.to_nat nth_error].
    cbn [getCurrentDigest eventDigestPreview orElse]. rewrite Hp.
    vm_compute. reflexivity.
  - intros step Hstep. unfold currentEvent, currentStep.
    replace (clamp step 0 (maxStep (Some t))) with (maxStep (Some t))
      by (unfold clamp, maxStep in *; lia).
    unfold maxStep. rewrite Hevents, at_index_last.
    cbn [getCurrentDigest eventDigestPreview orElse]. exact Hdp.
Qed.

Lemma current_digest_shown_witness :
  exists t,
    buildMd5Trace (codeUnits "abc") "text" = Returned t
    /\ getCurrentDigest (currentEvent 0 (Some t)) (Some t)
       = "0123456789abcdeffedcba9876543210"%string.
Proof.
  eexists. split; [vm_compute; reflexivity|].
  eapply (current_digest_shown (codeUnits "abc") "text"%string);
    [vm_compute; reflexivity|lia].
Defined.

(** ** The page: the chunk shown *)

(** X19. The chunk the page shows.  With a trace, [resolveChunkIndex] is
    always the index of a chunk of the trace, for no event and for any event
    of the trace, and the chunk found there has this index: for a
    'chunk-start', 'round' or 'chunk-end' event it is the event's own chunk
    index (clamping never changes it), for the 'preprocess' event 0, for the
    'done' event the last chunk. *)
Theorem resolveChunkIndex_valid (inputValue : list Z) (inputType : string)
    (t : Trace.t) :
  buildMd5Trace inputValue inputType = Returned t ->
  (exists chunk, at_index (Trace.chunks t) (resolveChunkIndex None (Some t))
                 = Some chunk)
  /\ forall ev, In ev (Trace.events t) ->
       (exists chunk,
           at_index (Trace.chunks t) (resolveChunkIndex (Some ev) (Some t))
           = Some chunk
           /\ Chunk.index chunk = resolveChunkIndex (Some ev) (Some t))
       /\ (forall i, eventChunkIndex ev = Some i ->
             resolveChunkIndex (Some ev) (Some t) = i)
       /\ (forall p, ev = EvPreprocess p ->
             resolveChunkIndex (Some ev) (Some t) = 0)
       /\ (forall d, ev = EvDone d ->
             resolveChunkIndex (Some ev) (Some t)
             = Z.of_nat (List.length (Trace.chunks t)) - 1).
Proof.
  intros Hbuild.
  pose proof (trace_chunk_count _ _ _ Hbuild) as Hcount.
  destruct (trace_blocks _ _ _ Hbuild) as (_ & _ & _ & _ & _ & Hindex & _).
  assert (Hzero : (Z.of_nat (List.length (Trace.chunks t)) =? 0) = false)
    by (apply Z.eqb_neq; lia).
  assert (Hat : forall i, 0 <= i < Z.of_nat (List.length (Trace.chunks t)) ->
            exists chunk, at_index (Trace.chunks t) i = Some chunk
                          /\ Chunk.index chunk = i).
  { intros i Hi. unfold at_index.
    destruct (Z.ltb_spec i 0) as [Hneg|_]; [lia|].
    destruct (nth_error (Trace.chunks t) (Z.to_nat i)) as [chunk|] eqn:Hchunk.
    - exists chunk. split; [reflexivity|]. rewrite (Hindex _ _ Hchunk). lia.
    - apply nth_error_None in Hchunk. lia. }
  split.
  { unfold resolveChunkIndex. cbv zeta. rewrite Hzero.
    destruct (Hat 0 ltac:(lia)) as (chunk & Hchunk & _).
    exists chunk. exact Hchunk. }
  intros ev Hin.
  assert (Hvalue :
    (forall i, eventChunkIndex ev = Some i ->
       resolveChunkIndex (Some ev) (Some t) = i
       /\ 0 <= i < Z.of_nat (List.length (Trace.chunks t)))
    /\ (forall p, ev = EvPreprocess p ->
          resolveChunkIndex (Some ev) (Some t) = 0)
    /\ (forall d, ev = EvDone d ->
          resolveChunkIndex (Some ev) (Some t)
          = Z.of_nat (List.length (Trace.chunks t)) - 1)).
  { split; [|split].
    - intros i Hi.
      destruct (trace_event_cases _ _ _ ev Hbuild Hin)
        as [(p0 & -> & _)|[(d0 & -> & _)|
            (k & chunk & s & rs & e & Hchunk & Hk & Hfor & Hev)]];
        [discriminate|discriminate|].
      assert (Hlt : (k < List.length (Trace.chunks t))%nat)
        by (apply nth_error_Some; rewrite Hchunk; discriminate).
      destruct (blockFor_properties _ _ _ _ Hfor)
        as (Hs & He & _ & _ & _ & Hrounds).
      assert (Hik : i = Z.of_nat k).
      { destruct Hev as [->|[->|(r & -> & Hr)]];
          cbn [eventChunkIndex] in Hi; injection Hi as <-.
        - rewrite Hs. exact Hk.
        - rewrite He. exact Hk.
        - apply In_nth_error in Hr. destruct Hr as [j Hj].
          destruct (Hrounds j r Hj) as (_ & Hci & _). rewrite Hci. exact Hk. }
      split; [|lia].
      unfold resolveChunkIndex. cbv zeta. rewrite Hzero, Hi.
      apply clamp_inside. lia.
    - intros p0 ->. unfold resolveChunkIndex. cbv zeta. rewrite Hzero.
      reflexivity.
    - intros d0 ->. unfold resolveChunkIndex. cbv zeta. rewrite Hzero.
      reflexivity. }
  destruct Hvalue as (Hchunk & Hpre & Hdone).
  split.
  { destruct (eventChunkIndex ev) as [i|] eqn:Hi.
    - destruct (Hchunk i eq_refl) as (-> & Hrange). apply Hat, Hrange.
    - destruct ev; try discriminate.
      + rewrite (Hpre _ eq_refl). apply Hat. lia.
      + rewrite (Hdone _ eq_refl). apply Hat. lia. }
  split; [intros i Hi; apply Hchunk, Hi|]. split; assumption.
Qed.

Lemma resolveChunkIndex_valid_witness :
  exists t chunk,
    buildMd5Trace (codeUnits "abc") "text" = Returned t
    /\ at_index (Trace.chunks t) (resolveChunkIndex None (Some t)) = Some chunk.
Proof.
  eexists.
  edestruct (resolveChunkIndex_valid (codeUnits "abc") "text"%string)
    as ((chunk & Hchunk) & _); [vm_compute; reflexivity|].
  exists chunk. split; [vm_compute; reflexivity|exact Hchunk].
Defined.

(** ** The page: the rounds shown next to the current one *)

Lemma table_at_index (table : list Z) i :
  List.length table = 64%nat -> 0 <= i < 64 ->
  at_index table i = Some (nth (Z.to_nat i) table 0).
Proof.
  intros Hlen Hi. unfold at_index.
  destruct (Z.ltb_spec i 0) as [Hneg|_]; [lia|].
  apply nth_error_nth'. lia.
Qed.

(** X20. The rounds the page lists beside a 'round' event of a trace: 3 to 5
    rows with consecutive round indices from max(0, i - 2) on, all between 0
    and 63 and within 2 of the round index [i] of the event; every row's
    shift and constant are defined and are [SHIFT_AMOUNTS] and [TABLE_K] at
    the row's index; one row is the event's own round, with the shift and the
    constant that the event records. *)
Theorem roundWindow_rows (inputValue : list Z) (inputType : string)
    (t : Trace.t) :
  buildMd5Trace inputValue inputType = Returned t ->
  forall r, In (EvRound r) (Trace.events t) ->
    (3 <= List.length (roundWindow (Some (EvRound r)) (Some t)) <= 5)%nat
    /\ map WindowRow.index (roundWindow (Some (EvRound r)) (Some t))
       = map (fun k => Z.max 0 (Round.roundIndex r - 2) + Z.of_nat k)
           (seq 0 (List.length (roundWindow (Some (EvRound r)) (Some t))))
    /\ (forall row, In row (roundWindow (Some (EvRound r)) (Some t)) ->
          0 <= WindowRow.index row < 64
          /\ Round.roundIndex r - 2 <= WindowRow.index row
             <= Round.roundIndex r + 2
          /\ WindowRow.shift row
             = Some (nth (Z.to_nat (WindowRow.index row)) SHIFT_AMOUNTS 0)
          /\ WindowRow.constant row
             = Some (nth (Z.to_nat (WindowRow.index row)) TABLE_K 0))
    /\ exists row,
         In row (roundWindow (Some (EvRound r)) (Some t))
         /\ WindowRow.index row = Round.roundIndex r
         /\ WindowRow.shift row = Some (Round.shift r)
         /\ WindowRow.constant row = Some (Round.constant r).
Proof.
  intros Hbuild r Hin.
  assert (Htables : Trace.shifts t = SHIFT_AMOUNTS /\ Trace.constants t = TABLE_K).
  { destruct (buildMd5Trace_returned _ _ _ Hbuild)
      as (inputBytes & paddedBytes & _ & _ & Ht).
    cbv zeta in Ht. rewrite Ht. split; reflexivity. }
  destruct Htables as [Hshifts Hconstants].
  assert (Hround : 0 <= Round.roundIndex r < 64
                   /\ Round.shift r
                      = nth (Z.to_nat (Round.roundIndex r)) SHIFT_AMOUNTS 0
                   /\ Round.constant r
                      = nth (Z.to_nat (Round.roundIndex r)) TABLE_K 0).
  { destruct (trace_event_cases _ _ _ _ Hbuild Hin)
      as [(p0 & Heq & _)|[(d0 & Heq & _)|
          (k & chunk & s & rs & e & _ & _ & Hfor & Hev)]];
      [discriminate|discriminate|].
    destruct Hev as [Heq|[Heq|(r' & Heq & Hr)]]; [discriminate|discriminate|].
    injection Heq as <-.
    destruct (blockFor_engine _ _ _ _ Hfor) as (_ & _ & _ & _ & _ & Hengine).
    destruct (Hengine r Hr) as (Hi & a & b & c & d & _ & _ & Hspec).
    destruct Hspec as (_ & _ & _ & Hk & Hs & _).
    split; [exact Hi|]. split; assumption. }
  destruct Hround as (Hi & Hshift & Hconstant).
  unfold roundWindow. cbv zeta. rewrite Hshifts, Hconstants.
  set (start := Z.max 0 (Round.roundIndex r - 2)).
  set (stop := Z.min 63 (Round.roundIndex r + 2)).
  assert (Hcount : (3 <= Z.to_nat (stop - start + 1) <= 5)%nat)
    by (subst start stop; lia).
  rewrite !length_map, !length_seq, map_map. cbn [WindowRow.index].
  split; [exact Hcount|]. split; [reflexivity|].
  split.
  - intros row Hrow. apply in_map_iff in Hrow.
    destruct Hrow as (k & <- & Hk). apply in_seq in Hk.
    cbn [WindowRow.index WindowRow.shift WindowRow.constant].
    assert (Hrange : 0 <= start + Z.of_nat k < 64) by (subst start stop; lia).
    split; [exact Hrange|]. split; [subst start stop; lia|].
    split; apply table_at_index; reflexivity || exact Hrange.
  - exists (WindowRow.mk (Round.roundIndex r)
              (at_index SHIFT_AMOUNTS (Round.roundIndex r))
              (at_index TABLE_K (Round.roundIndex r))).
    cbn [WindowRow.index WindowRow.shift WindowRow.constant].
    split.
    + apply in_map_iff. exists (Z.to_nat (Round.roundIndex r - start)).
      replace (start + Z.of_nat (Z.to_nat (Round.roundIndex r - start)))
        with (Round.roundIndex r) by (subst start; lia).
      split; [reflexivity|]. apply in_seq. subst start stop. lia.
    + split; [reflexivity|].
      rewrite Hshift, Hconstant.
      split; apply table_at_index; reflexivity || exact Hi.
Qed.

Lemma roundWindow_rows_witness :
  exists t r,
    buildMd5Trace (codeUnits "abc") "text" = Returned t
    /\ In (EvRound r) (Trace.events t)
    /\ (3 <= List.length (roundWindow (Some (EvRound r)) (Some t)) <= 5)%nat.
Proof.
  do 2 eexists. split; [vm_compute; reflexivity|].
  split.
  - cbn [Trace.events In]. right. right. left. reflexivity.
  - eapply (roundWindow_rows (codeUnits "abc") "text"%string);
      [vm_compute; reflexivity|].
    cbn [Trace.events In]. right. right. left. reflexivity.
Defined.
